(** * The implicitron configuration engine

    A shallow embedding of [pytorch3d/implicitron/tools/config.py]: the
    registry of replaceable implementations, the in-place expansion of
    configurable classes ([expand_args_fields], [_process_member]), the
    extraction of default configuration trees ([get_default_args]), the
    auto-creation runner ([run_auto_creation], [_default_create]) and the
    pruner of configuration trees ([remove_unused_components]).

    Python objects with identity (classes) live in a store indexed by class
    identifiers; the interpreter state that the module mutates (the class
    objects, the global [registry], the emitted warnings) is threaded
    explicitly through a state-and-exception monad.  An exception leaves the
    mutations made before it in place, as in Python. *)

From Stdlib Require Import String Ascii List ZArith Bool Arith Lia.
Import ListNotations.
Open Scope list_scope.
Open Scope string_scope.

Set Warnings "-register-all".

(** ** Outcomes and the state-and-exception monad *)

(** Class objects are referred to by their index in the class store. *)
Definition cid := nat.

(** Keys of a [DictConfig]: strings, or anything else OmegaConf accepts
    (integers stand for every key that is not a [str]). *)
Inductive Key :=
| KStr (s : string)
| KInt (z : Z).

Coercion KStr : string >-> Key.

(** The messages of the [ValueError]s raised by the module. *)
Inductive ValueErrorKind :=
| CannotRegister (c : cid)              (* "Cannot register ... Cannot tell what it is." *)
| RegisterBaseClass (c : cid)           (* "Attempted to register the base class ..." *)
| CannotLookUp (c : cid)                (* "Cannot look up ... Cannot tell what it is." *)
| NotRegistered                         (* "... has not been registered." *)
| DoesNotSubclass (r wanted : cid)      (* "... resolves to ... which does not subclass ..." *)
| InternalRecursion (c : cid)           (* "Internal recursion error. Need processed ..." *)
| FailedToProcess (c : cid)             (* "Failed to process ..." *)
| AlreadyPresent (args_name : string)   (* "Cannot generate ... because it is already present." *)
| CannotProcessInside (t c : cid).      (* "Cannot process ... inside ..." *)

Inductive exn :=
| ValueError (k : ValueErrorKind)
| TypeError (why : string)
| KeyError (k : Key)
| AttributeError (name : string)
| UnsupportedValueType (name : string).  (* raised by OmegaConf on a value it cannot hold *)

(** [OutOfFuel] is not a Python outcome: it marks a run of the model that
    needed a deeper call stack than the fuel it was given. *)
Inductive outcome (A : Type) :=
| Ret (a : A)
| Raise (e : exn)
| OutOfFuel.

Arguments Ret {A} a.
Arguments Raise {A} e.
Arguments OutOfFuel {A}.

Definition M (S A : Type) : Type := S -> outcome A * S.

Definition ret {S A} (a : A) : M S A := fun s => (Ret a, s).

Definition raise {S A} (e : exn) : M S A := fun s => (Raise e, s).

Definition out_of_fuel {S A} : M S A := fun s => (OutOfFuel, s).

Definition bind {S A B} (m : M S A) (k : A -> M S B) : M S B :=
  fun s =>
    match m s with
    | (Ret a, s') => k a s'
    | (Raise e, s') => (Raise e, s')
    | (OutOfFuel, s') => (OutOfFuel, s')
    end.

Definition get_state {S} : M S S := fun s => (Ret s, s).

Definition put_state {S} (s : S) : M S unit := fun _ => (Ret tt, s).

Definition modify_state {S} (f : S -> S) : M S unit := fun s => (Ret tt, f s).

Declare Scope py_scope.
Delimit Scope py_scope with py.

Notation "x <- c ;; k" := (bind c (fun x => k))
  (at level 61, c at next level, right associativity) : py_scope.
Notation "' pat <- c ;; k" := (bind c (fun x => match x with pat => k end))
  (at level 61, pat pattern, c at next level, right associativity) : py_scope.
Notation "c ;; k" := (bind c (fun _ => k))
  (at level 61, right associativity) : py_scope.

Open Scope py_scope.

(** [for x in l: body x] *)
Fixpoint for_each {S A} (l : list A) (body : A -> M S unit) : M S unit :=
  match l with
  | [] => ret tt
  | x :: rest => body x ;; for_each rest body
  end.

(** A [for] loop that carries local variables [acc] around. *)
Fixpoint for_fold {S A B} (l : list A) (acc : B) (body : B -> A -> M S B) : M S B :=
  match l with
  | [] => ret acc
  | x :: rest => acc' <- body acc x ;; for_fold rest acc' body
  end.

(** ** Python strings *)

Module PyStr.

(** [s.startswith(p)] *)
Definition startswith (s p : string) : bool := String.prefix p s.

(** [s.endswith(suf)] *)
Definition endswith (s suf : string) : bool :=
  let n := String.length s in
  let m := String.length suf in
  Nat.leb m n && String.eqb (substring (n - m) m s) suf.

(** [s[:-n]] for a positive [n] *)
Definition drop_last (n : nat) (s : string) : string :=
  substring 0 (String.length s - n) s.

End PyStr.

(** ** Insertion-ordered dictionaries

    Python's [dict] (and OmegaConf's [DictConfig]) keep their keys in
    insertion order, and that order decides the order of generated fields
    and of [registry.get_all]; they are association lists with one entry
    per key. *)

Class EqKey (K : Type) := { keqb : K -> K -> bool }.

(** The test decides equality (proved for each instance further down). *)
Class EqKeyLaws (K : Type) `{EqKey K} := {
  keqb_eq : forall x y : K, keqb x y = true <-> x = y
}.

#[global] Instance EqKey_string : EqKey string := {| keqb := String.eqb |}.

#[global] Instance EqKey_nat : EqKey nat := {| keqb := Nat.eqb |}.

Definition key_eqb (a b : Key) : bool :=
  match a, b with
  | KStr s, KStr t => String.eqb s t
  | KInt x, KInt y => Z.eqb x y
  | _, _ => false
  end.

#[global] Instance EqKey_Key : EqKey Key := {| keqb := key_eqb |}.

Module OD.
Section Dict.
Context {K V : Type} `{EqKey K}.

Definition t := list (K * V).

(** [d.get(k)] *)
Fixpoint get (k : K) (d : list (K * V)) : option V :=
  match d with
  | [] => None
  | (k', v) :: rest => if keqb k k' then Some v else get k rest
  end.

(** [k in d] *)
Definition mem (k : K) (d : list (K * V)) : bool :=
  match get k d with Some _ => true | None => false end.

(** [d[k] = v]: an existing key keeps its position, a new one goes last. *)
Fixpoint set (k : K) (v : V) (d : list (K * V)) : list (K * V) :=
  match d with
  | [] => [(k, v)]
  | (k', v') :: rest =>
      if keqb k k' then (k, v) :: rest else (k', v') :: set k v rest
  end.

(** The dictionary without the key [k]. *)
Definition remove (k : K) (d : list (K * V)) : list (K * V) :=
  filter (fun kv => negb (keqb k (fst kv))) d.

Definition keys (d : list (K * V)) : list K := map fst d.

Definition values (d : list (K * V)) : list V := map snd d.

(** [d.update(other)] *)
Definition update (d other : list (K * V)) : list (K * V) :=
  fold_left (fun acc kv => set (fst kv) (snd kv) acc) other d.

End Dict.
End OD.

(** Membership of a class (or of a name) in a tuple, list or set. *)
Definition mem_nat (x : nat) (l : list nat) : bool := existsb (Nat.eqb x) l.
Definition mem_str (x : string) (l : list string) : bool := existsb (String.eqb x) l.

(** ** Configuration values *)

(** What a [DictConfig] can hold, and the instances built from it.
    [VMissing] is OmegaConf's mandatory-value marker [???], [VObj] an
    instance of a class with its [__dict__], [VOpaque] any Python object that
    is not configuration data (a function, say); floating-point leaves are
    not represented (the engine never inspects a leaf). *)
Inductive Value :=
| VNone
| VBool (b : bool)
| VInt (z : Z)
| VStr (s : string)
| VMissing
| VList (l : list Value)
| VDict (d : list (Key * Value))
| VObj (cls : cid) (attrs : list (string * Value))
| VOpaque.

Definition DictConfig := list (Key * Value).

Definition TYPE_SUFFIX : string := "_class_type".
Definition ARGS_SUFFIX : string := "_args".

(** ** The configuration-tree pruner *)

Module Pruner.

(** [keys = [key for key in dict_ if isinstance(key, str)]] *)
Fixpoint str_keys (d : DictConfig) : list string :=
  match d with
  | [] => []
  | (KStr s, _) :: rest => s :: str_keys rest
  | (KInt _, _) :: rest => str_keys rest
  end.

(** [[key[:-suffix_length] for key in keys if key.endswith(TYPE_SUFFIX)]] *)
Definition replaceables (keys : list string) : list string :=
  map (PyStr.drop_last (String.length TYPE_SUFFIX))
      (filter (fun key => PyStr.endswith key TYPE_SUFFIX) keys).

(** [[key for key in keys if key.endswith(ARGS_SUFFIX)]] *)
Definition args_keys (keys : list string) : list string :=
  filter (fun key => PyStr.endswith key ARGS_SUFFIX) keys.

(** [del dict_[key]]: a [KeyError] when the key is not there. *)
Definition delitem (key : Key) : M DictConfig unit :=
  d <- get_state ;;
  if OD.mem key d then put_state (OD.remove key d) else raise (KeyError key).

(** [dict_[key]], then used as a string in a concatenation. *)
Definition getitem_str (key : Key) : M DictConfig string :=
  d <- get_state ;;
  match OD.get key d with
  | None => raise (KeyError key)
  | Some (VStr s) => ret s
  | Some _ => raise (TypeError "can only concatenate str to str")
  end.

(** The test of the inner loop. *)
Definition unexpected (replaceable expect key : string) : bool :=
  PyStr.startswith key (replaceable ++ "_") && negb (String.eqb key expect).

(** The body of [for replaceable in replaceables]. *)
Definition prune_replaceable (args_keys : list string) (replaceable : string)
  : M DictConfig unit :=
  selected_type <- getitem_str (KStr (replaceable ++ TYPE_SUFFIX)) ;;
  let expect := replaceable ++ "_" ++ selected_type ++ ARGS_SUFFIX in
  for_each args_keys (fun key =>
    if unexpected replaceable expect key then delitem (KStr key) else ret tt).

(** Lines 700-710: the pruning of one nesting level. *)
Definition prune_level : M DictConfig unit :=
  d <- get_state ;;
  let keys := str_keys d in
  for_each (replaceables keys) (prune_replaceable (args_keys keys)).

(** Lines 712-714 on a level [l]: the nested [DictConfig]s are pruned in
    turn, where [rec] prunes one of them.  An exception stops the loop
    and leaves the later entries as they are. *)
Fixpoint prune_children (rec_ : Value -> outcome unit * Value)
    (l : DictConfig) : outcome unit * DictConfig :=
  match l with
  | [] => (Ret tt, [])
  | (k, VDict sub) :: rest =>
      match rec_ (VDict sub) with
      | (Ret _, v') =>
          let '(r, rest') := prune_children rec_ rest in (r, (k, v') :: rest')
      | (r, v') => (r, (k, v') :: rest)
      end
  | (k, v) :: rest =>
      let '(r, rest') := prune_children rec_ rest in (r, (k, v) :: rest')
  end.

(** The whole function on the node [v].  The recursion runs over the
    entries of the level as they were on entry and skips those that the
    first loop deleted, which makes it structural; [prune_value_unfold]
    below states that this is the loop over the pruned level. *)
Fixpoint prune_value (v : Value) : outcome unit * Value :=
  match v with
  | VDict d =>
      match prune_level d with
      | (Ret _, d1) =>
          let '(r, d2) :=
            (fix children (l : DictConfig) : outcome unit * DictConfig :=
               match l with
               | [] => (Ret tt, [])
               | (k, x) :: rest =>
                   if OD.mem k d1 then
                     match x with
                     | VDict _ =>
                         match prune_value x with
                         | (Ret _, x') =>
                             let '(r, rest') := children rest in
                             (r, (k, x') :: rest')
                         | (r, x') =>
                             (r, (k, x') ::
                                   filter (fun kv => OD.mem (fst kv) d1) rest)
                         end
                     | _ =>
                         let '(r, rest') := children rest in
                         (r, (k, x) :: rest')
                     end
                   else children rest
               end) d in
          (r, VDict d2)
      | (r, d1) => (r, VDict d1)
      end
  | _ => (Ret tt, v)
  end.

Definition remove_unused_components : M DictConfig unit :=
fun dict_ =>
  match prune_value (VDict dict_) with
  | (r, VDict d') => (r, d')
  | (r, _) => (r, dict_)
  end.

(** The inner loop of [prune_value], for any way [rec_] of pruning a
    nested tree: the entries of [l] that are still in [d1] are visited. *)
Definition prune_kept (rec_ : Value -> outcome unit * Value) (d1 : DictConfig)
  : DictConfig -> outcome unit * DictConfig :=
fix children (l : DictConfig) : outcome unit * DictConfig :=
  match l with
  | [] => (Ret tt, [])
  | (k, x) :: rest =>
      if OD.mem k d1 then
        match x with
        | VDict _ =>
            match rec_ x with
            | (Ret _, x') =>
                let '(r, rest') := children rest in
                (r, (k, x') :: rest')
            | (r, x') =>
                (r, (k, x') ::
                      filter (fun kv => OD.mem (fst kv) d1) rest)
            end
        | _ =>
            let '(r, rest') := children rest in
            (r, (k, x) :: rest')
        end
      else children rest
  end.

(** *** What the specification asks of the pruner *)

(** [key] is one of the fields generated for the pluggable member
    [member]: it starts with [<member>_] and ends with [_args]. *)
Definition generated_for (member key : string) : bool :=
PyStr.startswith key (member ++ "_") && PyStr.endswith key ARGS_SUFFIX.

(** [Pruned d d']: at this level and at every nested level, for every key
    [<member>_class_type] with value [v] every other generated field of
    the member is gone, nothing else is gone, and what remains is what was
    there, in the same order, with the nested trees pruned in turn. *)
Inductive Pruned : DictConfig -> DictConfig -> Prop :=
| Pruned_level (d d' : DictConfig) :
    (forall member v key,
        OD.get (KStr (member ++ TYPE_SUFFIX)) d = Some (VStr v) ->
        In (KStr key) (OD.keys d) ->
        generated_for member key = true ->
        key <> member ++ "_" ++ v ++ ARGS_SUFFIX ->
        ~ In (KStr key) (OD.keys d')) ->
    (forall k,
        In k (OD.keys d) -> ~ In k (OD.keys d') ->
        exists member key,
          k = KStr key /\ In (KStr (member ++ TYPE_SUFFIX)) (OD.keys d)
          /\ generated_for member key = true) ->
    OD.keys d' = filter (fun k => OD.mem k d') (OD.keys d) ->
    (forall k v',
        OD.get k d' = Some v' ->
        exists v, OD.get k d = Some v /\
                  (((forall sub, v <> VDict sub) /\ v' = v)
                   \/ (exists sub sub',
                          v = VDict sub /\ v' = VDict sub' /\ Pruned sub sub'))) ->
    Pruned d d'.

End Pruner.

(** ** Class objects and the interpreter state *)

(** The classes every program starts with. *)
Definition OBJECT : cid := 0.
Definition REPLACEABLE_BASE : cid := 1.
Definition CONFIGURABLE : cid := 2.
Definition DICTCONFIG : cid := 3.
Definition STR : cid := 4.
Definition INT : cid := 5.

(** An annotation: a class ([isinstance(type_, type)]) or something else,
    such as [typing.Tuple[int, ...]]. *)
Inductive Ty :=
| TyClass (c : cid)
| TyOther (descr : string).

(** What [get_default_args] is called on: [None], a class, or another
    callable given by the parameters of its signature (each with its
    default, if it has one). *)
Inductive Target :=
| TNone
| TClass (c : cid)
| TFunc (params : list (string * option Value)).

(** The entries of a class [__dict__] other than the special ones. *)
Inductive Attr :=
| AVal (v : Value)                                   (* a plain class attribute *)
| AField (target : Target) (do_not_process : list cid)
                                                     (* [get_default_args_field(target, _do_not_process=...)] *)
| ADefaultCreate (name : string) (type_ : cid) (pluggable : bool)
                                                     (* [_default_create(name, type_, pluggable)] *)
| ARunAutoCreation                                   (* a method whose body is [run_auto_creation(self)] *)
| AUser (tag : string).                              (* any other method written by the user *)

(** The default of a [dataclasses.Field]. *)
Inductive FieldDefault :=
| FNoDefault
| FDefault (a : Attr)
| FFactory (target : Target) (do_not_process : list cid).

Definition Fields := list (string * (Ty * FieldDefault)).

Record PyClass := {
  cls_name : string;                                   (* [__name__] *)
  cls_bases : list cid;                                (* [__bases__] *)
  cls_mro : list cid;                                  (* [mro()] *)
  cls_signature : list (string * option Value);        (* parameters of a hand-written [__init__] *)
  cls_annotations : option (list (string * Ty));       (* [__dict__["__annotations__"]] *)
  cls_attrs : list (string * Attr);                    (* the ordinary entries of [__dict__] *)
  cls_dataclass_fields : option Fields;                (* [__dict__["__dataclass_fields__"]] *)
  cls_init : option bool;                              (* the generated [__init__], and whether it calls [__post_init__] *)
  cls_creation_functions : option (list string);       (* [__dict__["_creation_functions"]] *)
  cls_processed_members : option (list string);        (* [__dict__["_processed_members"]] *)
  cls_known_implementations : option (list (string * cid))
                                                       (* [__dict__["_known_implementations"]] *)
}.

Inductive Warning :=
| UnprocessedWarning (class_name : string)      (* class_name + _unprocessed_warning *)
| NewImplementationWarning (type_name : string) (* "New implementation of ... is being chosen." *)
| ClashWarning (key : string).                  (* "Clash with ... in a base class." *)

Record World := {
  classes : list PyClass;
  registry_mapping : list (cid * list (string * cid));   (* [registry._mapping] *)
  warnings : list Warning
}.

Definition no_class : PyClass :=
  {| cls_name := ""; cls_bases := []; cls_mro := []; cls_signature := [];
     cls_annotations := None; cls_attrs := []; cls_dataclass_fields := None;
     cls_init := None; cls_creation_functions := None;
     cls_processed_members := None; cls_known_implementations := None |}.

Definition get_class (w : World) (c : cid) : PyClass := nth c (classes w) no_class.

Fixpoint list_update {A} (i : nat) (f : A -> A) (l : list A) : list A :=
  match l, i with
  | [], _ => []
  | x :: rest, O => f x :: rest
  | x :: rest, S j => x :: list_update j f rest
  end.

Definition update_class (c : cid) (f : PyClass -> PyClass) (w : World) : World :=
  {| classes := list_update c f (classes w);
     registry_mapping := registry_mapping w;
     warnings := warnings w |}.

Definition with_annotations (a : option (list (string * Ty))) (k : PyClass) : PyClass :=
  {| cls_name := cls_name k; cls_bases := cls_bases k; cls_mro := cls_mro k;
     cls_signature := cls_signature k;
     cls_annotations := a; cls_attrs := cls_attrs k;
     cls_dataclass_fields := cls_dataclass_fields k; cls_init := cls_init k;
     cls_creation_functions := cls_creation_functions k;
     cls_processed_members := cls_processed_members k;
     cls_known_implementations := cls_known_implementations k |}.

Definition with_attrs (a : list (string * Attr)) (k : PyClass) : PyClass :=
  {| cls_name := cls_name k; cls_bases := cls_bases k; cls_mro := cls_mro k;
     cls_signature := cls_signature k;
     cls_annotations := cls_annotations k; cls_attrs := a;
     cls_dataclass_fields := cls_dataclass_fields k; cls_init := cls_init k;
     cls_creation_functions := cls_creation_functions k;
     cls_processed_members := cls_processed_members k;
     cls_known_implementations := cls_known_implementations k |}.

Definition with_dataclass_fields (f : Fields) (k : PyClass) : PyClass :=
  {| cls_name := cls_name k; cls_bases := cls_bases k; cls_mro := cls_mro k;
     cls_signature := cls_signature k;
     cls_annotations := cls_annotations k; cls_attrs := cls_attrs k;
     cls_dataclass_fields := Some f; cls_init := cls_init k;
     cls_creation_functions := cls_creation_functions k;
     cls_processed_members := cls_processed_members k;
     cls_known_implementations := cls_known_implementations k |}.

Definition with_init (has_post_init : bool) (k : PyClass) : PyClass :=
  {| cls_name := cls_name k; cls_bases := cls_bases k; cls_mro := cls_mro k;
     cls_signature := cls_signature k;
     cls_annotations := cls_annotations k; cls_attrs := cls_attrs k;
     cls_dataclass_fields := cls_dataclass_fields k;
     cls_init := Some has_post_init;
     cls_creation_functions := cls_creation_functions k;
     cls_processed_members := cls_processed_members k;
     cls_known_implementations := cls_known_implementations k |}.

Definition with_bookkeeping (creation_functions processed_members : list string)
    (known_implementations : list (string * cid)) (k : PyClass) : PyClass :=
  {| cls_name := cls_name k; cls_bases := cls_bases k; cls_mro := cls_mro k;
     cls_signature := cls_signature k;
     cls_annotations := cls_annotations k; cls_attrs := cls_attrs k;
     cls_dataclass_fields := cls_dataclass_fields k; cls_init := cls_init k;
     cls_creation_functions := Some creation_functions;
     cls_processed_members := Some processed_members;
     cls_known_implementations := Some known_implementations |}.

Definition warn (x : Warning) : M World unit :=
  modify_state (fun w =>
    {| classes := classes w; registry_mapping := registry_mapping w;
       warnings := (warnings w ++ [x])%list |}).

(** [issubclass(c, d)]: [d] is in the method resolution order of [c]. *)
Definition issubclass (w : World) (c d : cid) : bool :=
  mem_nat d (cls_mro (get_class w c)).

(** A class attribute found along the method resolution order, as
    [getattr(cls, name)] finds it. *)
Fixpoint find_along {A} (proj : PyClass -> option A) (w : World) (mro : list cid)
  : option A :=
  match mro with
  | [] => None
  | c :: rest =>
      match proj (get_class w c) with
      | Some a => Some a
      | None => find_along proj w rest
      end
  end.

Definition class_lookup {A} (proj : PyClass -> option A) (w : World) (c : cid)
  : option A :=
  find_along proj w (cls_mro (get_class w c)).

Definition class_getattr (w : World) (c : cid) (name : string) : option Attr :=
  class_lookup (fun k => OD.get name (cls_attrs k)) w c.

Definition hasattr (w : World) (c : cid) (name : string) : bool :=
  match class_getattr w c name with Some _ => true | None => false end.

(** [setattr(cls, name, a)] *)
Definition class_setattr (c : cid) (name : string) (a : Attr) : M World unit :=
  modify_state (update_class c (fun k => with_attrs (OD.set name a (cls_attrs k)) k)).

(** [delattr(cls, name)]: only an entry of the class's own [__dict__] can go. *)
Definition class_delattr (c : cid) (name : string) : M World unit :=
  w <- get_state ;;
  if OD.mem name (cls_attrs (get_class w c))
  then modify_state (update_class c (fun k => with_attrs (OD.remove name (cls_attrs k)) k))
  else raise (AttributeError name).

Definition with_mapping (m : list (cid * list (string * cid))) (w : World) : World :=
  {| classes := classes w; registry_mapping := m; warnings := warnings w |}.

(** ** The registry *)

Module Registry.

(** [ReplaceableBase in some_class.__bases__] *)
Definition _is_base_class (w : World) (some_class : cid) : bool :=
  mem_nat REPLACEABLE_BASE (cls_bases (get_class w some_class)).

(** The slice [mro[-3::-1]]: the order without its last two entries,
    most distant ancestor first. *)
Definition slice_m3_rev (mro : list cid) : list cid :=
  rev (firstn (length mro - 2) mro).

Definition _base_class_from_class (w : World) (some_class : cid) : option cid :=
  find (fun base =>
          negb (Nat.eqb base REPLACEABLE_BASE) && issubclass w base REPLACEABLE_BASE)
       (slice_m3_rev (cls_mro (get_class w some_class))).

(** [self._mapping[base_class]]: the mapping is a [defaultdict(dict)], so
    reading a namespace that is not there creates it, empty. *)
Definition namespace (base_class : cid) : M World (list (string * cid)) :=
  w <- get_state ;;
  match OD.get base_class (registry_mapping w) with
  | Some ns => ret ns
  | None =>
      put_state (with_mapping (OD.set base_class [] (registry_mapping w)) w) ;;
      ret []
  end.

Definition _register (some_class : cid) (base_class : option cid) (name : string)
  : M World unit :=
  w <- get_state ;;
  base_class <-
    match base_class with
    | Some b => ret b
    | None =>
        match _base_class_from_class w some_class with
        | Some b => ret b
        | None => raise (ValueError (CannotRegister some_class))
        end
    end ;;
  if Nat.eqb some_class base_class
  then raise (ValueError (RegisterBaseClass some_class))
  else
    ns <- namespace base_class ;;
    modify_state (fun w =>
      with_mapping
        (OD.set base_class (OD.set name some_class ns) (registry_mapping w)) w).

Definition register (some_class : cid) : M World cid :=
  w <- get_state ;;
  let name := cls_name (get_class w some_class) in
  _register some_class None name ;;
  ret some_class.

Definition get (base_class_wanted : cid) (name : string) : M World cid :=
  w <- get_state ;;
  base_class <-
    (if _is_base_class w base_class_wanted then ret base_class_wanted
     else
       match _base_class_from_class w base_class_wanted with
       | Some b => ret b
       | None => raise (ValueError (CannotLookUp base_class_wanted))
       end) ;;
  ns <- namespace base_class ;;
  match OD.get name ns with
  | None => raise (ValueError NotRegistered)
  | Some result =>
      if negb (issubclass w result base_class_wanted)
      then raise (ValueError (DoesNotSubclass result base_class_wanted))
      else ret result
  end.

Definition get_all (base_class_wanted : cid) : M World (list cid) :=
  w <- get_state ;;
  if _is_base_class w base_class_wanted then
    ns <- namespace base_class_wanted ;;
    ret (OD.values ns)
  else
    match _base_class_from_class w base_class_wanted with
    | None => raise (ValueError (CannotLookUp base_class_wanted))
    | Some base_class =>
        ns <- namespace base_class ;;
        ret (filter (fun class_ =>
                       issubclass w class_ base_class_wanted
                       && negb (Nat.eqb class_ base_class_wanted))
                    (OD.values ns))
    end.

(** The namespace root that [get] and [get_all] derive from the class
    they are asked about, if there is one. *)
Definition namespace_root (w : World) (base_class_wanted : cid) : option cid :=
  if _is_base_class w base_class_wanted then Some base_class_wanted
  else _base_class_from_class w base_class_wanted.

(** The entries of a namespace, without creating it. *)
Definition entries (w : World) (base_class : cid) : list (string * cid) :=
  match OD.get base_class (registry_mapping w) with
  | Some ns => ns
  | None => []
  end.

End Registry.

(** A registry filled through [registry.register] holds, in each namespace,
    strict subclasses of the namespace root only. *)
Definition registry_wf (w : World) : bool :=
  forallb (fun '(b, ns) =>
             forallb (fun '(_, c) => issubclass w c b && negb (Nat.eqb c b))
                     (ns : list (string * cid)))
          (registry_mapping w).

(** ** Expansion of a class *)

(** [isinstance(C, type) and issubclass(C, (Configurable, ReplaceableBase))],
    for a class [c]. *)
Definition _is_configurable_class (w : World) (c : cid) : bool :=
  issubclass w c CONFIGURABLE || issubclass w c REPLACEABLE_BASE.

(** ["__dataclass_fields__" in some_class.__dict__] *)
Definition _is_actually_dataclass (w : World) (some_class : cid) : bool :=
  match cls_dataclass_fields (get_class w some_class) with
  | Some _ => true
  | None => false
  end.

(** [dataclasses.is_dataclass(C)] for a class: [hasattr(C, "__dataclass_fields__")]. *)
Definition is_dataclass (w : World) (c : cid) : bool :=
  match class_lookup cls_dataclass_fields w c with
  | Some _ => true
  | None => false
  end.

(** [some_class.__annotations__], read on a class that has its own. *)
Definition annotations_of (some_class : cid) : M World (list (string * Ty)) :=
  w <- get_state ;;
  match cls_annotations (get_class w some_class) with
  | Some a => ret a
  | None => raise (AttributeError "__annotations__")
  end.

Definition put_annotations (some_class : cid) (a : list (string * Ty)) : M World unit :=
  modify_state (update_class some_class (with_annotations (Some a))).

(** [del some_class.__annotations__[name]] *)
Definition del_annotation (some_class : cid) (name : string) : M World unit :=
  a <- annotations_of some_class ;;
  if OD.mem name a then put_annotations some_class (OD.remove name a)
  else raise (KeyError (KStr name)).

(** [some_class.__annotations__[name] = ty] *)
Definition set_annotation (some_class : cid) (name : string) (ty : Ty) : M World unit :=
  a <- annotations_of some_class ;;
  put_annotations some_class (OD.set name ty a).

(** [name in some_class.__annotations__] *)
Definition has_annotation (some_class : cid) (name : string) : M World bool :=
  a <- annotations_of some_class ;;
  ret (OD.mem name a).

(** [get_default_args_field(C, _do_not_process=...)]: a dataclass field
    whose default factory calls [get_default_args] when it is run. *)
Definition get_default_args_field (C : Target) (_do_not_process : list cid) : Attr :=
  AField C _do_not_process.

(** The loop over [registry.get_all(type_)] of [_process_member]. *)
Definition process_derived_type (name : string) (some_class : cid)
    (_do_not_process : list cid)
    (known_implementations : list (string * cid)) (derived_type : cid)
  : M World (list (string * cid)) :=
  if mem_nat derived_type _do_not_process then ret known_implementations else
  w <- get_state ;;
  if issubclass w derived_type some_class then ret known_implementations else
  let derived_name := cls_name (get_class w derived_type) in
  let known_implementations := OD.set derived_name derived_type known_implementations in
  let args_name := name ++ "_" ++ derived_name ++ ARGS_SUFFIX in
  present <- has_annotation some_class args_name ;;
  if (present : bool) then raise (ValueError (AlreadyPresent args_name)) else
  set_annotation some_class args_name (TyClass DICTCONFIG) ;;
  class_setattr some_class args_name
    (get_default_args_field (TClass derived_type)
                            (_do_not_process ++ [some_class])%list) ;;
  ret known_implementations.

(** [_process_member]; the two accumulators that Python mutates in place,
    [creation_functions] and [known_implementations], are returned. *)
Definition _process_member (name : string) (type_ : cid) (pluggable : bool)
    (some_class : cid) (creation_functions : list string)
    (_do_not_process : list cid) (known_implementations : list (string * cid))
  : M World (list string * list (string * cid)) :=
  del_annotation some_class name ;;
  known_implementations <-
    (if pluggable then
       let type_name := name ++ TYPE_SUFFIX in
       present <- has_annotation some_class type_name ;;
       (if (present : bool) then ret tt
        else
          set_annotation some_class type_name (TyClass STR) ;;
          class_setattr some_class type_name (AVal (VStr "UNDEFAULTED"))) ;;
       derived_types <- Registry.get_all type_ ;;
       for_fold derived_types known_implementations
         (process_derived_type name some_class _do_not_process)
     else
       let args_name := name ++ ARGS_SUFFIX in
       present <- has_annotation some_class args_name ;;
       if (present : bool) then raise (ValueError (AlreadyPresent args_name)) else
       w <- get_state ;;
       if issubclass w type_ some_class || mem_nat type_ _do_not_process
       then raise (ValueError (CannotProcessInside type_ some_class))
       else
         set_annotation some_class args_name (TyClass DICTCONFIG) ;;
         class_setattr some_class args_name
           (get_default_args_field (TClass type_)
                                   (_do_not_process ++ [some_class])%list) ;;
         ret known_implementations) ;;
  let creation_function_name := "create_" ++ name in
  w <- get_state ;;
  (if hasattr w some_class creation_function_name then ret tt
   else class_setattr some_class creation_function_name
          (ADefaultCreate name type_ pluggable)) ;;
  ret ((creation_functions ++ [creation_function_name])%list, known_implementations).

(** How lines 552-562 classify an annotated member: [Some true] is a
    pluggable member, [Some false] a fixed one, [None] is left alone. *)
Definition classify_member (w : World) (type_ : Ty) : option bool :=
  match type_ with
  | TyOther _ => None
  | TyClass t =>
      if issubclass w t REPLACEABLE_BASE
         && mem_nat REPLACEABLE_BASE (cls_bases (get_class w t))
      then Some true
      else if issubclass w t CONFIGURABLE then Some false
      else None
  end.

Fixpoint members_to_process (w : World) (annotations : list (string * Ty))
  : list (string * cid * bool) :=
  match annotations with
  | [] => []
  | (name, type_) :: rest =>
      match type_, classify_member w type_ with
      | TyClass t, Some pluggable => (name, t, pluggable) :: members_to_process w rest
      | _, _ => members_to_process w rest
      end
  end.

(** The keys of [Counter(creation_functions)] that occur more than once,
    in the order of their first occurrence. *)
Fixpoint first_occurrences (seen l : list string) : list string :=
  match l with
  | [] => []
  | x :: rest =>
      if mem_str x seen then first_occurrences seen rest
      else x :: first_occurrences (x :: seen) rest
  end.

Definition count_str (x : string) (l : list string) : nat :=
  List.length (filter (String.eqb x) l).

Definition clashes (creation_functions : list string) : list string :=
  filter (fun key => Nat.ltb 1 (count_str key creation_functions))
         (first_occurrences [] creation_functions).

(** [s.add(x)] and [s.update(t)] on a set of names. *)
Definition set_add (x : string) (s : list string) : list string :=
  if mem_str x s then s else (s ++ [x])%list.

Definition set_update (s t : list string) : list string :=
  fold_left (fun acc x => set_add x acc) t s.

(** *** What [dataclasses.dataclass(eq=False)] does to the class *)

(** [_get_field]: the default of a field is the class attribute of its name. *)
Definition field_default (w : World) (c : cid) (name : string) : FieldDefault :=
  match class_getattr w c name with
  | None => FNoDefault
  | Some (AField target dnp) => FFactory target dnp
  | Some a => FDefault a
  end.

Definition is_field_attr (a : Attr) : bool :=
  match a with AField _ _ => true | _ => false end.

(** No field without a default may follow one that has a default. *)
Fixpoint default_order_ok (seen_default : bool) (fields : Fields) : bool :=
  match fields with
  | [] => true
  | (_, (_, FNoDefault)) :: rest =>
      if seen_default then false else default_order_ok false rest
  | _ :: rest => default_order_ok true rest
  end.

Definition dataclass (c : cid) : M World unit :=
  w <- get_state ;;
  let k := get_class w c in
  (* the fields of the bases, from [cls.__mro__[-1:0:-1]] *)
  let inherited : Fields :=
    fold_left (fun fields b =>
                 match class_lookup cls_dataclass_fields w b with
                 | Some base_fields => OD.update fields base_fields
                 | None => fields
                 end)
              (rev (skipn 1 (cls_mro k))) [] in
  let cls_annotations := match cls_annotations k with Some a => a | None => [] end in
  let cls_fields : Fields :=
    map (fun '(name, type_) => (name, (type_, field_default w c name))) cls_annotations in
  fields <- for_fold cls_fields inherited (fun fields '(name, f) =>
    w <- get_state ;;
    (match class_getattr w c name with
     | Some (AField _ _) => class_delattr c name
     | _ => ret tt
     end) ;;
    ret (OD.set name f fields)) ;;
  w <- get_state ;;
  if existsb (fun '(name, a) => is_field_attr a && negb (OD.mem name cls_annotations))
             (cls_attrs (get_class w c))
  then raise (TypeError "is a field but has no type annotation")
  else
    modify_state (update_class c (with_dataclass_fields fields)) ;;
    if default_order_ok false fields
    then modify_state (update_class c (with_init (hasattr w c "__post_init__")))
    else raise (TypeError "non-default argument follows default argument").

(** *** [expand_args_fields] *)

(** The slice [mro[-3:0:-1]]. *)
Definition slice_m3_0_rev (mro : list cid) : list cid :=
  rev (skipn 1 (firstn (length mro - 2) mro)).

Definition opt_list {A} (o : option (list A)) : list A :=
  match o with Some l => l | None => [] end.

(** The body of [expand_args_fields]; [expand_base] is the call of
    [expand_args_fields] on a base class. *)
Definition expand_args_fields_body
    (expand_base : cid -> list cid -> M World cid)
    (some_class : cid) (_do_not_process : list cid) : M World cid :=
w <- get_state ;;
if _is_actually_dataclass w some_class then ret some_class else
'(creation_functions, known_implementations, processed_members) <-
  for_fold (slice_m3_0_rev (cls_mro (get_class w some_class)))
    (([] : list string), ([] : list (string * cid)), ([] : list string))
    (fun '(creation_functions, known_implementations, processed_members) base =>
       let unchanged :=
         ret (creation_functions, known_implementations, processed_members) in
       if Nat.eqb base REPLACEABLE_BASE then unchanged else
       if Nat.eqb base CONFIGURABLE then unchanged else
       w <- get_state ;;
       if negb (_is_configurable_class w base) then unchanged else
       expand_base base _do_not_process ;;
       w <- get_state ;;
       let b := get_class w base in
       ret ((creation_functions ++ opt_list (cls_creation_functions b))%list,
            OD.update known_implementations (opt_list (cls_known_implementations b)),
            set_update processed_members (opt_list (cls_processed_members b)))) ;;
w <- get_state ;;
let to_process :=
  members_to_process w (opt_list (cls_annotations (get_class w some_class))) in
'(creation_functions, known_implementations, processed_members) <-
  for_fold to_process (creation_functions, known_implementations, processed_members)
    (fun '(creation_functions, known_implementations, processed_members)
         '(name, type_, pluggable) =>
       '(creation_functions, known_implementations) <-
         _process_member name type_ pluggable some_class creation_functions
                         _do_not_process known_implementations ;;
       ret (creation_functions, known_implementations, set_add name processed_members)) ;;
for_each (clashes creation_functions) (fun key => warn (ClashWarning key)) ;;
modify_state (update_class some_class
                (with_bookkeeping creation_functions processed_members
                                  known_implementations)) ;;
dataclass some_class ;;
ret some_class.

(** [expand_args_fields]: each nested call on a base class uses one unit
    of fuel. *)
Fixpoint expand_args_fields (fuel : nat) (some_class : cid) (_do_not_process : list cid)
    {struct fuel} : M World cid :=
expand_args_fields_body
  (match fuel with
   | O => fun _ _ => out_of_fuel
   | S fuel' => expand_args_fields fuel'
   end)
  some_class _do_not_process.

(** ** Default configuration trees *)

(** [kwargs] of lines 430-435, then [DictConfig(kwargs)]: the parameters
    that have a default, each with (a copy of) its default. *)
Definition signature_defaults (params : list (string * option Value)) : DictConfig :=
  fold_left (fun kwargs '(pname, default) =>
               match default with
               | None => kwargs
               | Some v => OD.set (KStr pname) v kwargs
               end)
            params [].

(** The body of [get_default_args].  For a dataclass,
    [OmegaConf.structured(C)] holds one entry per dataclass field, in the
    order of the fields: the field's default, the result of its default
    factory, or [???].  [run_factory] is the call of [get_default_args]
    that a default factory made by [get_default_args_field] performs. *)
Definition get_default_args_body
    (run_factory : Target -> list cid -> M World DictConfig)
    (fuel : nat) (C : Target) (_do_not_process : list cid) : M World DictConfig :=
match C with
| TNone => ret []
| TFunc params => ret (signature_defaults params)
| TClass c =>
    w <- get_state ;;
    (if _is_configurable_class w c then
       if mem_nat c _do_not_process
       then raise (ValueError (InternalRecursion c))
       else expand_args_fields fuel c _do_not_process ;; ret tt
     else ret tt) ;;
    w <- get_state ;;
    if is_dataclass w c then
      out <- for_fold (opt_list (class_lookup cls_dataclass_fields w c)) []
               (fun out '(name, (_, default)) =>
                  value <-
                    match default with
                    | FNoDefault => ret VMissing
                    | FDefault (AVal (VObj _ _)) => raise (UnsupportedValueType name)
                    | FDefault (AVal VOpaque) => raise (UnsupportedValueType name)
                    | FDefault (AVal v) => ret v
                    | FDefault _ => raise (UnsupportedValueType name)
                    | FFactory target dnp =>
                        sub <- run_factory target dnp ;;
                        ret (VDict sub)
                    end ;;
                  ret (OD.set (KStr name) value out)) ;;
      w <- get_state ;;
      let exclude := opt_list (class_lookup cls_processed_members w c) in
      ret (fold_left (fun out field => OD.remove (KStr field) out) exclude out)
    else if _is_configurable_class w c then raise (ValueError (FailedToProcess c))
    else ret (signature_defaults (cls_signature (get_class w c)))
end.

(** [get_default_args]: each default factory that is run uses one unit of
    fuel. *)
Fixpoint get_default_args (fuel : nat) (C : Target) (_do_not_process : list cid)
    {struct fuel} : M World DictConfig :=
get_default_args_body
  (match fuel with
   | O => fun _ _ => out_of_fuel
   | S fuel' => get_default_args fuel'
   end)
  fuel C _do_not_process.

(** ** Construction of instances and auto-creation *)

Definition is_marker (c : cid) : bool :=
  Nat.eqb c REPLACEABLE_BASE || Nat.eqb c CONFIGURABLE.

(** The generated [__init__] that a class uses: its fields, and whether it
    calls [__post_init__]. *)
Definition init_of (k : PyClass) : option (Fields * bool) :=
  match cls_init k, cls_dataclass_fields k with
  | Some has_post_init, Some fields => Some (fields, has_post_init)
  | _, _ => None
  end.

(** [getattr(self, name)]: the instance's own [__dict__], then its class. *)
Definition instance_getattr (self : Value) (name : string) : M World Value :=
  w <- get_state ;;
  match self with
  | VObj c attrs =>
      match OD.get name attrs with
      | Some v => ret v
      | None =>
          match class_getattr w c name with
          | Some (AVal v) => ret v
          | Some _ => ret VOpaque
          | None => raise (AttributeError name)
          end
      end
  | _ => raise (AttributeError name)
  end.

(** [setattr(self, name, v)] *)
Definition instance_setattr (self : Value) (name : string) (v : Value) : Value :=
  match self with
  | VObj c attrs => VObj c (OD.set name v attrs)
  | _ => self
  end.

(** The keyword arguments of a call [f( **args )]. *)
Fixpoint keywords (d : DictConfig) : option (list (string * Value)) :=
  match d with
  | [] => Some []
  | (KStr s, v) :: rest =>
      match keywords rest with
      | Some kw => Some ((s, v) :: kw)
      | None => None
      end
  | (KInt _, _) :: _ => None
  end.

Definition kwargs_of (args : Value) : M World (list (string * Value)) :=
  match args with
  | VDict d =>
      match keywords d with
      | Some kw => ret kw
      | None => raise (TypeError "keywords must be strings")
      end
  | _ => raise (TypeError "argument after ** must be a mapping")
  end.

(** [registry.get(type_, type_name)] on the value found in the instance. *)
Definition registry_get_value (type_ : cid) (type_name : Value) : M World (cid * string) :=
  match type_name with
  | VStr s => c <- Registry.get type_ s ;; ret (c, s)
  | VList _ | VDict _ => raise (TypeError "unhashable type")
  | _ =>
      w <- get_state ;;
      match Registry.namespace_root w type_ with
      | None => raise (ValueError (CannotLookUp type_))
      | Some b => Registry.namespace b ;; raise (ValueError NotRegistered)
      end
  end.

Section AutoCreation.

(** The methods that the user wrote, other than a [__post_init__] that
    only calls [run_auto_creation]: each takes [self] and returns it as
    it has left it. *)
Variable user_method : string -> Value -> M World Value.

Fixpoint instantiate (fuel : nat) (c : cid) (kwargs : list (string * Value))
    {struct fuel} : M World Value :=
  w <- get_state ;;
  (* [__new__] of each marker class on the way to [object.__new__] *)
  for_each (filter is_marker (cls_mro (get_class w c)))
    (fun marker =>
       if negb (Nat.eqb c marker) && negb (_is_actually_dataclass w c)
       then warn (UnprocessedWarning (cls_name (get_class w c)))
       else ret tt) ;;
  match class_lookup init_of w c with
  | None =>
      match kwargs with
      | [] => ret (VObj c [])
      | _ :: _ => raise (TypeError "takes no arguments")
      end
  | Some (fields, has_post_init) =>
      if existsb (fun '(k, _) => negb (OD.mem k fields)) kwargs
      then raise (TypeError "got an unexpected keyword argument")
      else if existsb (fun '(name, (_, default)) =>
                         match default with
                         | FNoDefault => negb (OD.mem name kwargs)
                         | _ => false
                         end) fields
      then raise (TypeError "missing required argument")
      else
        attrs <- for_fold fields []
          (fun attrs '(name, (_, default)) =>
             value <-
               match OD.get name kwargs with
               | Some v => ret v
               | None =>
                   match default with
                   | FDefault (AVal v) => ret v
                   | FDefault _ => ret VOpaque
                   | FFactory target dnp =>
                       sub <- get_default_args fuel target dnp ;;
                       ret (VDict sub)
                   | FNoDefault => raise (TypeError "missing required argument")
                   end
               end ;;
             ret (OD.set name value attrs)) ;;
        let self := VObj c attrs in
        if (has_post_init : bool) then
          match fuel with
          | O => out_of_fuel
          | S fuel' => call_method fuel' self "__post_init__"
          end
        else ret self
  end

(** [getattr(self, name)()] for a method that works on [self]. *)
with call_method (fuel : nat) (self : Value) (name : string) {struct fuel}
  : M World Value :=
  match self with
  | VObj c attrs =>
      match OD.get name attrs with
      | Some _ => raise (TypeError "object is not callable")
      | None =>
          w <- get_state ;;
          match class_getattr w c name with
          | None => raise (AttributeError name)
          | Some (ADefaultCreate member type_ false) =>
              (* [inner] of [_default_create] *)
              expand_args_fields fuel type_ [] ;;
              args <- instance_getattr self (member ++ ARGS_SUFFIX) ;;
              kwargs <- kwargs_of args ;;
              obj <- match fuel with
                     | O => out_of_fuel
                     | S fuel' => instantiate fuel' type_ kwargs
                     end ;;
              ret (instance_setattr self member obj)
          | Some (ADefaultCreate member type_ true) =>
              (* [inner_pluggable] of [_default_create] *)
              type_name <- instance_getattr self (member ++ TYPE_SUFFIX) ;;
              '(chosen_class, type_name) <- registry_get_value type_ type_name ;;
              w <- get_state ;;
              match class_lookup cls_known_implementations w c with
              | None => raise (AttributeError "_known_implementations")
              | Some known =>
                  (match OD.get type_name known with
                   | Some k =>
                       if Nat.eqb k chosen_class then ret tt
                       else warn (NewImplementationWarning type_name)
                   | None => ret tt
                   end) ;;
                  expand_args_fields fuel chosen_class [] ;;
                  args <- instance_getattr self
                            (member ++ "_" ++ type_name ++ ARGS_SUFFIX) ;;
                  kwargs <- kwargs_of args ;;
                  obj <- match fuel with
                         | O => out_of_fuel
                         | S fuel' => instantiate fuel' chosen_class kwargs
                         end ;;
                  ret (instance_setattr self member obj)
              end
          | Some ARunAutoCreation =>
              match fuel with
              | O => out_of_fuel
              | S fuel' => run_auto_creation fuel' self
              end
          | Some (AUser tag) => user_method tag self
          | Some _ => raise (TypeError "object is not callable")
          end
      end
  | _ => raise (AttributeError name)
  end

with run_auto_creation (fuel : nat) (self : Value) {struct fuel} : M World Value :=
  match self with
  | VObj c attrs =>
      w <- get_state ;;
      match class_lookup cls_creation_functions w c with
      | None => raise (AttributeError "_creation_functions")
      | Some creation_functions =>
          for_fold creation_functions self
            (fun self create_function =>
               match fuel with
               | O => out_of_fuel
               | S fuel' => call_method fuel' self create_function
               end)
      end
  | _ => raise (AttributeError "_creation_functions")
  end.

(** [C( **tree )] *)
Definition construct (fuel : nat) (c : cid) (tree : DictConfig) : M World Value :=
  kwargs <- kwargs_of (VDict tree) ;;
  instantiate fuel c kwargs.

End AutoCreation.

(** ** Class statements *)

(** The C3 merge that gives a new class its method resolution order. *)
Definition c3_candidate (seqs : list (list cid)) : option cid :=
  find (fun cand => negb (existsb (fun s => mem_nat cand (tl s)) seqs))
       (map (hd 0) seqs).

Fixpoint c3_merge (fuel : nat) (seqs : list (list cid)) : option (list cid) :=
  let nonempty := filter (fun s => negb (Nat.eqb (List.length s) 0)) seqs in
  match nonempty with
  | [] => Some []
  | _ :: _ =>
      match fuel with
      | O => None
      | S fuel' =>
          match c3_candidate nonempty with
          | None => None
          | Some cand =>
              match c3_merge fuel'
                      (map (fun s => if Nat.eqb (hd 0 s) cand then tl s else s) nonempty)
              with
              | Some rest => Some (cand :: rest)
              | None => None
              end
          end
      end
  end.

(** [class name(bases): annotations; attrs]: the new class object is added
    to the store and its identifier returned. *)
Definition class_statement (name : string) (bases : list cid)
    (annotations : list (string * Ty)) (attrs : list (string * Attr)) : M World cid :=
  w <- get_state ;;
  let c := List.length (classes w) in
  let bases := match bases with [] => [OBJECT] | _ => bases end in
  let seqs := (map (fun b => cls_mro (get_class w b)) bases ++ [bases])%list in
  match c3_merge (List.length (concat seqs)) seqs with
  | None => raise (TypeError "Cannot create a consistent method resolution order")
  | Some rest =>
      let k := {| cls_name := name; cls_bases := bases; cls_mro := c :: rest;
                  cls_signature := [];
                  cls_annotations := match annotations with [] => None | _ => Some annotations end;
                  cls_attrs := attrs; cls_dataclass_fields := None; cls_init := None;
                  cls_creation_functions := None; cls_processed_members := None;
                  cls_known_implementations := None |} in
      put_state {| classes := (classes w ++ [k])%list;
                   registry_mapping := registry_mapping w;
                   warnings := warnings w |} ;;
      ret c
  end.

Definition builtin_class (name : string) (c : cid) (bases : list cid) : PyClass :=
  {| cls_name := name; cls_bases := bases; cls_mro := c :: bases;
     cls_signature := []; cls_annotations := None; cls_attrs := [];
     cls_dataclass_fields := None; cls_init := None;
     cls_creation_functions := None; cls_processed_members := None;
     cls_known_implementations := None |}.

(** The state after [config.py] has been imported: [object], the two marker
    classes, the classes used in generated annotations, and an empty registry. *)
Definition initial_world : World :=
  {| classes := [ builtin_class "object" OBJECT [];
                  builtin_class "ReplaceableBase" REPLACEABLE_BASE [OBJECT];
                  builtin_class "Configurable" CONFIGURABLE [OBJECT];
                  builtin_class "DictConfig" DICTCONFIG [OBJECT];
                  builtin_class "str" STR [OBJECT];
                  builtin_class "int" INT [OBJECT] ];
     registry_mapping := [];
     warnings := [] |}.

(** ** Scenario A: a pluggable member with two registered implementations *)

Module ScenarioA.

Definition A : cid := 6.
Definition A1 : cid := 7.
Definition A2 : cid := 8.
Definition B : cid := 9.

(** [[
    class A(ReplaceableBase): pass

    @registry.register
    class A1(A):
        m: int = 3

    @registry.register
    class A2(A):
        n: str = "2"

    class B(Configurable):
        a: A
        a_class_type: str = "A2"
        def __post_init__(self):
            run_auto_creation(self)
    ]] *)
Definition declarations : M World unit :=
  class_statement "A" [REPLACEABLE_BASE] [] [] ;;
  a1 <- class_statement "A1" [A] [("m", TyClass INT)] [("m", AVal (VInt 3))] ;;
  Registry.register a1 ;;
  a2 <- class_statement "A2" [A] [("n", TyClass STR)] [("n", AVal (VStr "2"))] ;;
  Registry.register a2 ;;
  class_statement "B" [CONFIGURABLE]
    [("a", TyClass A); ("a_class_type", TyClass STR)]
    [("a_class_type", AVal (VStr "A2")); ("__post_init__", ARunAutoCreation)] ;;
  ret tt.

Definition world : World := snd (declarations initial_world).

Definition default_tree : DictConfig :=
  [ (KStr "a_class_type", VStr "A2");
    (KStr "a_A1_args", VDict [(KStr "m", VInt 3)]);
    (KStr "a_A2_args", VDict [(KStr "n", VStr "2")]) ].

Definition pruned_tree : DictConfig :=
  [ (KStr "a_class_type", VStr "A2");
    (KStr "a_A2_args", VDict [(KStr "n", VStr "2")]) ].

(** No user-written method is involved. *)
Definition no_user_method (tag : string) (self : Value) : M World Value :=
  raise (AttributeError tag).

End ScenarioA.

(** ** Scenario A, with [A2] defined anew after [B] has been expanded *)

Module ScenarioStale.

Definition NewA2 : cid := 10.

(** After the declarations of Scenario A:
    [[
    get_default_args(B)

    @registry.register
    class A2(A):
        n: str = "new"
    ]] *)
Definition redefinition (fuel : nat) : M World DictConfig :=
tree <- get_default_args fuel (TClass ScenarioA.B) [] ;;
a2 <- class_statement "A2" [ScenarioA.A] [("n", TyClass STR)] [("n", AVal (VStr "new"))] ;;
Registry.register a2 ;;
ret tree.

Definition world (fuel : nat) : World := snd (redefinition fuel ScenarioA.world).

End ScenarioStale.

(** ** A member whose declared type is an indirect subclass of [ReplaceableBase] *)

Module ScenarioIndirect.

Definition Holder : cid := 10.

(** After the declarations of Scenario A:
    [[
    class Holder(Configurable):
        x: A1
    ]] *)
Definition declarations : M World unit :=
ScenarioA.declarations ;;
class_statement "Holder" [CONFIGURABLE] [("x", TyClass ScenarioA.A1)] [] ;;
ret tt.

Definition world : World := snd (declarations initial_world).

End ScenarioIndirect.

(** ** Classes with a member of their own type *)

(** The class [c] annotates a fixed member of type [t]. *)
Definition declares (w : World) (c t : cid) : Prop :=
  exists name,
    In (name, TyClass t) (opt_list (cls_annotations (get_class w c)))
    /\ classify_member w (TyClass t) = Some false.

(** [d] is the type of a member of [c], or of a member of a member, ... *)
Inductive nests (w : World) : cid -> cid -> Prop :=
| nests_member (c t : cid) : declares w c t -> nests w c t
| nests_through (c t d : cid) : declares w c t -> nests w t d -> nests w c d.

Module ScenarioSelf.

Definition Node : cid := 6.

(** [[
    class Node(Configurable): pass
    Node.__annotations__ = {"child": Node}
    ]] *)
Definition declarations : M World unit :=
class_statement "Node" [CONFIGURABLE] [] [] ;;
put_annotations Node [("child", TyClass Node)].

Definition world : World := snd (declarations initial_world).

End ScenarioSelf.

Module ScenarioCycle.

Definition P : cid := 6.
Definition Q : cid := 7.

(** [[
    class P(Configurable): pass

    class Q(Configurable):
        p: P

    P.__annotations__ = {"q": Q}
    ]] *)
Definition declarations : M World unit :=
class_statement "P" [CONFIGURABLE] [] [] ;;
class_statement "Q" [CONFIGURABLE] [("p", TyClass P)] [] ;;
put_annotations P [("q", TyClass Q)].

Definition world : World := snd (declarations initial_world).

End ScenarioCycle.

(** ** The first example of the module documentation *)

Module ScenarioDoc.

Definition A : cid := 6.
Definition B : cid := 7.

(** [[
    class A(Configurable):
        n: int = 9

    class B(Configurable):
        a: A

        def __post_init__(self):
            run_auto_creation(self)
    ]] *)
Definition declarations : M World unit :=
class_statement "A" [CONFIGURABLE] [("n", TyClass INT)] [("n", AVal (VInt 9))] ;;
class_statement "B" [CONFIGURABLE] [("a", TyClass A)]
  [("__post_init__", ARunAutoCreation)] ;;
ret tt.

Definition world : World := snd (declarations initial_world).

End ScenarioDoc.

(** ** A registered class with a registered subclass *)

Module ScenarioNested.

Definition A : cid := 6.
Definition B : cid := 7.
Definition C : cid := 8.

(** [[
    class A(ReplaceableBase): pass

    @registry.register
    class B(A): pass

    @registry.register
    class C(B): pass
    ]] *)
Definition declarations : M World unit :=
  class_statement "A" [REPLACEABLE_BASE] [] [] ;;
  b <- class_statement "B" [A] [] [] ;;
  Registry.register b ;;
  c <- class_statement "C" [B] [] [] ;;
  Registry.register c ;;
  ret tt.

Definition world : World := snd (declarations initial_world).

End ScenarioNested.

(** ** Two namespaces *)

Module ScenarioTwoRoots.

Definition Fruit : cid := 6.
Definition Animal : cid := 7.
Definition Banana : cid := 8.
Definition AnimalBanana : cid := 9.
Definition NewBanana : cid := 10.

(** [[
    class Fruit(ReplaceableBase): pass
    class Animal(ReplaceableBase): pass
    class Banana(Fruit): pass
    class Banana(Animal): pass     # another class of the same name
    class Banana(Fruit): pass      # and a later definition of the first
    ]] *)
Definition declarations : M World unit :=
  class_statement "Fruit" [REPLACEABLE_BASE] [] [] ;;
  class_statement "Animal" [REPLACEABLE_BASE] [] [] ;;
  class_statement "Banana" [Fruit] [] [] ;;
  class_statement "Banana" [Animal] [] [] ;;
  class_statement "Banana" [Fruit] [] [] ;;
  ret tt.

Definition world : World := snd (declarations initial_world).

End ScenarioTwoRoots.

(** * The colouring network: the sizes of its layers

    [RayNormalColoringNetwork.__init__] of
    [pytorch3d/implicitron/models/renderer/rgb_net.py], as far as it
    computes with integers: the list [dims] and the sizes of the linear
    layers built from it. *)

Module RgbNet.

(** [nn.Linear(in_features, out_features)]; [weight_norm] wraps the layer
    and keeps its sizes. *)
Record Linear := {
  in_features : Z;
  out_features : Z;
  weight_normed : bool
}.

Section Init.

(** [HarmonicEmbedding(n, append_input=True).get_output_dim()], a method of
    a class that is not among these sources. *)
Variable get_output_dim : Z -> Z.

(** [dims[0] += delta] *)
Definition add_to_first (delta : Z) (dims : list Z) : list Z :=
  list_update 0 (fun d => (d + delta)%Z) dims.

(** The list [dims] when [self.num_layers = len(dims)] is set. *)
Definition init_dims (feature_vector_size d_in d_out : Z) (dims : list Z)
    (n_harmonic_functions_dir pooled_feature_dim : Z) : list Z :=
  let dims := ([(d_in + feature_vector_size)%Z] ++ dims ++ [d_out])%list in
  let dims :=
    if (0 <? n_harmonic_functions_dir)%Z
    then add_to_first (get_output_dim n_harmonic_functions_dir - 3)%Z dims
    else dims in
  if (0 <? pooled_feature_dim)%Z then add_to_first pooled_feature_dim dims else dims.

(** The loop [for layer_idx in range(self.num_layers - 1)]. *)
Definition init_linear_layers (weight_norm : bool) (dims : list Z) : list Linear :=
  map (fun layer_idx =>
         {| in_features := nth layer_idx dims 0%Z;
            out_features := nth (layer_idx + 1) dims 0%Z;
            weight_normed := weight_norm |})
      (seq 0 (List.length dims - 1)).

End Init.

End RgbNet.

(** * The tests that read the sources without running them

    [tests/test_build.py]: what the tests decide from the file names and
    the file contents that the [glob]s hand them. *)

Module TestBuild.

Inductive TestResult :=
| Passed
| Skipped (reason : string)
| NotEqual (key : string) (count : nat)      (* [assertEqual(v, 1, ...)] failed for [key] *)
| Fail (paths : list string).                (* [self.fail("\n".join(paths))] *)

(** [test_name_clash], on the stems of the [.cu] files and of the [.cpp]
    files under [pytorch3d], each list in the order of its [glob]. *)
Definition test_name_clash (in_conda_build : bool) (cu_stems cpp_stems : list string)
  : TestResult :=
  if in_conda_build then Skipped "In conda build" else
  let stems := (cu_stems ++ cpp_stems)%list in
  match find (fun k => negb (Nat.eqb (count_str k stems) 1))
             (first_occurrences [] stems) with
  | Some k => NotEqual k (count_str k stems)
  | None => Passed
  end.

Definition newline : string := String (ascii_of_nat 10) EmptyString.

Definition expect : string :=
  "Copyright (c) Facebook, Inc. and its affiliates." ++ " All rights reserved." ++ newline.

(** The line that is compared with [expect]: the first line of the file, or
    the second when the first starts with ["# -*-"] or ["#!"]; [readline]
    gives the empty string at the end of the file. *)
Definition header_line (lines : list string) : string :=
  let firstline := hd "" lines in
  if PyStr.startswith firstline "# -*-" || PyStr.startswith firstline "#!"
  then hd "" (tl lines)
  else firstline.

Definition exempt (path : string) : bool :=
  PyStr.endswith path
    "pytorch3d/transforms/external/kornia_angle_axis_to_rotation_matrix.py"
  || PyStr.endswith path "pytorch3d/csrc/pulsar/include/fastermath.h".

(** [test_copyright], on the paths found for the extensions in turn, each
    with the lines of its file. *)
Definition test_copyright (in_conda_build : bool) (files : list (string * list string))
  : TestResult :=
  if in_conda_build then Skipped "In conda build" else
  let files_missing_copyright_header :=
    flat_map (fun '(path, lines) =>
                if exempt path then []
                else if negb (PyStr.endswith (header_line lines) expect) then [path]
                else [])
             files in
  if negb (Nat.eqb (List.length files_missing_copyright_header) 0)
  then Fail files_missing_copyright_header
  else Passed.

End TestBuild.

(** * Vocabulary of the statements *)

(** ** The registry after a read and after a registration *)

(** The state after a namespace has been read: it exists. *)
Definition touched (b : cid) (w : World) : World :=
  match OD.get b (registry_mapping w) with
  | Some _ => w
  | None => with_mapping (OD.set b [] (registry_mapping w)) w
  end.

(** The state after [_register] has stored its entry. *)
Definition registered (x b : cid) (name : string) (w : World) : World :=
  with_mapping (OD.set b (OD.set name x (Registry.entries w b)) (registry_mapping (touched b w)))
               (touched b w).

(** The registry holds in [w] what it holds in [w0]. *)
Definition same_entries (w0 w : World) : Prop :=
  forall b, Registry.entries w b = Registry.entries w0 b.

(** The parameters that have a default, each with its default, in the
    order of the signature. *)
Definition defaulted (params : list (string * option Value)) : DictConfig :=
flat_map (fun '(pname, default) =>
            match default with
            | Some v => [(KStr pname, v)]
            | None => []
            end) params.

(** The dataclass fields of a class whose annotations are [anns] and whose
    attributes are [attrs], none of them inherited: each annotated name
    with the class attribute of that name as its default. *)
Definition own_fields (anns : list (string * Ty)) (attrs : list (string * Attr)) : Fields :=
map (fun '(name, type_) =>
       (name, (type_, match OD.get name attrs with
                      | Some a => FDefault a
                      | None => FNoDefault
                      end))) anns.

(** The values that a [DictConfig] takes as they are. *)
Definition plain (v : Value) : bool :=
match v with
| VObj _ _ | VOpaque => false
| _ => true
end.

(** The tree of the defaults of such a class: [???] where there is none. *)
Definition own_defaults (anns : list (string * Ty)) (attrs : list (string * Attr))
  : DictConfig :=
map (fun '(name, _) =>
       (KStr name, match OD.get name attrs with
                   | Some (AVal v) => v
                   | _ => VMissing
                   end)) anns.

(** The attributes of an instance of such a class that is made from these
    defaults. *)
Definition default_attributes (anns : list (string * Ty))
    (attrs : list (string * Attr)) : list (string * Value) :=
map (fun '(name, _) =>
       (name, match OD.get name attrs with
              | Some (AVal v) => v
              | _ => VMissing
              end)) anns.

(** The state after the expansion of such a class [c]: no creation
    function, no processed member, the fields, and the generated
    [__init__]. *)
Definition sealed_leaf (c : cid) (anns : list (string * Ty))
    (attrs : list (string * Attr)) (w : World) : World :=
update_class c (with_init (hasattr w c "__post_init__"))
  (update_class c (with_dataclass_fields (own_fields anns attrs))
     (update_class c (with_bookkeeping [] [] []) w)).

(** ** Specifications of computations *)

(** From a state in [P], the computation ends in [Q] when it returns and in
    [E] when it raises an exception or runs out of fuel ([None]). *)
Definition triple {S A} (P : S -> Prop) (m : M S A) (Q : A -> S -> Prop)
    (E : option exn -> S -> Prop) : Prop :=
  forall s, P s ->
    match m s with
    | (Ret a, s') => Q a s'
    | (Raise e, s') => E (Some e) s'
    | (OutOfFuel, s') => E None s'
    end.

(** The computation keeps the state in [I], whatever its outcome. *)
Definition keeps {S A} (I : S -> Prop) (m : M S A) : Prop :=
  forall s, I s -> I (snd (m s)).

(** No condition on the state. *)
Definition anywhere (_ : World) : Prop := True.

(** The outcome is not the [ValueError] [Failed to process ...]. *)
Definition not_failed_to_process (e : option exn) (_ : World) : Prop :=
  forall x, e <> Some (ValueError (FailedToProcess x)).

(** ** What expansion leaves alone *)

(** The state [w] differs from [w0] at most in classes that were not
    sealed in [w0], and no class has changed its name, its bases or its
    method resolution order. *)
Record frame (w0 w : World) : Prop := {
  frame_length : List.length (classes w) = List.length (classes w0);
  frame_name : forall c, cls_name (get_class w c) = cls_name (get_class w0 c);
  frame_bases : forall c, cls_bases (get_class w c) = cls_bases (get_class w0 c);
  frame_mro : forall c, cls_mro (get_class w c) = cls_mro (get_class w0 c);
  frame_sealed : forall c, _is_actually_dataclass w0 c = true ->
                           get_class w c = get_class w0 c
}.

(** A change of a class object that keeps its identity. *)
Definition static (f : PyClass -> PyClass) : Prop :=
  forall k, cls_name (f k) = cls_name k /\ cls_bases (f k) = cls_bases k
            /\ cls_mro (f k) = cls_mro k.

(** Two states whose classes have the same names, bases and method
    resolution orders. *)
Definition same_static (w w' : World) : Prop :=
forall x, cls_name (get_class w' x) = cls_name (get_class w x)
          /\ cls_bases (get_class w' x) = cls_bases (get_class w x)
          /\ cls_mro (get_class w' x) = cls_mro (get_class w x).

(** ** What the pruner deletes *)

(** The keys that the inner loop deletes. *)
Definition deleted_in (keys : list string) (p : string -> bool) (k : Key) : bool :=
match k with
| KStr s => mem_str s keys && p s
| KInt _ => false
end.

(** The field that survives for the member [r], if its selector holds a
    string. *)
Definition expect_of (d : DictConfig) (r : string) : option string :=
match OD.get (KStr (r ++ TYPE_SUFFIX)) d with
| Some (VStr v) => Some (r ++ "_" ++ v ++ ARGS_SUFFIX)
| _ => None
end.

(** The keys that the outer loop deletes. *)
Definition deleted_by (d : DictConfig) (rs keys : list string) (k : Key) : bool :=
existsb (fun r =>
           match expect_of d r with
           | Some e => deleted_in keys (Pruner.unexpected r e) k
           | None => false
           end) rs.

(** What the loop over the nested trees does to one entry. *)
Definition child_rel (rec_ : Value -> outcome unit * Value)
    (kv kv' : Key * Value) : Prop :=
fst kv' = fst kv /\
(((forall sub, snd kv <> VDict sub) /\ snd kv' = snd kv)
 \/ (exists sub, snd kv = VDict sub /\ rec_ (VDict sub) = (Ret tt, snd kv'))).

(** ** The class after the processing of a member *)

(** The state in which the class object [c] is [k]. *)
Definition put_class (c : cid) (k : PyClass) (w : World) : World :=
update_class c (fun _ => k) w.

(** The attributes of [c] after [_process_member] has seen to the creation
    function of the member: it is set unless the class has one already. *)
Definition with_creation_function (w : World) (c : cid) (name : string) (type_ : cid)
    (pluggable : bool) (k : PyClass) : PyClass :=
if hasattr (put_class c k w) c ("create_" ++ name) then k
else with_attrs (OD.set ("create_" ++ name) (ADefaultCreate name type_ pluggable)
                        (cls_attrs k)) k.

(** The class after [_process_member] on a fixed member. *)
Definition fixed_member_class (w : World) (c : cid) (name : string) (type_ : cid)
    (dnp : list cid) (anns : list (string * Ty)) : PyClass :=
let k := get_class w c in
let args_name := name ++ ARGS_SUFFIX in
let k1 := with_annotations
            (Some (OD.set args_name (TyClass DICTCONFIG) (OD.remove name anns))) k in
let k2 := with_attrs (OD.set args_name (AField (TClass type_) (dnp ++ [c])%list)
                             (cls_attrs k1)) k1 in
with_creation_function w c name type_ false k2.

(** The implementations for which [_process_member] generates a field. *)
Definition kept_implementations (w : World) (c : cid) (dnp : list cid)
    (derived : list cid) : list cid :=
filter (fun d => negb (mem_nat d dnp) && negb (issubclass w d c)) derived.

(** [<name>_<ImplName>_args] *)
Definition impl_args_name (w : World) (name : string) (d : cid) : string :=
name ++ "_" ++ cls_name (get_class w d) ++ ARGS_SUFFIX.

(** The class and the known implementations after [_process_member] on a
    pluggable member whose declared type is a namespace root. *)
Definition pluggable_member_class (w : World) (c : cid) (name : string) (type_ : cid)
    (dnp : list cid) (anns : list (string * Ty)) : PyClass :=
let k := get_class w c in
let type_name := name ++ TYPE_SUFFIX in
let anns0 := OD.remove name anns in
let declared := OD.mem type_name anns0 in
let anns1 := if declared then anns0 else (anns0 ++ [(type_name, TyClass STR)])%list in
let attrs1 := if declared then cls_attrs k
              else OD.set type_name (AVal (VStr "UNDEFAULTED")) (cls_attrs k) in
let impls := kept_implementations w c dnp (OD.values (Registry.entries w type_)) in
let k2 :=
  with_attrs
    (fold_left (fun at_ d => OD.set (impl_args_name w name d)
                                    (AField (TClass d) (dnp ++ [c])%list) at_)
               impls attrs1)
    (with_annotations
       (Some (anns1 ++ map (fun d => (impl_args_name w name d, TyClass DICTCONFIG))
                           impls)%list) k) in
with_creation_function (touched type_ w) c name type_ true k2.

(** ** The annotations during the processing of the members *)

(** The outcome is a [ValueError]. *)
Definition value_error (e : option exn) (_ : World) : Prop :=
match e with Some (ValueError _) => True | _ => False end.

Definition member_name (x : string * cid * bool) : string := fst (fst x).

(** Since [w0], no method resolution order has changed, and the class [c]
    annotates every name of [l]. *)
Definition annotated (w0 : World) (c : cid) (l : list string) (s : World) : Prop :=
c < List.length (classes s)
/\ (forall x, cls_mro (get_class s x) = cls_mro (get_class w0 x))
/\ exists a, cls_annotations (get_class s c) = Some a
             /\ forall n, In n l -> OD.mem n a = true.

(** The loop of [expand_args_fields] over the members to process. *)
Definition process_members (c : cid) (dnp : list cid)
    (to_process : list (string * cid * bool))
    (acc : list string * list (string * cid) * list string)
  : M World (list string * list (string * cid) * list string) :=
for_fold to_process acc
  (fun '(creation_functions, known_implementations, processed_members)
       '(name, type_, pluggable) =>
     '(creation_functions, known_implementations) <-
       _process_member name type_ pluggable c creation_functions
                       dnp known_implementations ;;
     ret (creation_functions, known_implementations, set_add name processed_members)).

(** * Properties *)

(** ** Equality tests and dictionaries *)

#[global] Instance EqKeyLaws_string : EqKeyLaws string.
Proof. constructor. exact String.eqb_eq. Qed.

#[global] Instance EqKeyLaws_nat : EqKeyLaws nat.
Proof. constructor. exact Nat.eqb_eq. Qed.

#[global] Instance EqKeyLaws_Key : EqKeyLaws Key.
Proof.
  constructor. intros [s|x] [t|y]; simpl; split; intros E;
    try discriminate; try (inversion E; subst).
  - apply String.eqb_eq in E. now subst.
  - apply String.eqb_refl.
  - apply Z.eqb_eq in E. now subst.
  - apply Z.eqb_refl.
Qed.

Section DictFacts.
Context {K V : Type} `{EqKeyLaws K}.

Lemma keqb_refl (k : K) : keqb k k = true.
Proof. now apply keqb_eq. Qed.

Lemma keqb_neq (k k' : K) : k <> k' -> keqb k k' = false.
Proof.
  intros N. destruct (keqb k k') eqn:E; [|reflexivity].
  apply keqb_eq in E. contradiction.
Qed.

Lemma keqb_false (k k' : K) : keqb k k' = false -> k <> k'.
Proof. intros E ->. rewrite keqb_refl in E. discriminate. Qed.

Lemma key_dec (k k' : K) : {k = k'} + {k <> k'}.
Proof.
  destruct (keqb k k') eqn:E.
  - left. now apply keqb_eq.
  - right. now apply keqb_false.
Qed.

Lemma get_set_eq (k : K) (v : V) d : OD.get k (OD.set k v d) = Some v.
Proof.
  induction d as [|[k' v'] d IH]; simpl.
  - now rewrite keqb_refl.
  - destruct (keqb k k') eqn:E; simpl.
    + now rewrite keqb_refl.
    + now rewrite E.
Qed.

Lemma get_set_neq (k k' : K) (v : V) d :
  k <> k' -> OD.get k' (OD.set k v d) = OD.get k' d.
Proof.
  intros N. induction d as [|[k0 v0] d IH]; simpl.
  - rewrite keqb_neq; [reflexivity | congruence].
  - destruct (keqb k k0) eqn:E; simpl.
    + apply keqb_eq in E. subst k0.
      destruct (keqb k' k) eqn:E'; [|reflexivity].
      apply keqb_eq in E'. congruence.
    + destruct (keqb k' k0); [reflexivity | exact IH].
Qed.

Lemma get_remove_eq (k : K) (d : list (K * V)) : OD.get k (OD.remove k d) = None.
Proof.
  induction d as [|[k' v'] d IH]; simpl; [reflexivity|].
  destruct (keqb k k') eqn:E; simpl; [exact IH|]. now rewrite E.
Qed.

Lemma get_remove_neq (k k' : K) (d : list (K * V)) :
  k <> k' -> OD.get k' (OD.remove k d) = OD.get k' d.
Proof.
  intros N. induction d as [|[k0 v0] d IH]; simpl; [reflexivity|].
  destruct (keqb k k0) eqn:E; simpl.
  - apply keqb_eq in E. subst k0. rewrite keqb_neq; [exact IH | congruence].
  - destruct (keqb k' k0); [reflexivity | exact IH].
Qed.

Lemma mem_In_keys (k : K) (d : list (K * V)) :
  OD.mem k d = true <-> In k (OD.keys d).
Proof.
  unfold OD.mem. induction d as [|[k' v'] d IH]; simpl.
  - split; [discriminate | tauto].
  - destruct (keqb k k') eqn:E.
    + apply keqb_eq in E. subst. split; auto.
    + rewrite IH. split; [auto|]. intros [E'|I]; [|exact I].
      subst. rewrite keqb_refl in E. discriminate.
Qed.

Lemma get_In (k : K) (v : V) (d : list (K * V)) :
  OD.get k d = Some v -> In (k, v) d.
Proof.
  induction d as [|[k' v'] d IH]; simpl; [discriminate|].
  destruct (keqb k k') eqn:E.
  - intros [= ->]. apply keqb_eq in E. subst. now left.
  - intros G. right. now apply IH.
Qed.

Lemma get_In_values (k : K) (v : V) (d : list (K * V)) :
  OD.get k d = Some v -> In v (OD.values d).
Proof.
  intros G. apply get_In in G. unfold OD.values.
  change v with (snd (k, v)). now apply in_map.
Qed.

Lemma mem_remove (k k' : K) (d : list (K * V)) :
  OD.mem k' (OD.remove k d) = negb (keqb k k') && OD.mem k' d.
Proof.
  unfold OD.mem. destruct (keqb k k') eqn:E; simpl.
  - apply keqb_eq in E. subst. now rewrite get_remove_eq.
  - rewrite get_remove_neq; [reflexivity|]. now apply keqb_false.
Qed.

Lemma keys_remove (k : K) (d : list (K * V)) :
  OD.keys (OD.remove k d) = filter (fun k' => negb (keqb k k')) (OD.keys d).
Proof.
  unfold OD.keys, OD.remove. induction d as [|[k' v'] d IH]; simpl; [reflexivity|].
  destruct (keqb k k'); simpl; now rewrite IH.
Qed.

End DictFacts.

Lemma mem_nat_In (x : nat) (l : list nat) : mem_nat x l = true <-> In x l.
Proof.
  unfold mem_nat. rewrite existsb_exists. split.
  - intros (y & I & E). apply Nat.eqb_eq in E. now subst.
  - intros I. exists x. split; [exact I | apply Nat.eqb_refl].
Qed.

(** ** The monad *)

Lemma bind_ret_eq {S A B} (m : M S A) (k : A -> M S B) s a s' :
  m s = (Ret a, s') -> bind m k s = k a s'.
Proof. intros E. unfold bind. now rewrite E. Qed.

Lemma bind_raise_eq {S A B} (m : M S A) (k : A -> M S B) s e s' :
  m s = (Raise e, s') -> bind m k s = (Raise e, s').
Proof. intros E. unfold bind. now rewrite E. Qed.

(** Symbolic execution of monadic code, one step at a time. *)

Lemma bind_get_state {S B} (k : S -> M S B) s : bind get_state k s = k s s.
Proof. reflexivity. Qed.

Lemma bind_ret {S A B} (a : A) (k : A -> M S B) s : bind (ret a) k s = k a s.
Proof. reflexivity. Qed.

Lemma bind_raise {S A B} (e : exn) (k : A -> M S B) s :
  bind (raise e) k s = (Raise e, s).
Proof. reflexivity. Qed.

Lemma bind_out_of_fuel {S A B} (k : A -> M S B) s :
  bind out_of_fuel k s = (OutOfFuel, s).
Proof. reflexivity. Qed.

Lemma bind_put_state {S B} (s' : S) (k : unit -> M S B) s :
  bind (put_state s') k s = k tt s'.
Proof. reflexivity. Qed.

Lemma bind_modify_state {S B} (f : S -> S) (k : unit -> M S B) s :
  bind (modify_state f) k s = k tt (f s).
Proof. reflexivity. Qed.

Lemma bind_assoc {S A B C} (m : M S A) (k1 : A -> M S B) (k2 : B -> M S C) s :
  bind (bind m k1) k2 s = bind m (fun a => bind (k1 a) k2) s.
Proof. unfold bind. destruct (m s) as [[a|e|] s1]; reflexivity. Qed.

Lemma ret_apply {S A} (a : A) (s : S) : ret a s = (Ret a, s).
Proof. reflexivity. Qed.

Lemma raise_apply {S A} (e : exn) (s : S) : @raise S A e s = (Raise e, s).
Proof. reflexivity. Qed.

Lemma modify_state_apply {S} (f : S -> S) (s : S) : modify_state f s = (Ret tt, f s).
Proof. reflexivity. Qed.

Lemma put_state_apply {S} (s' s : S) : put_state s' s = (Ret tt, s').
Proof. reflexivity. Qed.

Create Rewrite HintDb py.

#[global] Hint Rewrite @bind_assoc @bind_get_state @bind_ret @bind_raise
  @bind_out_of_fuel @bind_put_state @bind_modify_state @ret_apply @raise_apply
  @modify_state_apply @put_state_apply : py.

Ltac step := autorewrite with py; cbn beta iota.

(** ** The registry *)

Module RegistryFacts.
Import Registry.

Lemma namespace_eq (b : cid) (w : World) :
  namespace b w = (Ret (entries w b), touched b w).
Proof.
  unfold namespace, entries, touched. step.
  destruct (OD.get b (registry_mapping w)); reflexivity.
Qed.

Lemma bind_namespace {B} (b : cid) (k : list (string * cid) -> M World B) w :
  bind (namespace b) k w = k (entries w b) (touched b w).
Proof. unfold bind. now rewrite namespace_eq. Qed.

Lemma touched_entries (b b' : cid) (w : World) :
  entries (touched b w) b' = entries w b'.
Proof.
  unfold touched, entries.
  destruct (OD.get b (registry_mapping w)) eqn:G; [reflexivity|]. simpl.
  destruct (Nat.eq_dec b b') as [<-|N].
  - rewrite get_set_eq. now rewrite G.
  - now rewrite get_set_neq.
Qed.

Lemma touched_classes (b : cid) (w : World) : classes (touched b w) = classes w.
Proof. unfold touched. now destruct (OD.get b (registry_mapping w)). Qed.

Lemma touched_warnings (b : cid) (w : World) : warnings (touched b w) = warnings w.
Proof. unfold touched. now destruct (OD.get b (registry_mapping w)). Qed.

(** The outcome of [get], read off the entries of the namespace. *)
Lemma get_outcome (wanted : cid) (name : string) (w : World) :
  fst (get wanted name w) =
  match namespace_root w wanted with
  | None => Raise (ValueError (CannotLookUp wanted))
  | Some b =>
      match OD.get name (entries w b) with
      | None => Raise (ValueError NotRegistered)
      | Some r =>
          if issubclass w r wanted then Ret r
          else Raise (ValueError (DoesNotSubclass r wanted))
      end
  end.
Proof.
  unfold get, namespace_root. step.
  destruct (_is_base_class w wanted); [|destruct (_base_class_from_class w wanted)];
    step; try reflexivity;
    rewrite bind_namespace;
    (match goal with |- context [OD.get name ?d] => destruct (OD.get name d) as [r|] end);
    try reflexivity; destruct (issubclass w r wanted); reflexivity.
Qed.

Lemma register_in_eq (x b : cid) (name : string) (w : World) :
  x <> b -> _register x (Some b) name w = (Ret tt, registered x b name w).
Proof.
  intros N. unfold _register. step.
  apply Nat.eqb_neq in N. rewrite N. now rewrite bind_namespace.
Qed.

Lemma registered_entries_same (x b : cid) (name : string) (w : World) :
  entries (registered x b name w) b = OD.set name x (entries w b).
Proof. unfold registered, entries at 1. simpl. now rewrite get_set_eq. Qed.

Lemma registered_entries_other (x b b' : cid) (name : string) (w : World) :
  b' <> b -> entries (registered x b name w) b' = entries w b'.
Proof.
  intros N. unfold registered, entries at 1. simpl.
  rewrite get_set_neq; [|congruence]. apply (touched_entries b b' w).
Qed.

Lemma registered_classes (x b : cid) (name : string) (w : World) :
  classes (registered x b name w) = classes w.
Proof. unfold registered. simpl. apply touched_classes. Qed.

Lemma registered_warnings (x b : cid) (name : string) (w : World) :
  warnings (registered x b name w) = warnings w.
Proof. unfold registered. simpl. apply touched_warnings. Qed.

(** Class attributes are read in the class store only. *)
Lemma issubclass_classes (w w' : World) (c d : cid) :
  classes w' = classes w -> issubclass w' c d = issubclass w c d.
Proof. intros E. unfold issubclass, get_class. now rewrite E. Qed.

Lemma namespace_root_classes (w w' : World) (c : cid) :
  classes w' = classes w -> namespace_root w' c = namespace_root w c.
Proof.
  intros E. unfold namespace_root, _is_base_class, _base_class_from_class, get_class.
  rewrite E. destruct (mem_nat _ _); [reflexivity|].
  generalize (slice_m3_rev (cls_mro (nth c (classes w) no_class))). intros l.
  induction l as [|base l IH]; simpl; [reflexivity|].
  rewrite (issubclass_classes w w' base) by exact E. now rewrite IH.
Qed.

Lemma base_class_from_class_classes (w w' : World) (c : cid) :
  classes w' = classes w -> _base_class_from_class w' c = _base_class_from_class w c.
Proof.
  intros E. unfold _base_class_from_class, get_class. rewrite E.
  generalize (slice_m3_rev (cls_mro (nth c (classes w) no_class))). intros l.
  induction l as [|base l IH]; simpl; [reflexivity|].
  rewrite (issubclass_classes w w' base) by exact E. now rewrite IH.
Qed.

(** The decorator [@registry.register]. *)
Lemma register_eq (x b : cid) (w : World) :
  _base_class_from_class w x = Some b -> x <> b ->
  register x w = (Ret x, registered x b (cls_name (get_class w x)) w).
Proof.
  intros B N. unfold register, _register. step. rewrite B. step.
  apply Nat.eqb_neq in N. rewrite N. step.
  rewrite bind_namespace. reflexivity.
Qed.

Lemma get_class_classes (w w' : World) (c : cid) :
  classes w' = classes w -> get_class w' c = get_class w c.
Proof. intros E. unfold get_class. now rewrite E. Qed.

(** Every entry of a namespace is a strict subclass of its root. *)
Lemma registry_wf_entries (w : World) (b : cid) (name : string) (c : cid) :
  registry_wf w = true -> In (name, c) (entries w b) ->
  issubclass w c b = true /\ c <> b.
Proof.
  unfold registry_wf, entries. intros WF I.
  destruct (OD.get b (registry_mapping w)) as [ns|] eqn:G; [|destruct I].
  apply get_In in G. rewrite forallb_forall in WF. specialize (WF _ G).
  simpl in WF. rewrite forallb_forall in WF. specialize (WF _ I). simpl in WF.
  apply andb_prop in WF. destruct WF as [S N]. split; [exact S|].
  apply negb_true_iff, Nat.eqb_neq in N. exact N.
Qed.

Lemma forallb_set {V} (P : cid * V -> bool) (k : cid) (v : V) (d : list (cid * V)) :
  forallb P d = true -> P (k, v) = true -> forallb P (OD.set k v d) = true.
Proof.
  intros F Pk. induction d as [|[k' v'] d IH]; cbn [OD.set forallb] in *.
  - now rewrite Pk.
  - apply andb_prop in F. destruct F as [P' F].
    destruct (keqb k k'); cbn [forallb]; [now rewrite Pk, F | now rewrite P', IH].
Qed.

Lemma forallb_set_str {V} (P : string * V -> bool) (k : string) (v : V)
    (d : list (string * V)) :
  forallb P d = true -> P (k, v) = true -> forallb P (OD.set k v d) = true.
Proof.
  intros F Pk. induction d as [|[k' v'] d IH]; cbn [OD.set forallb] in *.
  - now rewrite Pk.
  - apply andb_prop in F. destruct F as [P' F].
    destruct (keqb k k'); cbn [forallb]; [now rewrite Pk, F | now rewrite P', IH].
Qed.

Lemma registry_wf_ext (w w' : World) :
  registry_mapping w' = registry_mapping w -> classes w' = classes w ->
  registry_wf w' = registry_wf w.
Proof.
  intros Rm Cl. unfold registry_wf, issubclass, get_class. now rewrite Rm, Cl.
Qed.

Lemma registry_wf_touched (b : cid) (w : World) :
  registry_wf w = true -> registry_wf (touched b w) = true.
Proof.
  intros WF. unfold touched. destruct (OD.get b (registry_mapping w)); [exact WF|].
  unfold registry_wf in *. cbn [registry_mapping with_mapping].
  apply forallb_set; [exact WF | reflexivity].
Qed.

Lemma registry_wf_entries_all (w : World) (b : cid) :
  registry_wf w = true ->
  forallb (fun '(_, c) => issubclass w c b && negb (Nat.eqb c b))
          (entries w b : list (string * cid)) = true.
Proof.
  intros WF. apply forallb_forall. intros [name c] I.
  destruct (registry_wf_entries w b name c WF I) as [S N].
  rewrite S. apply Nat.eqb_neq in N. now rewrite N.
Qed.

Lemma In_firstn {A} (x : A) (n : nat) (l : list A) : In x (firstn n l) -> In x l.
Proof.
  revert l. induction n as [|n IH]; intros [|y l]; simpl; try tauto.
  intros [E|I]; [now left | right; now apply IH].
Qed.

(** The root that [register] derives is an ancestor of the class. *)
Lemma base_class_from_class_issubclass (w : World) (x b : cid) :
  _base_class_from_class w x = Some b -> issubclass w x b = true.
Proof.
  unfold _base_class_from_class, slice_m3_rev, issubclass. intros F.
  apply find_some in F. destruct F as [I _]. apply mem_nat_In.
  apply in_rev in I. now apply In_firstn in I.
Qed.

(** The registry stays well formed through the decorator, whether it
    returns or raises. *)
Lemma register_registry_wf (x : cid) (w : World) :
  registry_wf w = true -> registry_wf (snd (register x w)) = true.
Proof.
  intros WF. destruct (_base_class_from_class w x) as [b|] eqn:B.
  - destruct (Nat.eq_dec x b) as [->|N].
    + unfold register, _register. step. rewrite B. step.
      now rewrite Nat.eqb_refl.
    + rewrite (register_eq x b w B N). cbn [snd].
      pose proof (registry_wf_touched b w WF) as WT.
      pose proof (registry_wf_entries_all w b WF) as WE.
      pose proof (base_class_from_class_issubclass w x b B) as Sx.
      unfold registered, registry_wf, issubclass, get_class in *.
      cbn [registry_mapping with_mapping classes] in *.
      rewrite ?touched_classes in *.
      apply forallb_set; [exact WT|].
      apply forallb_set_str; [exact WE|].
      rewrite Sx. apply Nat.eqb_neq in N. now rewrite N.
  - unfold register, _register. step. rewrite B. now step.
Qed.

(** Nor does a class statement harm it: the classes that are there stay
    as they are. *)
Lemma class_statement_registry_wf (name : string) (bases : list cid)
    (annotations : list (string * Ty)) (attrs : list (string * Attr)) (w : World) :
  registry_wf w = true ->
  registry_wf (snd (class_statement name bases annotations attrs w)) = true.
Proof.
  intros WF. unfold class_statement. rewrite bind_get_state. cbv zeta.
  destruct (c3_merge _ _) as [rest|]; [|exact WF].
  rewrite bind_put_state. cbn [ret snd].
  unfold registry_wf in *. rewrite forallb_forall in *. intros [b ns] I.
  specialize (WF _ I). cbn beta iota in *. rewrite forallb_forall in *.
  intros [nm c] Ic. specialize (WF _ Ic). cbn beta iota in *.
  apply andb_prop in WF. destruct WF as [Sb N]. rewrite N, andb_true_r.
  unfold issubclass, get_class in *. cbn [classes].
  destruct (Nat.lt_ge_cases c (List.length (classes w))) as [Lt|Ge].
  - now rewrite app_nth1.
  - rewrite (nth_overflow _ _ Ge) in Sb. discriminate Sb.
Qed.

Lemma initial_world_registry_wf : registry_wf initial_world = true.
Proof. reflexivity. Qed.

Lemma get_all_eq (wanted : cid) (w : World) :
  fst (get_all wanted w) =
  if _is_base_class w wanted then Ret (OD.values (entries w wanted))
  else match _base_class_from_class w wanted with
       | None => Raise (ValueError (CannotLookUp wanted))
       | Some b =>
           Ret (filter (fun class_ => issubclass w class_ wanted
                                      && negb (Nat.eqb class_ wanted))
                       (OD.values (entries w b)))
       end.
Proof.
  unfold get_all. step. destruct (_is_base_class w wanted).
  - now rewrite bind_namespace.
  - destruct (_base_class_from_class w wanted); [|reflexivity].
    now rewrite bind_namespace.
Qed.

End RegistryFacts.

(** ** The claims about the registry *)

Lemma filter_all_true {A} (f : A -> bool) (l : list A) :
  (forall x, In x l -> f x = true) -> filter f l = l.
Proof.
  induction l as [|x l IH]; simpl; intros Hall; [reflexivity|].
  rewrite (Hall x (or_introl eq_refl)). f_equal. apply IH. auto.
Qed.

(** C3.  [registry.get(requestedBase, name)] raises exactly when no
    namespace root can be derived from [requestedBase], or [name] is not in
    that namespace, or the type found there is not a subclass of
    [requestedBase]; otherwise it returns the type registered under [name].
    Two classes registered under one name in two different namespaces do
    not collide: each namespace resolves the name to its own class; and a
    name registered in one namespace only is not found through a base of
    another namespace. *)
Theorem registry_get_semantics :
  (forall (w : World) (wanted : cid) (name : string),
     ((exists e, fst (Registry.get wanted name w) = Raise e) <->
      (Registry.namespace_root w wanted = None
       \/ (exists b, Registry.namespace_root w wanted = Some b /\
                     OD.get name (Registry.entries w b) = None)
       \/ (exists b r, Registry.namespace_root w wanted = Some b /\
                       OD.get name (Registry.entries w b) = Some r /\
                       issubclass w r wanted = false)))
     /\
     (forall r, fst (Registry.get wanted name w) = Ret r <->
                exists b, Registry.namespace_root w wanted = Some b /\
                          OD.get name (Registry.entries w b) = Some r /\
                          issubclass w r wanted = true)
     /\ fst (Registry.get wanted name w) <> OutOfFuel)
  /\
  (forall (w : World) (x y bx by_ : cid),
     Registry._base_class_from_class w x = Some bx ->
     Registry._base_class_from_class w y = Some by_ ->
     x <> bx -> y <> by_ -> bx <> by_ ->
     cls_name (get_class w x) = cls_name (get_class w y) ->
     let name := cls_name (get_class w x) in
     let run := (Registry.register x ;; Registry.register y) w in
     fst run = Ret y /\
     OD.get name (Registry.entries (snd run) bx) = Some x /\
     OD.get name (Registry.entries (snd run) by_) = Some y /\
     (forall wanted, Registry.namespace_root w wanted = Some bx ->
                     issubclass w x wanted = true ->
                     fst (Registry.get wanted name (snd run)) = Ret x) /\
     (forall wanted, Registry.namespace_root w wanted = Some by_ ->
                     issubclass w y wanted = true ->
                     fst (Registry.get wanted name (snd run)) = Ret y))
  /\
  (forall (w : World) (x bx wanted b : cid),
     Registry._base_class_from_class w x = Some bx -> x <> bx ->
     Registry.namespace_root w wanted = Some b -> b <> bx ->
     OD.get (cls_name (get_class w x)) (Registry.entries w b) = None ->
     fst (Registry.get wanted (cls_name (get_class w x))
                       (snd (Registry.register x w)))
     = Raise (ValueError NotRegistered)).
Proof.
  split; [|split].
  - intros w wanted name. rewrite RegistryFacts.get_outcome.
    destruct (Registry.namespace_root w wanted) as [b|].
    + destruct (OD.get name (Registry.entries w b)) as [r|] eqn:G.
      * destruct (issubclass w r wanted) eqn:I.
        -- split; [|split].
           ++ split.
              ** intros [e E]. discriminate.
              ** intros [E|[(b' & [= <-] & G')|(b' & r' & [= <-] & G' & I')]];
                   congruence.
           ++ intros r'. split.
              ** intros [= <-]. exists b. auto.
              ** intros (b' & [= <-] & G' & _). congruence.
           ++ discriminate.
        -- split; [|split].
           ++ split; [|intros _; eexists; reflexivity].
              intros _. right. right. exists b, r. auto.
           ++ intros r'. split; [discriminate|].
              intros (b' & [= <-] & G' & I'). congruence.
           ++ discriminate.
      * split; [|split].
        -- split; [|intros _; eexists; reflexivity].
           intros _. right. left. exists b. auto.
        -- intros r'. split; [discriminate|].
           intros (b' & [= <-] & G' & _). congruence.
        -- discriminate.
    + split; [|split].
      * split; [|intros _; eexists; reflexivity]. intros _. now left.
      * intros r'. split; [discriminate|]. intros (b' & E & _). discriminate.
      * discriminate.
  - intros w x y bx by_ Bx By Nx Ny Nb En name run.
    assert (R : run = (Ret y, registered y by_ name
                                (registered x bx name w))).
    { unfold run. rewrite (bind_ret_eq _ _ _ _ _ (RegistryFacts.register_eq x bx w Bx Nx)).
      rewrite (RegistryFacts.register_eq y by_).
      - rewrite (RegistryFacts.get_class_classes w)
          by apply RegistryFacts.registered_classes.
        unfold name. now rewrite En.
      - rewrite (RegistryFacts.base_class_from_class_classes w)
          by apply RegistryFacts.registered_classes. exact By.
      - exact Ny. }
    rewrite R. cbn [fst snd].
    assert (Ex : OD.get name (Registry.entries
                   (registered y by_ name
                      (registered x bx name w)) bx) = Some x).
    { rewrite RegistryFacts.registered_entries_other by exact Nb.
      rewrite RegistryFacts.registered_entries_same. apply get_set_eq. }
    assert (Ey : OD.get name (Registry.entries
                   (registered y by_ name
                      (registered x bx name w)) by_) = Some y).
    { rewrite RegistryFacts.registered_entries_same. apply get_set_eq. }
    assert (Cl : classes (registered y by_ name
                            (registered x bx name w)) = classes w).
    { now rewrite !RegistryFacts.registered_classes. }
    repeat split; auto.
    + intros wanted Rt Sub. rewrite RegistryFacts.get_outcome.
      rewrite (RegistryFacts.namespace_root_classes w) by exact Cl.
      rewrite Rt, Ex. rewrite (RegistryFacts.issubclass_classes w) by exact Cl.
      now rewrite Sub.
    + intros wanted Rt Sub. rewrite RegistryFacts.get_outcome.
      rewrite (RegistryFacts.namespace_root_classes w) by exact Cl.
      rewrite Rt, Ey. rewrite (RegistryFacts.issubclass_classes w) by exact Cl.
      now rewrite Sub.
  - intros w x bx wanted b Bx Nx Rt Nb Absent.
    rewrite (RegistryFacts.register_eq x bx w Bx Nx). cbn [snd].
    rewrite RegistryFacts.get_outcome.
    rewrite (RegistryFacts.namespace_root_classes w)
      by apply RegistryFacts.registered_classes.
    rewrite Rt. rewrite RegistryFacts.registered_entries_other by exact Nb.
    now rewrite Absent.
Qed.

Lemma registry_get_semantics_witness :
  (let run := (Registry.register ScenarioTwoRoots.Banana ;;
               Registry.register ScenarioTwoRoots.AnimalBanana) ScenarioTwoRoots.world in
   fst (Registry.get ScenarioTwoRoots.Fruit "Banana" (snd run))
     = Ret ScenarioTwoRoots.Banana /\
   fst (Registry.get ScenarioTwoRoots.Animal "Banana" (snd run))
     = Ret ScenarioTwoRoots.AnimalBanana)
  /\
  fst (Registry.get ScenarioTwoRoots.Animal "Banana"
         (snd (Registry.register ScenarioTwoRoots.Banana ScenarioTwoRoots.world)))
  = Raise (ValueError NotRegistered).
Proof.
  destruct registry_get_semantics as (_ & H2 & H3). split.
  - destruct (H2 ScenarioTwoRoots.world ScenarioTwoRoots.Banana
                ScenarioTwoRoots.AnimalBanana ScenarioTwoRoots.Fruit
                ScenarioTwoRoots.Animal)
      as (_ & _ & _ & Gx & Gy);
      try reflexivity; try discriminate.
    split.
    + apply (Gx ScenarioTwoRoots.Fruit); reflexivity.
    + apply (Gy ScenarioTwoRoots.Animal); reflexivity.
  - apply (H3 ScenarioTwoRoots.world ScenarioTwoRoots.Banana ScenarioTwoRoots.Fruit
              ScenarioTwoRoots.Animal ScenarioTwoRoots.Animal);
      try reflexivity; discriminate.
Defined.

(** [get_all] asked about a registered class that is not a namespace root
    leaves that class out, although it is registered in the namespace, is a
    subclass of itself and is not the namespace root. *)
Lemma get_all_excludes_requested_base :
  ~ (forall (w : World) (wanted b : cid) (l : list cid),
       Registry.namespace_root w wanted = Some b ->
       fst (Registry.get_all wanted w) = Ret l ->
       forall c, In c l <->
                 (In c (OD.values (Registry.entries w b))
                  /\ issubclass w c wanted = true /\ c <> b)).
Proof.
  intros H.
  specialize (H ScenarioNested.world ScenarioNested.B ScenarioNested.A
                [ScenarioNested.C] eq_refl eq_refl ScenarioNested.B).
  destruct H as [_ H].
  assert (I : In ScenarioNested.B [ScenarioNested.C]).
  { apply H. split; [|split].
    - vm_compute. now left.
    - vm_compute. reflexivity.
    - discriminate. }
  destruct I as [E|[]]. discriminate.
Qed.

(** C4 (amended).  In a registry filled through [register], for every
    [requestedBase] from which a namespace root is derivable,
    [get_all(requestedBase)] returns, in registration order, exactly the
    types registered in that namespace that are subclasses of
    [requestedBase], excluding only [requestedBase] itself. *)
Theorem registry_get_all_semantics :
  forall (w : World) (wanted b : cid),
    registry_wf w = true ->
    Registry.namespace_root w wanted = Some b ->
    exists l,
      fst (Registry.get_all wanted w) = Ret l /\
      l = filter (fun c => issubclass w c wanted && negb (Nat.eqb c wanted))
                 (OD.values (Registry.entries w b)) /\
      (forall c, In c l <->
                 (In c (OD.values (Registry.entries w b))
                  /\ issubclass w c wanted = true /\ c <> wanted)).
Proof.
  intros w wanted b WF Rt.
  exists (filter (fun c => issubclass w c wanted && negb (Nat.eqb c wanted))
                 (OD.values (Registry.entries w b))).
  split; [|split; [reflexivity|]].
  - rewrite RegistryFacts.get_all_eq. unfold Registry.namespace_root in Rt.
    destruct (Registry._is_base_class w wanted).
    + injection Rt as <-. f_equal. symmetry. apply filter_all_true.
      intros c I. unfold OD.values in I. apply in_map_iff in I.
      destruct I as ([name c'] & <- & I). simpl.
      destruct (RegistryFacts.registry_wf_entries w wanted name c' WF I) as [S N].
      rewrite S. apply Nat.eqb_neq in N. now rewrite N.
    + now rewrite Rt.
  - intros c. rewrite filter_In, andb_true_iff, negb_true_iff, Nat.eqb_neq. tauto.
Qed.

Lemma registry_get_all_semantics_witness :
  exists l,
    fst (Registry.get_all ScenarioNested.B ScenarioNested.world) = Ret l /\
    l = [ScenarioNested.C] /\
    (forall c, In c l <->
               (In c (OD.values (Registry.entries ScenarioNested.world ScenarioNested.A))
                /\ issubclass ScenarioNested.world c ScenarioNested.B = true
                /\ c <> ScenarioNested.B)).
Proof.
  exact (registry_get_all_semantics ScenarioNested.world ScenarioNested.B
           ScenarioNested.A eq_refl eq_refl).
Defined.

(** ** Expansion and extraction: the immediate cases *)

(** C10.  [get_default_args(None)] returns the empty configuration tree
    and raises nothing, whatever the state and however little fuel. *)
Theorem get_default_args_None :
  forall (fuel : nat) (_do_not_process : list cid) (w : World),
    get_default_args fuel TNone _do_not_process w = (Ret [], w).
Proof. intros fuel dnp w. destruct fuel; reflexivity. Qed.

Lemma expand_args_fields_unfold (fuel : nat) (some_class : cid) (dnp : list cid) :
  expand_args_fields fuel some_class dnp =
  expand_args_fields_body
    (match fuel with
     | O => fun _ _ => out_of_fuel
     | S fuel' => expand_args_fields fuel'
     end) some_class dnp.
Proof. destruct fuel; reflexivity. Qed.

Lemma get_default_args_unfold (fuel : nat) (C : Target) (dnp : list cid) :
  get_default_args fuel C dnp =
  get_default_args_body
    (match fuel with
     | O => fun _ _ => out_of_fuel
     | S fuel' => get_default_args fuel'
     end) fuel C dnp.
Proof. destruct fuel; reflexivity. Qed.

(** ** Scenario A *)



(** ** Hoare triples and invariants for the monad *)

Section Triples.
Context {S : Type}.

Lemma keeps_triple {A} (I : S -> Prop) (m : M S A) :
  keeps I m -> triple I m (fun _ => I) (fun _ => I).
Proof.
  intros K s Is. specialize (K s Is). destruct (m s) as [[a|e|] s']; exact K.
Qed.

Lemma triple_conseq {A} (P P' : S -> Prop) (m : M S A) (Q Q' : A -> S -> Prop)
    (E E' : option exn -> S -> Prop) :
  triple P' m Q' E' ->
  (forall s, P s -> P' s) -> (forall a s, Q' a s -> Q a s) ->
  (forall e s, E' e s -> E e s) ->
  triple P m Q E.
Proof.
  intros T HP HQ HE s Ps. specialize (T s (HP s Ps)).
  destruct (m s) as [[a|e|] s']; auto.
Qed.

Lemma triple_ret {A} (P : S -> Prop) (a : A) (Q : A -> S -> Prop)
    (E : option exn -> S -> Prop) :
  (forall s, P s -> Q a s) -> triple P (ret a) Q E.
Proof. intros H s Ps. simpl. auto. Qed.

Lemma triple_raise {A} (P : S -> Prop) (e : exn) (Q : A -> S -> Prop)
    (E : option exn -> S -> Prop) :
  (forall s, P s -> E (Some e) s) -> triple P (raise e) Q E.
Proof. intros H s Ps. simpl. auto. Qed.

Lemma triple_modify_state (P : S -> Prop) (f : S -> S) (Q : unit -> S -> Prop)
    (E : option exn -> S -> Prop) :
  (forall s, P s -> Q tt (f s)) -> triple P (modify_state f) Q E.
Proof. intros H s Ps. simpl. auto. Qed.

Lemma triple_bind {A B} (P : S -> Prop) (m : M S A) (k : A -> M S B)
    (Q1 : A -> S -> Prop) (Q : B -> S -> Prop) (E : option exn -> S -> Prop) :
  triple P m Q1 E -> (forall a, triple (Q1 a) (k a) Q E) -> triple P (bind m k) Q E.
Proof.
  intros Tm Tk s Ps. specialize (Tm s Ps). unfold bind.
  destruct (m s) as [[a|e|] s']; auto. apply (Tk a s' Tm).
Qed.

Lemma triple_get_state (P : S -> Prop) (Q : S -> S -> Prop)
    (E : option exn -> S -> Prop) :
  (forall s, P s -> Q s s) -> triple P get_state Q E.
Proof. intros H s Ps. simpl. auto. Qed.

(** A loop whose body keeps [I] when it returns. *)
Lemma triple_for_fold {A B} (I : S -> Prop) (l : list A) (acc : B)
    (body : B -> A -> M S B) (E : option exn -> S -> Prop) :
  (forall acc x, triple I (body acc x) (fun _ => I) E) ->
  triple I (for_fold l acc body) (fun _ => I) E.
Proof.
  intros Tb. revert acc. induction l as [|x l IH]; intros acc; simpl.
  - apply triple_ret. auto.
  - eapply triple_bind; [apply Tb | intros acc'; apply IH].
Qed.

Lemma keeps_ret {A} (I : S -> Prop) (a : A) : keeps I (ret a).
Proof. intros s Is. exact Is. Qed.

Lemma keeps_raise {A} (I : S -> Prop) (e : exn) : keeps I (@raise S A e).
Proof. intros s Is. exact Is. Qed.

Lemma keeps_out_of_fuel {A} (I : S -> Prop) : keeps I (@out_of_fuel S A).
Proof. intros s Is. exact Is. Qed.

Lemma keeps_get_state (I : S -> Prop) : keeps I get_state.
Proof. intros s Is. exact Is. Qed.

Lemma keeps_modify_state (I : S -> Prop) (f : S -> S) :
  (forall s, I s -> I (f s)) -> keeps I (modify_state f).
Proof. intros H s Is. simpl. auto. Qed.

Lemma keeps_bind {A B} (I : S -> Prop) (m : M S A) (k : A -> M S B) :
  keeps I m -> (forall a, keeps I (k a)) -> keeps I (bind m k).
Proof.
  intros Km Kk s Is. specialize (Km s Is). unfold bind.
  destruct (m s) as [[a|e|] s']; simpl in *; auto. apply (Kk a s' Km).
Qed.

Lemma keeps_for_fold {A B} (I : S -> Prop) (l : list A) (acc : B)
    (body : B -> A -> M S B) :
  (forall acc x, keeps I (body acc x)) -> keeps I (for_fold l acc body).
Proof.
  intros Kb. revert acc. induction l as [|x l IH]; intros acc; simpl.
  - apply keeps_ret.
  - apply keeps_bind; [apply Kb | intros acc'; apply IH].
Qed.

Lemma keeps_for_each {A} (I : S -> Prop) (l : list A) (body : A -> M S unit) :
  (forall x, keeps I (body x)) -> keeps I (for_each l body).
Proof.
  intros Kb. induction l as [|x l IH]; simpl.
  - apply keeps_ret.
  - apply keeps_bind; [apply Kb | intros _; apply IH].
Qed.

End Triples.

(** Breaks a goal [keeps I m] down along the structure of [m]; what is
    left are the calls that need a lemma of their own. *)
Ltac keeps_structure :=
  repeat (intros;
          match goal with
          | |- keeps _ (ret _) => apply keeps_ret
          | |- keeps _ (raise _) => apply keeps_raise
          | |- keeps _ out_of_fuel => apply keeps_out_of_fuel
          | |- keeps _ get_state => apply keeps_get_state
          | |- keeps _ (bind _ _) => apply keeps_bind
          | |- keeps _ (for_fold _ _ _) => apply keeps_for_fold
          | |- keeps _ (for_each _ _) => apply keeps_for_each
          | |- keeps _ (match ?x with _ => _ end) => destruct x
          | |- keeps _ ((match ?x with _ => _ end) _) => destruct x; cbv beta
          end).

(** ** What expansion leaves alone *)

Lemma frame_refl (w : World) : frame w w.
Proof. constructor; auto. Qed.

Lemma frame_trans (w0 w1 w2 : World) : frame w0 w1 -> frame w1 w2 -> frame w0 w2.
Proof.
  intros [L1 N1 B1 M1 S1] [L2 N2 B2 M2 S2]. constructor.
  - congruence.
  - intros c. now rewrite N2.
  - intros c. now rewrite B2.
  - intros c. now rewrite M2.
  - intros c Sc. rewrite <- (S1 c Sc). apply S2.
    unfold _is_actually_dataclass in *. now rewrite (S1 c Sc).
Qed.

Lemma frame_classes (w0 w w' : World) :
  classes w' = classes w -> frame w0 w -> frame w0 w'.
Proof.
  intros E [L N B Mr Se].
  constructor; unfold get_class in *; rewrite E; auto.
Qed.

Lemma length_list_update {A} (i : nat) (f : A -> A) (l : list A) :
  List.length (list_update i f l) = List.length l.
Proof.
  revert i. induction l as [|x l IH]; intros [|i]; simpl; auto.
Qed.

Lemma nth_list_update_same {A} (i : nat) (f : A -> A) (l : list A) (d : A) :
  i < List.length l -> nth i (list_update i f l) d = f (nth i l d).
Proof.
  revert i. induction l as [|x l IH]; intros [|i]; simpl; intros L; try lia; auto.
  apply IH. lia.
Qed.

Lemma nth_list_update_other {A} (i j : nat) (f : A -> A) (l : list A) (d : A) :
  i <> j -> nth j (list_update i f l) d = nth j l d.
Proof.
  revert i j. induction l as [|x l IH]; intros [|i] [|j]; simpl; intros N;
    try reflexivity; try lia.
  apply IH. lia.
Qed.

Lemma get_class_update_same (x : cid) (f : PyClass -> PyClass) (w : World) :
  x < List.length (classes w) -> get_class (update_class x f w) x = f (get_class w x).
Proof. intros L. unfold get_class, update_class. simpl. now apply nth_list_update_same. Qed.

Lemma get_class_update_other (x c : cid) (f : PyClass -> PyClass) (w : World) :
  x <> c -> get_class (update_class x f w) c = get_class w c.
Proof. intros N. unfold get_class, update_class. simpl. now apply nth_list_update_other. Qed.

Lemma get_class_update_dangling (x c : cid) (f : PyClass -> PyClass) (w : World) :
  List.length (classes w) <= x -> get_class (update_class x f w) c = get_class w c.
Proof.
  intros L. unfold get_class, update_class. simpl. f_equal.
  generalize dependent x. generalize (classes w). clear.
  induction l as [|k l IH]; intros [|x] L; simpl in *; try reflexivity; try lia.
  f_equal. apply IH. lia.
Qed.

Lemma frame_update_class (w0 w : World) (x : cid) (f : PyClass -> PyClass) :
  _is_actually_dataclass w0 x = false -> static f ->
  frame w0 w -> frame w0 (update_class x f w).
Proof.
  intros U St [L N B Mr Se].
  assert (G : forall c, get_class (update_class x f w) c = get_class w c
                        \/ (c = x /\ get_class (update_class x f w) c = f (get_class w c))).
  { intros c. destruct (Nat.eq_dec x c) as [<-|Nc].
    - destruct (Nat.lt_ge_cases x (List.length (classes w))) as [Lt|Ge].
      + right. split; [reflexivity|]. now apply get_class_update_same.
      + left. now apply get_class_update_dangling.
    - left. now apply get_class_update_other. }
  constructor.
  - simpl. now rewrite length_list_update.
  - intros c. destruct (G c) as [->|[_ ->]]; [apply N|].
    destruct (St (get_class w c)) as (-> & _). apply N.
  - intros c. destruct (G c) as [->|[_ ->]]; [apply B|].
    destruct (St (get_class w c)) as (_ & -> & _). apply B.
  - intros c. destruct (G c) as [->|[_ ->]]; [apply Mr|].
    destruct (St (get_class w c)) as (_ & _ & ->). apply Mr.
  - intros c Sc. destruct (G c) as [->|[-> _]]; [now apply Se|]. congruence.
Qed.

Lemma keeps_frame_update_class (w0 : World) (x : cid) (f : PyClass -> PyClass) :
  _is_actually_dataclass w0 x = false -> static f ->
  keeps (frame w0) (modify_state (update_class x f)).
Proof. intros U St. apply keeps_modify_state. intros w. now apply frame_update_class. Qed.

Lemma keeps_frame_classes {A} (w0 : World) (m : M World A) :
  (forall w, classes (snd (m w)) = classes w) -> keeps (frame w0) m.
Proof. intros C w F. now apply (frame_classes w0 w). Qed.

Lemma static_with_annotations a : static (with_annotations a).
Proof. intros k. simpl. auto. Qed.

Lemma static_with_attrs (g : PyClass -> list (string * Attr)) :
  static (fun k => with_attrs (g k) k).
Proof. intros k. simpl. auto. Qed.

Lemma static_with_dataclass_fields f : static (with_dataclass_fields f).
Proof. intros k. simpl. auto. Qed.

Lemma static_with_init b : static (with_init b).
Proof. intros k. simpl. auto. Qed.

Lemma static_with_bookkeeping a b c : static (with_bookkeeping a b c).
Proof. intros k. simpl. auto. Qed.

Lemma namespace_classes (b : cid) (w : World) :
  classes (snd (Registry.namespace b w)) = classes w.
Proof. rewrite RegistryFacts.namespace_eq. apply RegistryFacts.touched_classes. Qed.

Lemma get_all_classes (wanted : cid) (w : World) :
  classes (snd (Registry.get_all wanted w)) = classes w.
Proof.
  unfold Registry.get_all. step. destruct (Registry._is_base_class w wanted).
  - rewrite RegistryFacts.bind_namespace. apply RegistryFacts.touched_classes.
  - destruct (Registry._base_class_from_class w wanted); [|reflexivity].
    rewrite RegistryFacts.bind_namespace. apply RegistryFacts.touched_classes.
Qed.

Lemma warn_classes (x : Warning) (w : World) : classes (snd (warn x w)) = classes w.
Proof. reflexivity. Qed.

(** The leaves of the expansion code: each keeps the frame of a state in
    which the class being expanded was not sealed. *)
Ltac keeps_frame_leaf :=
  match goal with
  | |- keeps (frame _) (modify_state (update_class _ _)) =>
      apply keeps_frame_update_class;
      [ assumption
      | first [ apply static_with_annotations | apply static_with_attrs
              | apply static_with_dataclass_fields | apply static_with_init
              | apply static_with_bookkeeping ] ]
  | |- keeps (frame _) (Registry.get_all _) =>
      apply keeps_frame_classes; apply get_all_classes
  | |- keeps (frame _) (warn _) =>
      apply keeps_frame_classes; apply warn_classes
  end.

Ltac keeps_frame :=
  repeat first [ progress keeps_structure | intros; keeps_frame_leaf ].

Lemma process_member_frame (w0 : World) name type_ pluggable some_class
    creation_functions dnp known :
  _is_actually_dataclass w0 some_class = false ->
  keeps (frame w0)
    (_process_member name type_ pluggable some_class creation_functions dnp known).
Proof.
  intros U.
  unfold _process_member, process_derived_type, del_annotation, has_annotation,
    set_annotation, put_annotations, annotations_of, class_setattr.
  keeps_frame.
Qed.

Lemma dataclass_frame (w0 : World) (c : cid) :
  _is_actually_dataclass w0 c = false -> keeps (frame w0) (dataclass c).
Proof.
  intros U. unfold dataclass, class_delattr. keeps_frame.
Qed.

Lemma expand_body_frame (expand_base : cid -> list cid -> M World cid)
    (some_class : cid) (dnp : list cid) :
  (forall c d w, frame w (snd (expand_base c d w))) ->
  forall w, frame w (snd (expand_args_fields_body expand_base some_class dnp w)).
Proof.
  intros Hrec w. unfold expand_args_fields_body. rewrite bind_get_state.
  destruct (_is_actually_dataclass w some_class) eqn:U; [apply frame_refl|].
  match goal with |- frame w (snd (?m w)) => enough (K : keeps (frame w) m) end.
  { apply K. apply frame_refl. }
  assert (Kp : forall name type_ pluggable cf known,
             keeps (frame w)
               (_process_member name type_ pluggable some_class cf dnp known))
    by (intros; now apply process_member_frame).
  assert (Kd : keeps (frame w) (dataclass some_class))
    by now apply dataclass_frame.
  assert (Kr : forall c d, keeps (frame w) (expand_base c d)).
  { intros c d w1 F. eapply frame_trans; [exact F | apply Hrec]. }
  repeat first [ progress keeps_structure
               | intros; keeps_frame_leaf
               | intros; apply Kp
               | intros; apply Kd
               | intros; apply Kr ].
Qed.

(** Expansion changes classes that were not sealed, and nothing else in
    the class store. *)
Lemma expand_frame (fuel : nat) (some_class : cid) (dnp : list cid) (w : World) :
  frame w (snd (expand_args_fields fuel some_class dnp w)).
Proof.
  revert some_class dnp w. induction fuel as [|fuel IH]; intros some_class dnp w;
    rewrite expand_args_fields_unfold; apply expand_body_frame.
  - intros c d w1. apply frame_refl.
  - exact IH.
Qed.

Lemma get_default_args_body_frame
    (run_factory : Target -> list cid -> M World DictConfig)
    (fuel : nat) (C : Target) (dnp : list cid) :
  (forall t d w, frame w (snd (run_factory t d w))) ->
  forall w, frame w (snd (get_default_args_body run_factory fuel C dnp w)).
Proof.
  intros Hrec w.
  match goal with |- frame w (snd (?m w)) => enough (K : keeps (frame w) m) end.
  { apply K. apply frame_refl. }
  assert (Kr : forall t d, keeps (frame w) (run_factory t d)).
  { intros t d w1 F. eapply frame_trans; [exact F | apply Hrec]. }
  assert (Ke : forall f c d, keeps (frame w) (expand_args_fields f c d)).
  { intros f c d w1 F. eapply frame_trans; [exact F | apply expand_frame]. }
  unfold get_default_args_body.
  repeat first [ progress keeps_structure | intros; apply Kr | intros; apply Ke ].
Qed.

(** Extraction of a default tree changes classes that were not sealed, and
    nothing else in the class store. *)
Lemma get_default_args_frame (fuel : nat) (C : Target) (dnp : list cid) (w : World) :
  frame w (snd (get_default_args fuel C dnp w)).
Proof.
  revert C dnp w. induction fuel as [|fuel IH]; intros C dnp w;
    rewrite get_default_args_unfold; apply get_default_args_body_frame.
  - intros t d w1. apply frame_refl.
  - exact IH.
Qed.

(** ** Extraction and the class it is called on *)




(** ** Idempotence of expansion *)

Lemma triple_of_keeps {S A} (I : S -> Prop) (m : M S A) :
  keeps I m -> triple I m (fun _ => I) (fun _ _ => True).
Proof.
  intros K. eapply triple_conseq; [apply keeps_triple, K| | |]; auto.
Qed.

Lemma sealed_update_class (w : World) (c x : cid) (f : PyClass -> PyClass) :
  (forall k, cls_dataclass_fields k <> None -> cls_dataclass_fields (f k) <> None) ->
  _is_actually_dataclass w c = true ->
  _is_actually_dataclass (update_class x f w) c = true.
Proof.
  intros Hf Sc. unfold _is_actually_dataclass in *.
  destruct (Nat.eq_dec x c) as [->|N].
  - destruct (Nat.lt_ge_cases c (List.length (classes w))) as [Lt|Ge].
    + rewrite get_class_update_same by exact Lt.
      specialize (Hf (get_class w c)).
      destruct (cls_dataclass_fields (get_class w c)); [|discriminate].
      destruct (cls_dataclass_fields (f (get_class w c))); [reflexivity|].
      exfalso. apply Hf; [discriminate | reflexivity].
    + now rewrite get_class_update_dangling by exact Ge.
  - now rewrite get_class_update_other by exact N.
Qed.

(** When [dataclasses.dataclass] returns, the class carries its fields. *)
Lemma dataclass_seals (w0 : World) (c : cid) :
  _is_actually_dataclass w0 c = false -> c < List.length (classes w0) ->
  triple (frame w0) (dataclass c)
         (fun _ s => frame w0 s /\ _is_actually_dataclass s c = true)
         (fun _ _ => True).
Proof.
  intros U L. unfold dataclass.
  eapply triple_bind; [apply triple_of_keeps, keeps_get_state|]. intros s0. cbv zeta.
  eapply triple_bind.
  { apply triple_of_keeps. unfold class_delattr. keeps_frame. }
  intros fields.
  eapply triple_bind; [apply triple_of_keeps, keeps_get_state|]. intros s1.
  destruct (existsb _ _).
  { intros s F. exact I. }
  intros s F. rewrite bind_modify_state.
  assert (F1 : frame w0 (update_class c (with_dataclass_fields fields) s)).
  { apply frame_update_class; auto. apply static_with_dataclass_fields. }
  assert (S1 : _is_actually_dataclass (update_class c (with_dataclass_fields fields) s) c
               = true).
  { unfold _is_actually_dataclass. rewrite get_class_update_same; [reflexivity|].
    rewrite (frame_length w0 s F). exact L. }
  destruct (default_order_ok false fields); [|exact I].
  rewrite modify_state_apply. split.
  - apply frame_update_class; auto. apply static_with_init.
  - apply sealed_update_class; [|exact S1]. intros k. simpl. auto.
Qed.

(** An expansion that returns has sealed the class. *)
Lemma expand_seals (fuel : nat) (c : cid) (dnp : list cid) (w w' : World) (r : cid) :
  c < List.length (classes w) ->
  expand_args_fields fuel c dnp w = (Ret r, w') ->
  r = c /\ _is_actually_dataclass w' c = true.
Proof.
  intros L. rewrite expand_args_fields_unfold.
  set (expand_base := match fuel with
                      | O => fun _ _ => out_of_fuel
                      | S fuel' => expand_args_fields fuel'
                      end).
  assert (Kr : forall x d, keeps (frame w) (expand_base x d)).
  { intros x d w1 F. eapply frame_trans; [exact F|].
    unfold expand_base. destruct fuel; [apply frame_refl | apply expand_frame]. }
  unfold expand_args_fields_body. rewrite bind_get_state.
  destruct (_is_actually_dataclass w c) eqn:U.
  { intros [= <- <-]. auto. }
  match goal with
  | |- ?m w = _ -> _ =>
      assert (T : triple (frame w) m
                    (fun r s => r = c /\ _is_actually_dataclass s c = true)
                    (fun _ _ => True))
  end.
  { eapply triple_bind.
    { apply triple_of_keeps.
      repeat first [ progress keeps_structure | intros; apply Kr ]. }
    intros [[cf known] processed].
    eapply triple_bind; [apply triple_of_keeps, keeps_get_state|]. intros s1. cbv zeta.
    eapply triple_bind.
    { apply triple_of_keeps.
      repeat first [ progress keeps_structure
                   | intros; apply process_member_frame; exact U ]. }
    intros [[cf' known'] processed'].
    eapply triple_bind.
    { apply triple_of_keeps. keeps_frame. }
    intros ?.
    eapply triple_bind.
    { apply triple_of_keeps. keeps_frame. }
    intros ?.
    eapply triple_bind; [apply dataclass_seals; assumption|].
    intros ?. apply triple_ret. intros s [_ Ss]. auto. }
  intros E. specialize (T w (frame_refl w)). rewrite E in T. exact T.
Qed.

(** C2.  Expanding a class that is already sealed returns the class at once
    and changes nothing: not its fields, not its creation functions, not
    any other attribute, nor anything else in the state.  In particular,
    after an expansion of a class has returned, every further expansion of
    it is such a no-op. *)
Theorem expand_args_fields_idempotent :
  forall (fuel : nat) (some_class : cid) (dnp : list cid) (w : World),
    (_is_actually_dataclass w some_class = true ->
     expand_args_fields fuel some_class dnp w = (Ret some_class, w))
    /\
    (forall (r : cid) (w' : World),
       some_class < List.length (classes w) ->
       expand_args_fields fuel some_class dnp w = (Ret r, w') ->
       r = some_class /\
       forall (fuel' : nat) (dnp' : list cid),
         expand_args_fields fuel' some_class dnp' w' = (Ret some_class, w')).
Proof.
  intros fuel some_class dnp w.
  assert (Noop : forall f d s, _is_actually_dataclass s some_class = true ->
                               expand_args_fields f some_class d s = (Ret some_class, s)).
  { intros f d s Sc. rewrite expand_args_fields_unfold.
    unfold expand_args_fields_body. rewrite bind_get_state. now rewrite Sc. }
  split.
  - apply Noop.
  - intros r w' L E. destruct (expand_seals fuel some_class dnp w w' r L E) as [-> Sc].
    split; [reflexivity|]. intros fuel' dnp'. now apply Noop.
Qed.

Lemma expand_args_fields_idempotent_witness :
  let w1 := snd (expand_args_fields 0 ScenarioA.B [] ScenarioA.world) in
  expand_args_fields 0 ScenarioA.B [] w1 = (Ret ScenarioA.B, w1)
  /\ expand_args_fields 3 ScenarioA.B [ScenarioA.A] w1 = (Ret ScenarioA.B, w1).
Proof.
  intros w1. split.
  - destruct (expand_args_fields_idempotent 0 ScenarioA.B [] w1) as [H _].
    apply H. reflexivity.
  - destruct (expand_args_fields_idempotent 0 ScenarioA.B [] ScenarioA.world)
      as [_ H].
    destruct (H ScenarioA.B w1) as [_ H'].
    + vm_compute. lia.
    + vm_compute. reflexivity.
    + apply H'.
Defined.

(** ** Re-registration and staleness *)

Lemma get_classes (wanted : cid) (name : string) (w : World) :
  classes (snd (Registry.get wanted name w)) = classes w.
Proof.
  unfold Registry.get. step.
  destruct (Registry._is_base_class w wanted);
    [|destruct (Registry._base_class_from_class w wanted)];
    step; try reflexivity;
    rewrite RegistryFacts.bind_namespace;
    (match goal with |- context [OD.get name ?d] => destruct (OD.get name d) as [r|] end);
    try (destruct (negb (issubclass w r wanted)));
    apply RegistryFacts.touched_classes.
Qed.

Lemma class_lookup_classes {A} (proj : PyClass -> option A) (w w' : World) (c : cid) :
  classes w' = classes w -> class_lookup proj w' c = class_lookup proj w c.
Proof.
  intros E. unfold class_lookup, get_class. rewrite E.
  generalize (cls_mro (nth c (classes w) no_class)). intros l.
  induction l as [|x l IH]; simpl; [reflexivity|].
  unfold get_class. rewrite E. destruct (proj _); [reflexivity | exact IH].
Qed.

(** The generated creation function of a pluggable member, when the class
    that the registry now gives for the selected name is not the one that
    was recorded when the owner was expanded: a warning, then the
    construction from the class that the registry gives. *)
Lemma inner_pluggable_stale (user_method : string -> Value -> M World Value)
    (fuel : nat) (c : cid) (attrs : list (string * Value)) (member : string)
    (type_ : cid) (s : string) (chosen old : cid) (known : list (string * cid))
    (w : World) :
  OD.get ("create_" ++ member) attrs = None ->
  class_getattr w c ("create_" ++ member) = Some (ADefaultCreate member type_ true) ->
  OD.get (member ++ TYPE_SUFFIX) attrs = Some (VStr s) ->
  fst (Registry.get type_ s w) = Ret chosen ->
  class_lookup cls_known_implementations w c = Some known ->
  OD.get s known = Some old -> old <> chosen ->
  call_method user_method fuel (VObj c attrs) ("create_" ++ member) w =
  (warn (NewImplementationWarning s) ;;
   expand_args_fields fuel chosen [] ;;
   args <- instance_getattr (VObj c attrs) (member ++ "_" ++ s ++ ARGS_SUFFIX) ;;
   kwargs <- kwargs_of args ;;
   obj <- match fuel with
          | O => out_of_fuel
          | S fuel' => instantiate user_method fuel' chosen kwargs
          end ;;
   ret (instance_setattr (VObj c attrs) member obj))
    (snd (Registry.get type_ s w)).
Proof.
  intros Hi Hc Ht Hg Hk Ho Hn.
  pose proof (get_classes type_ s w) as Cl.
  destruct (Registry.get type_ s w) as [o w1] eqn:G. simpl in Hg, Cl. subst o.
  assert (Hk1 : class_lookup cls_known_implementations w1 c = Some known)
    by now rewrite (class_lookup_classes _ w w1 c Cl).
  apply Nat.eqb_neq in Hn.
  destruct fuel; cbn [call_method snd]; rewrite Hi; step; rewrite Hc;
    unfold instance_getattr at 1; step; rewrite Ht; step;
    unfold registry_get_value; rewrite bind_assoc;
    rewrite (bind_ret_eq _ _ _ _ _ G); step; rewrite Hk1, Ho, Hn; reflexivity.
Qed.

(** C5.  Registering a class under a name that its namespace already holds
    succeeds without error or warning and replaces the entry, leaving the
    other names of the namespace as they were.  When the name selected for
    a pluggable member resolves to another class than the one recorded at
    the expansion of the owner, the creation function emits a warning,
    raises nothing on that account, and goes on to construct the member
    from the class that the registry holds; in Scenario A with [A2]
    defined anew after the expansion of [B], constructing [B] emits the
    warning and sets [a] to an instance of the new [A2]. *)
Theorem reregistration_and_staleness :
  (forall (w : World) (y b x : cid),
     Registry._base_class_from_class w y = Some b -> y <> b ->
     OD.get (cls_name (get_class w y)) (Registry.entries w b) = Some x ->
     let run := Registry.register y w in
     fst run = Ret y
     /\ OD.get (cls_name (get_class w y)) (Registry.entries (snd run) b) = Some y
     /\ (forall name, name <> cls_name (get_class w y) ->
                      OD.get name (Registry.entries (snd run) b)
                      = OD.get name (Registry.entries w b))
     /\ warnings (snd run) = warnings w)
  /\
  (forall (user_method : string -> Value -> M World Value)
          (fuel : nat) (c : cid) (attrs : list (string * Value)) (member : string)
          (type_ : cid) (s : string) (chosen old : cid) (known : list (string * cid))
          (w : World),
     OD.get ("create_" ++ member) attrs = None ->
     class_getattr w c ("create_" ++ member) = Some (ADefaultCreate member type_ true) ->
     OD.get (member ++ TYPE_SUFFIX) attrs = Some (VStr s) ->
     fst (Registry.get type_ s w) = Ret chosen ->
     class_lookup cls_known_implementations w c = Some known ->
     OD.get s known = Some old -> old <> chosen ->
     let w1 := snd (Registry.get type_ s w) in
     call_method user_method fuel (VObj c attrs) ("create_" ++ member) w =
     (expand_args_fields fuel chosen [] ;;
      args <- instance_getattr (VObj c attrs) (member ++ "_" ++ s ++ ARGS_SUFFIX) ;;
      kwargs <- kwargs_of args ;;
      obj <- match fuel with
             | O => out_of_fuel
             | S fuel' => instantiate user_method fuel' chosen kwargs
             end ;;
      ret (instance_setattr (VObj c attrs) member obj))
       {| classes := classes w1; registry_mapping := registry_mapping w1;
          warnings := (warnings w1 ++ [NewImplementationWarning s])%list |})
  /\
  (forall (fuel : nat) (user_method : string -> Value -> M World Value),
     let w := ScenarioStale.world (2 + fuel) in
     let construction := construct user_method (4 + fuel) ScenarioA.B
                                   ScenarioA.default_tree w in
     OD.get "A2" (opt_list (cls_known_implementations (get_class w ScenarioA.B)))
       = Some ScenarioA.A2
     /\ fst (Registry.get ScenarioA.A "A2" w) = Ret ScenarioStale.NewA2
     /\ fst construction =
          Ret (VObj ScenarioA.B
                 [ ("a_class_type", VStr "A2");
                   ("a_A1_args", VDict [(KStr "m", VInt 3)]);
                   ("a_A2_args", VDict [(KStr "n", VStr "2")]);
                   ("a", VObj ScenarioStale.NewA2 [("n", VStr "2")]) ])
     /\ warnings (snd construction) = [NewImplementationWarning "A2"]).
Proof.
  split; [|split].
  - intros w y b x By Ny Held run. unfold run.
    rewrite (RegistryFacts.register_eq y b w By Ny). cbn [fst snd].
    rewrite RegistryFacts.registered_entries_same, RegistryFacts.registered_warnings.
    repeat split.
    + apply get_set_eq.
    + intros name Nn. apply get_set_neq. congruence.
  - intros user_method fuel c attrs member type_ s chosen old known w
           Hi Hc Ht Hg Hk Ho Hn w1.
    rewrite (inner_pluggable_stale user_method fuel c attrs member type_ s chosen
               old known w Hi Hc Ht Hg Hk Ho Hn).
    reflexivity.
  - intros fuel user_method. cbv zeta.
    repeat match goal with |- _ /\ _ => split end;
      destruct fuel; vm_compute; reflexivity.
Qed.

Lemma reregistration_and_staleness_witness :
  (let w1 := snd (Registry.register ScenarioTwoRoots.Banana ScenarioTwoRoots.world) in
   let run := Registry.register ScenarioTwoRoots.NewBanana w1 in
   fst run = Ret ScenarioTwoRoots.NewBanana
   /\ OD.get "Banana" (Registry.entries (snd run) ScenarioTwoRoots.Fruit)
      = Some ScenarioTwoRoots.NewBanana
   /\ warnings (snd run) = [])
  /\
  (let w := ScenarioStale.world 2 in
   let attrs := [ ("a_class_type", VStr "A2");
                  ("a_A1_args", VDict [(KStr "m", VInt 3)]);
                  ("a_A2_args", VDict [(KStr "n", VStr "2")]) ] in
   fst (call_method ScenarioA.no_user_method 1 (VObj ScenarioA.B attrs) "create_a" w)
   = Ret (VObj ScenarioA.B
            (attrs ++ [("a", VObj ScenarioStale.NewA2 [("n", VStr "2")])])%list)).
Proof.
  destruct reregistration_and_staleness as (H1 & H2 & _). split.
  - intros w1 run.
    assert (By : Registry._base_class_from_class w1 ScenarioTwoRoots.NewBanana
                 = Some ScenarioTwoRoots.Fruit) by (vm_compute; reflexivity).
    assert (Ny : ScenarioTwoRoots.NewBanana <> ScenarioTwoRoots.Fruit)
      by (vm_compute; discriminate).
    assert (Held : OD.get (cls_name (get_class w1 ScenarioTwoRoots.NewBanana))
                          (Registry.entries w1 ScenarioTwoRoots.Fruit)
                   = Some ScenarioTwoRoots.Banana) by (vm_compute; reflexivity).
    pose proof (H1 w1 ScenarioTwoRoots.NewBanana ScenarioTwoRoots.Fruit
                   ScenarioTwoRoots.Banana By Ny Held) as (R & G & _ & W).
    split; [exact R | split; [exact G | exact W]].
  - intros w attrs. change "create_a" with ("create_" ++ "a").
    rewrite (H2 ScenarioA.no_user_method 1 ScenarioA.B attrs "a" ScenarioA.A "A2"
                ScenarioStale.NewA2 ScenarioA.A2
                [("A1", ScenarioA.A1); ("A2", ScenarioA.A2)] w);
      try (vm_compute; reflexivity); vm_compute; discriminate.
Defined.

(** ** Strings *)

Module PyStrFacts.

Lemma length_append (s t : string) :
  String.length (s ++ t) = String.length s + String.length t.
Proof. induction s as [|c s IH]; simpl; [reflexivity | now rewrite IH]. Qed.

Lemma substring_full (s : string) : substring 0 (String.length s) s = s.
Proof. induction s as [|c s IH]; simpl; [reflexivity | now rewrite IH]. Qed.

Lemma substring_0_append (s t : string) : substring 0 (String.length s) (s ++ t) = s.
Proof.
  induction s as [|c s IH]; simpl.
  - destruct t; reflexivity.
  - now rewrite IH.
Qed.

Lemma substring_skip_append (s t : string) (n : nat) :
  substring (String.length s) n (s ++ t) = substring 0 n t.
Proof. induction s as [|c s IH]; simpl; [reflexivity | exact IH]. Qed.

Lemma substring_split (s : string) (i : nat) :
  i <= String.length s ->
  substring 0 i s ++ substring i (String.length s - i) s = s.
Proof.
  revert i. induction s as [|c s IH]; intros [|i] L; simpl in *; try lia.
  - reflexivity.
  - now rewrite substring_full.
  - rewrite IH by lia. reflexivity.
Qed.

Lemma endswith_append (s suf : string) : PyStr.endswith (s ++ suf) suf = true.
Proof.
  unfold PyStr.endswith. rewrite length_append.
  replace (String.length s + String.length suf - String.length suf)
    with (String.length s) by lia.
  rewrite substring_skip_append, substring_full, String.eqb_refl.
  rewrite andb_true_r. apply Nat.leb_le. lia.
Qed.

Lemma drop_last_append (s suf : string) :
  PyStr.drop_last (String.length suf) (s ++ suf) = s.
Proof.
  unfold PyStr.drop_last. rewrite length_append.
  replace (String.length s + String.length suf - String.length suf)
    with (String.length s) by lia.
  apply substring_0_append.
Qed.

(** A string that ends with [suf] is what is in front of it, then [suf]. *)
Lemma endswith_decompose (s suf : string) :
  PyStr.endswith s suf = true -> s = PyStr.drop_last (String.length suf) s ++ suf.
Proof.
  unfold PyStr.endswith, PyStr.drop_last. intros E.
  apply andb_prop in E. destruct E as [L E].
  apply Nat.leb_le in L. apply String.eqb_eq in E.
  set (i := String.length s - String.length suf).
  transitivity (substring 0 i s ++ substring i (String.length s - i) s).
  - symmetry. apply substring_split. unfold i. lia.
  - f_equal. replace (String.length s - i) with (String.length suf) by (unfold i; lia).
    exact E.
Qed.

Lemma get_last_append (s t : string) (n : nat) (c : ascii) :
  String.get n t = Some c -> String.get (String.length s + n) (s ++ t) = Some c.
Proof.
  intros G. rewrite Nat.add_comm. rewrite <- append_correct2. exact G.
Qed.

(** No key is both a class-type selector and an arguments field. *)
Lemma args_not_class_type (k : string) :
  PyStr.endswith k ARGS_SUFFIX = true -> PyStr.endswith k TYPE_SUFFIX = false.
Proof.
  intros Ea. destruct (PyStr.endswith k TYPE_SUFFIX) eqn:Et; [|reflexivity].
  apply endswith_decompose in Ea. apply endswith_decompose in Et.
  set (p := PyStr.drop_last (String.length ARGS_SUFFIX) k) in *.
  set (q := PyStr.drop_last (String.length TYPE_SUFFIX) k) in *.
  assert (La : String.length k = String.length p + 5)
    by (rewrite Ea at 1; now rewrite length_append).
  assert (Lt : String.length k = String.length q + 11)
    by (rewrite Et at 1; now rewrite length_append).
  assert (Ga : String.get (String.length p + 4) k = Some "s"%char)
    by (rewrite Ea; now apply get_last_append).
  assert (Gt : String.get (String.length q + 10) k = Some "e"%char)
    by (rewrite Et; now apply get_last_append).
  replace (String.length q + 10) with (String.length p + 4) in Gt by lia.
  rewrite Ga in Gt. discriminate.
Qed.

End PyStrFacts.

(** ** The pruner *)

Module PrunerFacts.
Import Pruner.

(** *** Filters *)

Lemma key_eqb_true (a b : Key) : key_eqb a b = true -> a = b.
Proof. intros E. now apply (@keqb_eq Key _ _ a b). Qed.

Lemma filter_filter {A} (f g : A -> bool) (l : list A) :
  filter f (filter g l) = filter (fun x => g x && f x) l.
Proof.
  induction l as [|x l IH]; simpl; [reflexivity|].
  destruct (g x); simpl; [destruct (f x)|]; now rewrite IH.
Qed.

Lemma get_filter_key {V} (g : Key -> bool) (k : Key) (d : list (Key * V)) :
  OD.get k (filter (fun kv => g (fst kv)) d) = if g k then OD.get k d else None.
Proof.
  induction d as [|[k' v] d IH]; simpl.
  - now destruct (g k).
  - destruct (g k') eqn:Gk'; simpl.
    + destruct (key_eqb k k') eqn:E.
      * apply key_eqb_true in E. subst. now rewrite Gk'.
      * exact IH.
    + rewrite IH. destruct (key_eqb k k') eqn:E; [|reflexivity].
      apply key_eqb_true in E. subst. now rewrite Gk'.
Qed.

Lemma keys_filter_key {V} (g : Key -> bool) (d : list (Key * V)) :
  OD.keys (filter (fun kv => g (fst kv)) d) = filter g (OD.keys d).
Proof.
  unfold OD.keys. induction d as [|[k v] d IH]; simpl; [reflexivity|].
  destruct (g k); simpl; now rewrite IH.
Qed.

Lemma mem_filter_key {V} (g : Key -> bool) (k : Key) (d : list (Key * V)) :
  OD.mem k (filter (fun kv => g (fst kv)) d) = g k && OD.mem k d.
Proof. unfold OD.mem. rewrite get_filter_key. now destruct (g k). Qed.

Lemma remove_as_filter {V} (k : Key) (d : list (Key * V)) :
  OD.remove k d = filter (fun kv => negb (key_eqb k (fst kv))) d.
Proof. reflexivity. Qed.

(** *** The keys of a level *)

Lemma In_str_keys (s : string) (d : DictConfig) :
  In s (str_keys d) <-> In (KStr s) (OD.keys d).
Proof.
  induction d as [|[[t|z] v] d IH]; simpl.
  - tauto.
  - rewrite IH. split; intros [E|I]; auto; left; congruence.
  - rewrite IH. split; [auto|]. intros [E|I]; [discriminate | exact I].
Qed.

Lemma mem_str_In (x : string) (l : list string) : mem_str x l = true <-> In x l.
Proof.
  unfold mem_str. rewrite existsb_exists. split.
  - intros (y & I & E). apply String.eqb_eq in E. now subst.
  - intros I. exists x. split; [exact I | apply String.eqb_refl].
Qed.

Lemma In_args_keys (key : string) (keys : list string) :
  In key (args_keys keys) <-> In key keys /\ PyStr.endswith key ARGS_SUFFIX = true.
Proof. unfold args_keys. rewrite filter_In. tauto. Qed.

Lemma In_replaceables (r : string) (keys : list string) :
  In r (replaceables keys) <-> In (r ++ TYPE_SUFFIX) keys.
Proof.
  unfold replaceables. rewrite in_map_iff. split.
  - intros (k & <- & I). apply filter_In in I. destruct I as [I E].
    now rewrite <- (PyStrFacts.endswith_decompose k TYPE_SUFFIX E).
  - intros I. exists (r ++ TYPE_SUFFIX). split.
    + apply PyStrFacts.drop_last_append.
    + apply filter_In. split; [exact I | apply PyStrFacts.endswith_append].
Qed.

(** *** The two loops of a level *)

Lemma delete_loop (p : string -> bool) (keys : list string) (s s' : DictConfig) :
  for_each keys (fun key => if p key then delitem (KStr key) else ret tt) s
  = (Ret tt, s') ->
  s' = filter (fun kv => negb (deleted_in keys p (fst kv))) s.
Proof.
  revert s. induction keys as [|key keys IH]; intros s; simpl.
  - intros [= <-]. symmetry. apply filter_all_true. intros [[t|z] v] _; reflexivity.
  - destruct (p key) eqn:Pk.
    + unfold delitem at 1. step.
      destruct (OD.mem (KStr key) s); step; [|discriminate].
      intros E. apply IH in E. rewrite E, remove_as_filter, filter_filter.
      apply filter_ext. intros [[t|z] v]; simpl; [|reflexivity].
      rewrite (String.eqb_sym t key).
      destruct (String.eqb key t) eqn:Ek; simpl; [|reflexivity].
      apply String.eqb_eq in Ek. subst t. now rewrite Pk.
    + step. intros E. apply IH in E. rewrite E.
      apply filter_ext. intros [[t|z] v]; simpl; [|reflexivity].
      destruct (String.eqb t key) eqn:Ek; simpl; [|reflexivity].
      apply String.eqb_eq in Ek. subst t. rewrite Pk. now rewrite andb_false_r.
Qed.

Lemma deleted_in_args (keys : list string) (p : string -> bool) (k : string) :
  (forall key, In key keys -> PyStr.endswith key ARGS_SUFFIX = true) ->
  deleted_in keys p (KStr (k ++ TYPE_SUFFIX)) = false.
Proof.
  intros Hk. simpl. destruct (mem_str (k ++ TYPE_SUFFIX) keys) eqn:Mk; [|reflexivity].
  apply mem_str_In, Hk, PyStrFacts.args_not_class_type in Mk.
  rewrite PyStrFacts.endswith_append in Mk. discriminate.
Qed.

Lemma deleted_by_ext (s s1 : DictConfig) (rs keys : list string) (k : Key) :
  (forall r, expect_of s1 r = expect_of s r) ->
  deleted_by s1 rs keys k = deleted_by s rs keys k.
Proof.
  intros Same. unfold deleted_by.
  induction rs as [|r rs IH]; simpl; [reflexivity|]. now rewrite Same, IH.
Qed.

Lemma prune_loop (keys rs : list string) (s s' : DictConfig) :
  (forall key, In key keys -> PyStr.endswith key ARGS_SUFFIX = true) ->
  for_each rs (prune_replaceable keys) s = (Ret tt, s') ->
  s' = filter (fun kv => negb (deleted_by s rs keys (fst kv))) s.
Proof.
  intros Hk. revert s. induction rs as [|r rs IH]; intros s; simpl.
  - intros [= <-]. symmetry. apply filter_all_true. intros kv _. reflexivity.
  - unfold prune_replaceable at 1, getitem_str. step. unfold expect_of at 1.
    destruct (OD.get (KStr (r ++ TYPE_SUFFIX)) s) as [[| | |v| | | | |]|];
      step; try discriminate.
    set (e := r ++ "_" ++ v ++ ARGS_SUFFIX).
    unfold bind at 1.
    match goal with
    | |- context [for_each keys ?body s] =>
        destruct (for_each keys body s) as [[[]|x|] s1] eqn:Inner
    end; try discriminate.
    apply delete_loop in Inner. intros E. apply IH in E.
    assert (Same : forall r', expect_of s1 r' = expect_of s r').
    { intros r'. unfold expect_of. rewrite Inner.
      rewrite (get_filter_key (fun k => negb (deleted_in keys (unexpected r e) k))).
      now rewrite deleted_in_args. }
    rewrite E, Inner, filter_filter. apply filter_ext. intros [k x].
    cbn [fst]. rewrite negb_orb. f_equal. f_equal.
    rewrite <- Inner. now apply deleted_by_ext.
Qed.

(** The pruning of one level keeps the entries whose key no member
    deletes, and raises or deletes nothing else. *)
Lemma prune_level_spec (d d1 : DictConfig) :
  prune_level d = (Ret tt, d1) ->
  d1 = filter (fun kv => negb (deleted_by d (replaceables (str_keys d))
                                          (args_keys (str_keys d)) (fst kv))) d.
Proof.
  unfold prune_level. step. apply prune_loop.
  intros key I. now apply In_args_keys in I.
Qed.

(** *** The recursion into the nested trees *)

Lemma prune_value_fused (d : DictConfig) :
  prune_value (VDict d) =
  match prune_level d with
  | (Ret _, d1) => let '(r, d2) := prune_kept prune_value d1 d in (r, VDict d2)
  | (r, d1) => (r, VDict d1)
  end.
Proof. reflexivity. Qed.

Lemma prune_kept_filter (rec_ : Value -> outcome unit * Value) (d1 l : DictConfig) :
  prune_kept rec_ d1 l
  = prune_children rec_ (filter (fun kv => OD.mem (fst kv) d1) l).
Proof.
  induction l as [|[k x] l IH]; [reflexivity|].
  cbn [prune_kept filter fst]. fold (prune_kept rec_ d1 l).
  destruct (OD.mem k d1); [|exact IH].
  cbn [prune_children]. rewrite IH.
  destruct x; try reflexivity.
Qed.

Lemma filter_mem_filtered (g : Key -> bool) (d : DictConfig) :
  filter (fun kv => OD.mem (fst kv) (filter (fun kv => g (fst kv)) d)) d
  = filter (fun kv => g (fst kv)) d.
Proof.
  apply filter_ext_in. intros [k v] I. cbn [fst]. rewrite mem_filter_key.
  assert (M : OD.mem k d = true).
  { apply (mem_In_keys (K:=Key)). unfold OD.keys. change k with (fst (k, v)).
    now apply in_map. }
  rewrite M. apply andb_true_r.
Qed.

(** Lines 700-714 as they are written: the level is pruned, then each
    nested tree that is left. *)
Lemma prune_value_unfold (d : DictConfig) :
  prune_value (VDict d) =
  match prune_level d with
  | (Ret _, d1) => let '(r, d2) := prune_children prune_value d1 in (r, VDict d2)
  | (r, d1) => (r, VDict d1)
  end.
Proof.
  rewrite prune_value_fused.
  destruct (prune_level d) as [[[]|e|] d1] eqn:L; try reflexivity.
  rewrite prune_kept_filter. apply prune_level_spec in L.
  set (g := fun k => negb (deleted_by d (replaceables (str_keys d))
                                      (args_keys (str_keys d)) k)) in *.
  change (d1 = filter (fun kv => g (fst kv)) d) in L.
  replace (filter (fun kv => OD.mem (fst kv) d1) d) with d1; [reflexivity|].
  rewrite L. now rewrite (filter_mem_filtered g d).
Qed.

Lemma prune_children_spec (rec_ : Value -> outcome unit * Value) (l l' : DictConfig) :
  prune_children rec_ l = (Ret tt, l') -> Forall2 (child_rel rec_) l l'.
Proof.
  revert l'. induction l as [|[k x] l IH]; intros l'; cbn [prune_children].
  - intros [= <-]. constructor.
  - assert (Plain : (forall sub, x <> VDict sub) ->
                    (let '(r, rest') := prune_children rec_ l in (r, (k, x) :: rest'))
                    = (Ret tt, l') ->
                    Forall2 (child_rel rec_) ((k, x) :: l) l').
    { intros Nd. destruct (prune_children rec_ l) as [r rest'].
      intros [= -> <-]. constructor; [|now apply IH].
      split; [reflexivity|]. left. split; [exact Nd | reflexivity]. }
    destruct x; try (apply Plain; intros sub; discriminate).
    destruct (rec_ (VDict d)) as [[[]|e|] x'] eqn:R; try discriminate.
    destruct (prune_children rec_ l) as [r rest'].
    intros [= -> <-]. constructor; [|now apply IH].
    split; [reflexivity|]. right. exists d. split; [reflexivity | exact R].
Qed.

Lemma child_rel_keys (rec_ : Value -> outcome unit * Value) (l l' : DictConfig) :
  Forall2 (child_rel rec_) l l' -> OD.keys l' = OD.keys l.
Proof.
  unfold OD.keys. induction 1 as [|kv kv' l l' [E _] _ IH]; simpl; [reflexivity|].
  now rewrite E, IH.
Qed.

Lemma child_rel_get (rec_ : Value -> outcome unit * Value) (l l' : DictConfig)
    (k : Key) (v' : Value) :
  Forall2 (child_rel rec_) l l' -> OD.get k l' = Some v' ->
  exists v, OD.get k l = Some v /\
            (((forall sub, v <> VDict sub) /\ v' = v)
             \/ (exists sub, v = VDict sub /\ rec_ (VDict sub) = (Ret tt, v'))).
Proof.
  induction 1 as [|[k0 x] [k0' x'] l l' [E R] _ IH]; simpl; [discriminate|].
  simpl in E, R. subst k0'. destruct (key_eqb k k0).
  - intros [= <-]. exists x. split; [reflexivity | exact R].
  - exact IH.
Qed.

(** Induction on a value whose nested trees satisfy the property. *)
Fixpoint Value_dict_ind (P : Value -> Prop)
    (Hleaf : forall v, (forall d, v <> VDict d) -> P v)
    (Hdict : forall d, Forall (fun kv => P (snd kv)) d -> P (VDict d))
    (v : Value) {struct v} : P v :=
match v with
| VDict d =>
    Hdict d
      ((fix entries (l : list (Key * Value)) : Forall (fun kv => P (snd kv)) l :=
          match l with
          | [] => Forall_nil _
          | (k, x) :: rest =>
              Forall_cons (k, x) (Value_dict_ind P Hleaf Hdict x) (entries rest)
          end) d)
| VNone => Hleaf VNone (fun d E => match E with end)
| VBool b => Hleaf (VBool b) (fun d E => match E with end)
| VInt z => Hleaf (VInt z) (fun d E => match E with end)
| VStr s => Hleaf (VStr s) (fun d E => match E with end)
| VMissing => Hleaf VMissing (fun d E => match E with end)
| VList l => Hleaf (VList l) (fun d E => match E with end)
| VObj c a => Hleaf (VObj c a) (fun d E => match E with end)
| VOpaque => Hleaf VOpaque (fun d E => match E with end)
end.

End PrunerFacts.

Module PrunerCorrect.
Import Pruner PrunerFacts.

Lemma prune_value_Pruned :
  forall v d v', v = VDict d -> prune_value v = (Ret tt, v') ->
                 exists d', v' = VDict d' /\ Pruned d d'.
Proof.
  apply (Value_dict_ind
           (fun v => forall d v', v = VDict d -> prune_value v = (Ret tt, v') ->
                                  exists d', v' = VDict d' /\ Pruned d d')).
  { intros v0 Nd d v' E. now destruct (Nd d). }
  intros d0 IH d v' [= <-]. rewrite prune_value_unfold.
  destruct (prune_level d0) as [[[]|e|] d1] eqn:L; try discriminate.
  destruct (prune_children prune_value d1) as [r d2] eqn:C.
  intros [= -> <-]. exists d2. split; [reflexivity|].
  pose proof (prune_level_spec d0 d1 L) as Hd1.
  set (rs := replaceables (str_keys d0)) in *.
  set (aks := args_keys (str_keys d0)) in *.
  set (g := fun k => negb (deleted_by d0 rs aks k)) in *.
  change (d1 = filter (fun kv => g (fst kv)) d0) in Hd1.
  pose proof (prune_children_spec _ _ _ C) as F2.
  assert (K2 : OD.keys d2 = filter g (OD.keys d0)).
  { rewrite (child_rel_keys _ _ _ F2), Hd1. apply keys_filter_key. }
  constructor.
  - (* the unselected fields of a member are gone *)
    intros member v key Hget Hin Hgen Hne Hin2.
    rewrite K2 in Hin2. apply filter_In in Hin2. destruct Hin2 as [_ Gk].
    unfold g in Gk. apply negb_true_iff in Gk.
    assert (D : deleted_by d0 rs aks (KStr key) = true); [|congruence].
    unfold deleted_by. apply existsb_exists. exists member. split.
    + apply In_replaceables, In_str_keys. apply (mem_In_keys (K:=Key)).
      unfold OD.mem. now rewrite Hget.
    + unfold expect_of. rewrite Hget. simpl.
      unfold generated_for in Hgen. apply andb_prop in Hgen. destruct Hgen as [St En].
      apply andb_true_intro. split.
      * apply mem_str_In, In_args_keys. split; [now apply In_str_keys | exact En].
      * unfold unexpected. rewrite St. simpl. apply negb_true_iff.
        now apply String.eqb_neq.
  - (* nothing else is gone *)
    intros k Hin Hout.
    assert (Gk : g k = false).
    { destruct (g k) eqn:Gk; [|reflexivity]. exfalso. apply Hout.
      rewrite K2. apply filter_In. auto. }
    unfold g in Gk. apply negb_false_iff in Gk.
    unfold deleted_by in Gk. apply existsb_exists in Gk.
    destruct Gk as (r & Hr & Hd).
    destruct (expect_of d0 r) as [e|]; [|discriminate].
    destruct k as [key|z]; [|discriminate]. simpl in Hd.
    apply andb_prop in Hd. destruct Hd as [Mk Un].
    apply mem_str_In, In_args_keys in Mk. destruct Mk as [_ En].
    unfold unexpected in Un. apply andb_prop in Un. destruct Un as [St _].
    exists r, key. split; [reflexivity|]. split.
    + now apply In_str_keys, In_replaceables.
    + unfold generated_for. now rewrite St, En.
  - (* order *)
    rewrite K2. apply filter_ext_in. intros k Hin.
    destruct (g k) eqn:Gk.
    + symmetry. apply (mem_In_keys (K:=Key)). rewrite K2. apply filter_In. auto.
    + destruct (OD.mem k d2) eqn:M; [|reflexivity].
      apply (mem_In_keys (K:=Key)) in M. rewrite K2 in M.
      apply filter_In in M. destruct M as [_ M]. congruence.
  - (* the nested trees *)
    intros k v' Hget.
    destruct (child_rel_get _ _ _ k v' F2 Hget) as (v & G1 & R).
    rewrite Hd1, (get_filter_key g) in G1.
    destruct (g k); [|discriminate].
    exists v. split; [exact G1|].
    destruct R as [R|(sub & -> & R)]; [now left | right].
    rewrite Forall_forall in IH.
    specialize (IH (k, VDict sub) (get_In _ _ _ G1) sub v' eq_refl R).
    destruct IH as (sub' & -> & P). exists sub, sub'. auto.
Qed.

End PrunerCorrect.

(** C8.  When [remove_unused_components] returns, then at every nesting
    level of the tree, for every key [<member>_class_type] with value [v]
    every sibling key that starts with [<member>_] and ends with [_args],
    other than [<member>_<v>_args], has been deleted; no key has been
    deleted that is not such a generated field of a member whose selector
    is at that level; what is left is in its original order; and every
    nested tree that is left has been pruned in the same way.  In Scenario
    A the pruning deletes [a_A1_args] and nothing else. *)
Theorem remove_unused_components_postcondition :
  (forall (dict_ d' : DictConfig),
     Pruner.remove_unused_components dict_ = (Ret tt, d') -> Pruner.Pruned dict_ d')
  /\ Pruner.remove_unused_components ScenarioA.default_tree
     = (Ret tt, ScenarioA.pruned_tree).
Proof.
  split; [|reflexivity].
  intros dict_ d'. unfold Pruner.remove_unused_components.
  destruct (Pruner.prune_value (VDict dict_)) as [r v'] eqn:E.
  destruct r as [[]|e|].
  - destruct (PrunerCorrect.prune_value_Pruned (VDict dict_) dict_ v' eq_refl E)
      as (d2 & -> & P).
    now intros [= <-].
  - destruct v'; discriminate.
  - destruct v'; discriminate.
Qed.

Lemma remove_unused_components_postcondition_witness :
  Pruner.Pruned ScenarioA.default_tree ScenarioA.pruned_tree.
Proof.
  destruct remove_unused_components_postcondition as [H E].
  apply H. exact E.
Defined.

(** ** The processing of one member *)

Module MemberFacts.

Lemma put_class_get_class (c : cid) (w : World) :
  put_class c (get_class w c) w = w.
Proof.
  unfold put_class, update_class, get_class. destruct w as [cl rm wa]. simpl. f_equal.
  revert c. induction cl as [|k cl IH]; intros [|c]; simpl; try reflexivity.
  f_equal. apply IH.
Qed.

Lemma update_put_class (c : cid) (f : PyClass -> PyClass) (k : PyClass) (w : World) :
  update_class c f (put_class c k w) = put_class c (f k) w.
Proof.
  unfold put_class, update_class. simpl. f_equal.
  generalize (classes w). intros cl. revert c.
  induction cl as [|k0 cl IH]; intros [|c]; simpl; try reflexivity.
  f_equal. apply IH.
Qed.

Lemma get_put_class_same (c : cid) (k : PyClass) (w : World) :
  c < List.length (classes w) -> get_class (put_class c k w) c = k.
Proof. intros L. unfold put_class. now rewrite get_class_update_same. Qed.

Lemma get_put_class_other (c x : cid) (k : PyClass) (w : World) :
  c <> x -> get_class (put_class c k w) x = get_class w x.
Proof. intros N. unfold put_class. now rewrite get_class_update_other. Qed.

Lemma registry_put_class (c : cid) (k : PyClass) (w : World) :
  registry_mapping (put_class c k w) = registry_mapping w.
Proof. reflexivity. Qed.

Lemma touched_put_class (b c : cid) (k : PyClass) (w : World) :
  touched b (put_class c k w) = put_class c k (touched b w).
Proof.
  unfold touched. rewrite registry_put_class.
  destruct (OD.get b (registry_mapping w)); reflexivity.
Qed.

Lemma entries_put_class (b c : cid) (k : PyClass) (w : World) :
  Registry.entries (put_class c k w) b = Registry.entries w b.
Proof. reflexivity. Qed.

Lemma same_static_put_class (c : cid) (k : PyClass) (w : World) :
  cls_name k = cls_name (get_class w c) ->
  cls_bases k = cls_bases (get_class w c) ->
  cls_mro k = cls_mro (get_class w c) ->
  same_static w (put_class c k w).
Proof.
  intros N B Mr x. destruct (Nat.eq_dec c x) as [<-|Nx].
  - destruct (Nat.lt_ge_cases c (List.length (classes w))) as [Lt|Ge].
    + rewrite get_put_class_same by exact Lt. auto.
    + unfold put_class. rewrite get_class_update_dangling by exact Ge. auto.
  - rewrite get_put_class_other by exact Nx. auto.
Qed.

Lemma same_static_touched (b : cid) (w w' : World) :
  same_static w w' -> same_static w (touched b w').
Proof.
  intros S x. rewrite (RegistryFacts.get_class_classes w')
    by apply RegistryFacts.touched_classes. apply S.
Qed.

Lemma issubclass_same_static (w w' : World) (c d : cid) :
  same_static w w' -> issubclass w' c d = issubclass w c d.
Proof. intros S. unfold issubclass. destruct (S c) as (_ & _ & ->). reflexivity. Qed.

Lemma is_base_class_same_static (w w' : World) (c : cid) :
  same_static w w' -> Registry._is_base_class w' c = Registry._is_base_class w c.
Proof.
  intros S. unfold Registry._is_base_class. destruct (S c) as (_ & -> & _). reflexivity.
Qed.

(** *** The class operations, on a state in which the class is known *)

Section OnClass.
Variables (c : cid) (w : World).
Hypothesis valid : c < List.length (classes w).

Lemma annotations_of_put (k : PyClass) (a : list (string * Ty)) :
  cls_annotations k = Some a ->
  annotations_of c (put_class c k w) = (Ret a, put_class c k w).
Proof.
  intros E. unfold annotations_of. step.
  rewrite get_put_class_same by exact valid. now rewrite E.
Qed.

Lemma bind_annotations_of_put {B} (k : PyClass) (a : list (string * Ty))
    (cont : list (string * Ty) -> M World B) :
  cls_annotations k = Some a ->
  bind (annotations_of c) cont (put_class c k w) = cont a (put_class c k w).
Proof. intros E. unfold bind. now rewrite (annotations_of_put k a E). Qed.

Lemma put_annotations_put (k : PyClass) (a : list (string * Ty)) :
  put_annotations c a (put_class c k w)
  = (Ret tt, put_class c (with_annotations (Some a) k) w).
Proof. unfold put_annotations. step. now rewrite update_put_class. Qed.

Lemma has_annotation_put (k : PyClass) (a : list (string * Ty)) (name : string) :
  cls_annotations k = Some a ->
  has_annotation c name (put_class c k w) = (Ret (OD.mem name a), put_class c k w).
Proof.
  intros E. unfold has_annotation. now rewrite (bind_annotations_of_put k a _ E).
Qed.

Lemma set_annotation_put (k : PyClass) (a : list (string * Ty)) (name : string)
    (ty : Ty) :
  cls_annotations k = Some a ->
  set_annotation c name ty (put_class c k w)
  = (Ret tt, put_class c (with_annotations (Some (OD.set name ty a)) k) w).
Proof.
  intros E. unfold set_annotation. rewrite (bind_annotations_of_put k a _ E).
  apply put_annotations_put.
Qed.

Lemma del_annotation_put (k : PyClass) (a : list (string * Ty)) (name : string) :
  cls_annotations k = Some a ->
  del_annotation c name (put_class c k w)
  = if OD.mem name a
    then (Ret tt, put_class c (with_annotations (Some (OD.remove name a)) k) w)
    else (Raise (KeyError (KStr name)), put_class c k w).
Proof.
  intros E. unfold del_annotation. rewrite (bind_annotations_of_put k a _ E).
  destruct (OD.mem name a); [apply put_annotations_put | reflexivity].
Qed.

Lemma class_setattr_put (k : PyClass) (name : string) (a : Attr) :
  class_setattr c name a (put_class c k w)
  = (Ret tt, put_class c (with_attrs (OD.set name a (cls_attrs k)) k) w).
Proof.
  unfold class_setattr. step. now rewrite update_put_class.
Qed.

Lemma bind_has_annotation_put {B} (k : PyClass) (a : list (string * Ty))
    (name : string) (cont : bool -> M World B) :
  cls_annotations k = Some a ->
  bind (has_annotation c name) cont (put_class c k w)
  = cont (OD.mem name a) (put_class c k w).
Proof. intros E. unfold bind. now rewrite (has_annotation_put k a name E). Qed.

Lemma bind_set_annotation_put {B} (k : PyClass) (a : list (string * Ty))
    (name : string) (ty : Ty) (cont : unit -> M World B) :
  cls_annotations k = Some a ->
  bind (set_annotation c name ty) cont (put_class c k w)
  = cont tt (put_class c (with_annotations (Some (OD.set name ty a)) k) w).
Proof. intros E. unfold bind. now rewrite (set_annotation_put k a name ty E). Qed.

Lemma bind_class_setattr_put {B} (k : PyClass) (name : string) (a : Attr)
    (cont : unit -> M World B) :
  bind (class_setattr c name a) cont (put_class c k w)
  = cont tt (put_class c (with_attrs (OD.set name a (cls_attrs k)) k) w).
Proof. unfold bind. now rewrite class_setattr_put. Qed.

End OnClass.

Lemma with_annotations_twice a b (k : PyClass) :
  with_annotations a (with_annotations b k) = with_annotations a k.
Proof. reflexivity. Qed.

Lemma with_attrs_annotations_norm a n a' n' (k : PyClass) :
  with_attrs a (with_annotations n (with_attrs a' (with_annotations n' k)))
  = with_attrs a (with_annotations n k).
Proof. reflexivity. Qed.

Lemma cls_attrs_with_attrs a (k : PyClass) : cls_attrs (with_attrs a k) = a.
Proof. reflexivity. Qed.

Lemma process_fixed_member (w : World) (name : string) (type_ c : cid)
    (cf : list string) (dnp : list cid) (known : list (string * cid))
    (anns : list (string * Ty)) :
  c < List.length (classes w) ->
  cls_annotations (get_class w c) = Some anns ->
  _process_member name type_ false c cf dnp known w =
  if negb (OD.mem name anns) then (Raise (KeyError (KStr name)), w)
  else
    let w1 := put_class c (with_annotations (Some (OD.remove name anns)) (get_class w c)) w in
    if OD.mem (name ++ ARGS_SUFFIX) (OD.remove name anns)
    then (Raise (ValueError (AlreadyPresent (name ++ ARGS_SUFFIX))), w1)
    else if issubclass w type_ c || mem_nat type_ dnp
    then (Raise (ValueError (CannotProcessInside type_ c)), w1)
    else (Ret (app cf ["create_" ++ name], known),
          put_class c (fixed_member_class w c name type_ dnp anns) w).
Proof.
  intros V Ha. unfold _process_member.
  rewrite <- (put_class_get_class c w) at 1.
  unfold bind at 1. rewrite (del_annotation_put c w V _ anns name Ha).
  destruct (OD.mem name anns); cbn [negb]; [|now rewrite put_class_get_class].
  cbv zeta. set (k1 := with_annotations (Some (OD.remove name anns)) (get_class w c)).
  assert (Ha1 : cls_annotations k1 = Some (OD.remove name anns)) by reflexivity.
  rewrite bind_assoc.
  rewrite (bind_has_annotation_put c w V k1 _ (name ++ ARGS_SUFFIX) _ Ha1).
  destruct (OD.mem (name ++ ARGS_SUFFIX) (OD.remove name anns)); step; [reflexivity|].
  assert (Sub : issubclass (put_class c k1 w) type_ c = issubclass w type_ c).
  { apply issubclass_same_static. now apply same_static_put_class. }
  rewrite Sub. destruct (issubclass w type_ c || mem_nat type_ dnp); step; [reflexivity|].
  rewrite (bind_set_annotation_put c w V k1 _ _ _ _ Ha1).
  rewrite bind_assoc, bind_class_setattr_put. step.
  unfold fixed_member_class, with_creation_function. cbv zeta.
  subst k1. rewrite !with_annotations_twice. unfold get_default_args_field.
  match goal with |- context [hasattr ?s c ?n] => destruct (hasattr s c n) end; step.
  - reflexivity.
  - rewrite bind_class_setattr_put. reflexivity.
Qed.

(** *** A pluggable member *)

Lemma set_new {K V} `{EqKeyLaws K} (k : K) (v : V) (d : list (K * V)) :
  OD.mem k d = false -> OD.set k v d = (d ++ [(k, v)])%list.
Proof.
  unfold OD.mem. induction d as [|[k' v'] d IH]; simpl; [reflexivity|].
  destruct (keqb k k'); [discriminate|]. intros M. now rewrite IH.
Qed.

Lemma process_derived_types (w : World) (name : string) (c : cid) (dnp : list cid)
    (V : c < List.length (classes w)) (derived : list cid) :
  forall (k : PyClass) (a : list (string * Ty)) (known known' : list (string * cid))
         (s' : World),
    cls_annotations k = Some a ->
    cls_name k = cls_name (get_class w c) ->
    cls_bases k = cls_bases (get_class w c) ->
    cls_mro k = cls_mro (get_class w c) ->
    for_fold derived known (process_derived_type name c dnp) (put_class c k w)
    = (Ret known', s') ->
    let impls := kept_implementations w c dnp derived in
    s' = put_class c
           (with_attrs
              (fold_left (fun at_ d => OD.set (impl_args_name w name d)
                                              (AField (TClass d) (dnp ++ [c])%list) at_)
                         impls (cls_attrs k))
              (with_annotations
                 (Some (a ++ map (fun d => (impl_args_name w name d, TyClass DICTCONFIG))
                                 impls)%list) k)) w
    /\ known' = fold_left (fun kn d => OD.set (cls_name (get_class w d)) d kn)
                          impls known.
Proof.
  induction derived as [|d derived IH]; intros k a known known' s' Ha Hn Hb Hm.
  - cbn [for_fold]. intros [= <- <-]. cbn. rewrite app_nil_r. split; [|reflexivity].
    f_equal. destruct k. cbn in *. now subst.
  - cbn [for_fold]. unfold process_derived_type at 1.
    unfold kept_implementations. cbn [filter].
    fold (kept_implementations w c dnp derived).
    destruct (mem_nat d dnp); cbn [negb andb].
    { rewrite bind_ret. apply IH; assumption. }
    rewrite bind_assoc, bind_get_state.
    assert (St : same_static w (put_class c k w))
      by now apply same_static_put_class.
    rewrite (issubclass_same_static w _ d c St).
    destruct (issubclass w d c); cbn [negb].
    { rewrite bind_ret. apply IH; assumption. }
    cbv zeta. destruct (St d) as (-> & _ & _).
    fold (impl_args_name w name d).
    rewrite bind_assoc, (bind_has_annotation_put c w V k a _ _ Ha).
    destruct (OD.mem (impl_args_name w name d) a) eqn:Present; [discriminate|].
    rewrite bind_assoc, (bind_set_annotation_put c w V k a _ _ _ Ha).
    rewrite bind_assoc, bind_class_setattr_put, !bind_ret.
    intros E. apply IH with (a := OD.set (impl_args_name w name d) (TyClass DICTCONFIG) a)
      in E; try reflexivity; try assumption.
    destruct E as [-> ->]. split; [|reflexivity].
    cbn [map fold_left]. rewrite (set_new _ _ _ Present), <- app_assoc.
    f_equal.
Qed.

Lemma process_pluggable_member (w : World) (name : string) (type_ c : cid)
    (cf : list string) (dnp : list cid) (known : list (string * cid))
    (anns : list (string * Ty)) (cf' : list string) (known' : list (string * cid))
    (w' : World) :
  c < List.length (classes w) ->
  cls_annotations (get_class w c) = Some anns ->
  Registry._is_base_class w type_ = true ->
  _process_member name type_ true c cf dnp known w = (Ret (cf', known'), w') ->
  OD.mem name anns = true
  /\ cf' = app cf ["create_" ++ name]
  /\ known' = fold_left (fun kn d => OD.set (cls_name (get_class w d)) d kn)
                        (kept_implementations w c dnp
                           (OD.values (Registry.entries w type_))) known
  /\ w' = put_class c (pluggable_member_class w c name type_ dnp anns)
                    (touched type_ w).
Proof.
  intros V Ha Hb. unfold _process_member.
  rewrite <- (put_class_get_class c w) at 1.
  unfold bind at 1. rewrite (del_annotation_put c w V _ anns name Ha).
  destruct (OD.mem name anns); [|discriminate].
  cbv zeta. set (k0 := get_class w c).
  set (k1 := with_annotations (Some (OD.remove name anns)) k0).
  assert (Ha1 : cls_annotations k1 = Some (OD.remove name anns)) by reflexivity.
  rewrite !bind_assoc.
  rewrite (bind_has_annotation_put c w V k1 _ (name ++ TYPE_SUFFIX) _ Ha1).
  rewrite !bind_assoc.
  set (declared := OD.mem (name ++ TYPE_SUFFIX) (OD.remove name anns)).
  set (anns1 := if declared then OD.remove name anns
                else app (OD.remove name anns) [(name ++ TYPE_SUFFIX, TyClass STR)]).
  set (attrs1 := if declared then cls_attrs k0
                 else OD.set (name ++ TYPE_SUFFIX) (AVal (VStr "UNDEFAULTED"))
                             (cls_attrs k0)).
  set (k2 := with_attrs attrs1 (with_annotations (Some anns1) k0)).
  match goal with
  | |- bind ?m ?cont _ = _ -> _ =>
      assert (Step : bind m cont (put_class c k1 w) = cont tt (put_class c k2 w))
  end.
  { unfold k2, anns1, attrs1. destruct declared eqn:D.
    - rewrite bind_ret. reflexivity.
    - rewrite bind_assoc, (bind_set_annotation_put c w V k1 _ _ _ _ Ha1).
      rewrite bind_class_setattr_put. subst k1. rewrite with_annotations_twice.
      rewrite (set_new _ _ _ D). reflexivity. }
  rewrite Step. clear Step. rewrite ?bind_assoc.
  assert (St : same_static w (put_class c k2 w)).
  { apply same_static_put_class; unfold k2, attrs1, anns1;
      destruct declared; reflexivity. }
  assert (Ga : Registry.get_all type_ (put_class c k2 w)
               = (Ret (OD.values (Registry.entries w type_)),
                  put_class c k2 (touched type_ w))).
  { unfold Registry.get_all. rewrite bind_get_state.
    rewrite (is_base_class_same_static w _ type_ St), Hb.
    rewrite RegistryFacts.bind_namespace, touched_put_class. reflexivity. }
  rewrite (bind_ret_eq _ _ _ _ _ Ga).
  set (wt := touched type_ w) in *.
  assert (Vt : c < List.length (classes wt))
    by (unfold wt; now rewrite RegistryFacts.touched_classes).
  assert (Gt : forall x, get_class wt x = get_class w x)
    by (intros x; apply RegistryFacts.get_class_classes, RegistryFacts.touched_classes).
  match goal with
  | |- bind (for_fold ?l ?acc ?body) ?cont ?s = _ -> _ =>
      destruct (for_fold l acc body s) as [[kn| |] s1] eqn:Loop;
        unfold bind at 1; rewrite Loop; try discriminate
  end.
  assert (Ha2 : cls_annotations k2 = Some anns1) by reflexivity.
  pose proof (process_derived_types wt name c dnp Vt
                (OD.values (Registry.entries w type_)) k2 anns1 known kn s1 Ha2) as PD.
  assert (Hn2 : cls_name k2 = cls_name (get_class wt c))
    by (rewrite Gt; unfold k2, attrs1, anns1; destruct declared; reflexivity).
  assert (Hb2 : cls_bases k2 = cls_bases (get_class wt c))
    by (rewrite Gt; unfold k2, attrs1, anns1; destruct declared; reflexivity).
  assert (Hm2 : cls_mro k2 = cls_mro (get_class wt c))
    by (rewrite Gt; unfold k2, attrs1, anns1; destruct declared; reflexivity).
  specialize (PD Hn2 Hb2 Hm2 Loop). cbv zeta in PD. destruct PD as [-> ->].
  rewrite bind_get_state.
  unfold pluggable_member_class, with_creation_function. cbv zeta.
  fold k0 declared anns1 attrs1 wt.
  unfold kept_implementations, impl_args_name, issubclass, get_class.
  assert (Cw : classes wt = classes w) by apply RegistryFacts.touched_classes.
  rewrite !Cw. fold (get_class w c). fold k0.
  unfold k2. rewrite !with_attrs_annotations_norm, !cls_attrs_with_attrs.
  match goal with |- context [hasattr ?s c ?n] => destruct (hasattr s c n) end.
  - rewrite !bind_ret. intros [= <- <- <-]. auto.
  - rewrite bind_class_setattr_put, ?bind_ret, ?ret_apply. intros [= <- <- <-]. auto.
Qed.

End MemberFacts.

(** ** Classification of members and generation of fields *)


Lemma classify_member_cases (w : World) (t : cid) :
  let direct := issubclass w t REPLACEABLE_BASE = true
                /\ In REPLACEABLE_BASE (cls_bases (get_class w t)) in
  (classify_member w (TyClass t) = Some true <-> direct)
  /\ (classify_member w (TyClass t) = Some false <->
      ~ direct /\ issubclass w t CONFIGURABLE = true)
  /\ (classify_member w (TyClass t) = None <->
      ~ direct /\ issubclass w t CONFIGURABLE = false).
Proof.
  cbv zeta. unfold classify_member. rewrite <- mem_nat_In.
  destruct (issubclass w t REPLACEABLE_BASE);
    destruct (mem_nat REPLACEABLE_BASE (cls_bases (get_class w t)));
    destruct (issubclass w t CONFIGURABLE); cbn [andb];
    repeat split; intros; try discriminate; try tauto;
      try (intros [? ?]; discriminate);
      match goal with
      | H : _ /\ _ |- _ => destruct H as [H1 H2]; try discriminate;
                           exfalso; apply H1; split; reflexivity
      end.
Qed.

Lemma In_members_to_process (w : World) (anns : list (string * Ty)) (name : string)
    (t : cid) (p : bool) :
  In (name, t, p) (members_to_process w anns) <->
  In (name, TyClass t) anns /\ classify_member w (TyClass t) = Some p.
Proof.
  induction anns as [|[n ty] anns IH]; cbn [members_to_process In]; [tauto|].
  destruct ty as [t'|descr].
  - destruct (classify_member w (TyClass t')) as [p'|] eqn:C.
    + cbn [In]. rewrite IH. split.
      * intros [[= -> -> ->]|[I Cl]]; auto.
      * intros [[[= -> ->]|I] Cl]; [left; congruence | right; auto].
    + rewrite IH. split.
      * intros [I Cl]. auto.
      * intros [[[= -> ->]|I] Cl]; [congruence | auto].
  - rewrite IH. split.
    + intros [I Cl]. auto.
    + intros [[E|I] Cl]; [discriminate | auto].
Qed.

Lemma create_name_not_args (name : string) : "create_" ++ name <> name ++ ARGS_SUFFIX.
Proof.
  intros E. apply (f_equal String.length) in E.
  rewrite !PyStrFacts.length_append in E. simpl in E. lia.
Qed.

Lemma annotations_with_creation_function w c name t p k :
  cls_annotations (with_creation_function w c name t p k)
  = cls_annotations k.
Proof.
  unfold with_creation_function. now destruct (hasattr _ _ _).
Qed.



(** ** Members whose type leads back to the class being expanded *)

Lemma mem_set {V} (k k' : string) (v : V) (d : list (string * V)) :
  OD.mem k' d = true -> OD.mem k' (OD.set k v d) = true.
Proof.
  unfold OD.mem. destruct (key_dec k k') as [->|N].
  - now rewrite get_set_eq.
  - now rewrite get_set_neq.
Qed.

Module CycleFacts.

Section Annotated.
Variable w0 : World.
Variable c : cid.

Lemma annotated_update (l l' : list string) (f : PyClass -> PyClass)
    (a' : list (string * Ty)) (s : World) :
  annotated w0 c l s ->
  (forall k, cls_mro (f k) = cls_mro k) ->
  cls_annotations (f (get_class s c)) = Some a' ->
  (forall n, In n l' -> OD.mem n a' = true) ->
  annotated w0 c l' (update_class c f s).
Proof.
  intros (L & Mr & _) Hf A' Ha'. split; [|split].
  - unfold update_class. simpl. now rewrite length_list_update.
  - intros x. destruct (Nat.eq_dec x c) as [->|N].
    + rewrite get_class_update_same by exact L. now rewrite Hf.
    + rewrite get_class_update_other by congruence. apply Mr.
  - exists a'. rewrite get_class_update_same by exact L. auto.
Qed.

Lemma annotated_classes (l : list string) (s s' : World) :
  classes s' = classes s -> annotated w0 c l s -> annotated w0 c l s'.
Proof.
  intros C (L & Mr & a & A & Ha). unfold annotated, get_class in *.
  rewrite C. eauto 6.
Qed.

Lemma has_annotation_annotated (l : list string) (k : string) (s : World) :
  annotated w0 c l s -> exists b, has_annotation c k s = (Ret b, s).
Proof.
  intros (_ & _ & a & A & _). unfold has_annotation, annotations_of.
  step. rewrite A. step. eauto.
Qed.

Lemma set_annotation_annotated (l : list string) (k : string) (ty : Ty) :
  triple (annotated w0 c l) (set_annotation c k ty) (fun _ => annotated w0 c l) value_error.
Proof.
  intros s I. pose proof I as (_ & _ & a & A & Ha).
  unfold set_annotation, annotations_of, put_annotations.
  step. rewrite A. step. simpl.
  apply (annotated_update l l _ (OD.set k ty a)); auto.
  intros n In_. apply mem_set. auto.
Qed.

Lemma class_setattr_annotated (l : list string) (k : string) (v : Attr) :
  triple (annotated w0 c l) (class_setattr c k v) (fun _ => annotated w0 c l) value_error.
Proof.
  intros s I. pose proof I as (_ & _ & a & A & Ha).
  unfold class_setattr. simpl.
  apply (annotated_update l l _ a); auto.
Qed.

Lemma del_annotation_annotated (l : list string) (n : string) :
  ~ In n l ->
  triple (annotated w0 c (n :: l)) (del_annotation c n) (fun _ => annotated w0 c l) value_error.
Proof.
  intros N s I. pose proof I as (_ & _ & a & A & Ha).
  unfold del_annotation, annotations_of, put_annotations.
  step. rewrite A. step. rewrite (Ha n) by now left. simpl.
  apply (annotated_update (n :: l) l _ (OD.remove n a)); auto.
  intros m Im. rewrite mem_remove. rewrite (Ha m) by now right.
  rewrite keqb_neq; [reflexivity|]. intros ->. contradiction.
Qed.

Lemma get_all_annotated (l : list string) (t : cid) :
  triple (annotated w0 c l) (Registry.get_all t) (fun _ => annotated w0 c l) value_error.
Proof.
  intros s I. pose proof (RegistryFacts.get_all_eq t s) as O.
  pose proof (get_all_classes t s) as C.
  destruct (Registry.get_all t s) as [o s']. simpl in O, C.
  assert (I' : annotated w0 c l s') by (eapply annotated_classes; eauto).
  destruct (Registry._is_base_class s t); [now subst o|].
  destruct (Registry._base_class_from_class s t); now subst o.
Qed.

Lemma triple_has_annotation {B} (l : list string) (k : string)
    (m : bool -> M World B) (Q : B -> World -> Prop) :
  (forall b, triple (annotated w0 c l) (m b) Q value_error) ->
  triple (annotated w0 c l) (bind (has_annotation c k) m) Q value_error.
Proof.
  intros T s I. destruct (has_annotation_annotated l k s I) as [b E].
  unfold bind. rewrite E. now apply T.
Qed.

Lemma triple_then {A B} (l : list string) (m : M World A) (k : A -> M World B) :
  triple (annotated w0 c l) m (fun _ => annotated w0 c l) value_error ->
  (forall a, triple (annotated w0 c l) (k a) (fun _ => annotated w0 c l) value_error) ->
  triple (annotated w0 c l) (bind m k) (fun _ => annotated w0 c l) value_error.
Proof. intros Tm Tk. eapply triple_bind; eauto. Qed.

Lemma triple_state {B} (l : list string) (k : World -> M World B)
    (Q : B -> World -> Prop) :
  (forall w, annotated w0 c l w -> triple (annotated w0 c l) (k w) Q value_error) ->
  triple (annotated w0 c l) (bind get_state k) Q value_error.
Proof. intros T s I. rewrite bind_get_state. now apply T. Qed.

Ltac annotated_structure :=
intros;
lazymatch goal with
| |- triple _ (ret _) _ _ => apply triple_ret; intros; assumption
| |- triple _ (raise (ValueError _)) _ _ => apply triple_raise; intros; exact I
| |- triple _ (bind get_state _) _ _ => apply triple_state; annotated_structure
| |- triple _ (bind (has_annotation _ _) _) _ _ =>
    apply triple_has_annotation; annotated_structure
| |- triple _ (bind _ _) _ _ =>
    apply triple_then; [annotated_structure | annotated_structure]
| |- triple _ (if ?b then _ else _) _ _ => destruct b; annotated_structure
| |- triple _ (for_fold _ _ _) _ _ => apply triple_for_fold; annotated_structure
| |- triple _ (set_annotation _ _ _) _ _ => apply set_annotation_annotated
| |- triple _ (class_setattr _ _ _) _ _ => apply class_setattr_annotated
| |- triple _ (Registry.get_all _) _ _ => apply get_all_annotated
end.

Lemma process_derived_type_annotated (l : list string) (name : string)
    (dnp : list cid) (known : list (string * cid)) (d : cid) :
  triple (annotated w0 c l) (process_derived_type name c dnp known d)
         (fun _ => annotated w0 c l) value_error.
Proof. unfold process_derived_type. annotated_structure. Qed.

(** Processing a member takes its name out of the annotations. *)
Lemma process_member_annotated (l : list string) (n : string) (t : cid) (p : bool)
    (cf : list string) (dnp : list cid) (known : list (string * cid)) :
  ~ In n l ->
  triple (annotated w0 c (n :: l)) (_process_member n t p c cf dnp known)
         (fun _ => annotated w0 c l) value_error.
Proof.
  intros N. unfold _process_member.
  eapply triple_bind; [now apply del_annotation_annotated|]. intros ?.
  apply triple_then.
  - destruct p.
    + cbv zeta. apply triple_has_annotation. intros present.
      apply triple_then; [annotated_structure|]. intros ?.
      apply triple_then; [annotated_structure|]. intros derived_types.
      apply triple_for_fold. intros. apply process_derived_type_annotated.
    + annotated_structure.
  - annotated_structure.
Qed.

(** A fixed member whose type is a subclass of the class being expanded,
    or is itself being expanded further out, is refused. *)
Lemma process_member_refused (l : list string) (n : string) (t : cid)
    (cf : list string) (dnp : list cid) (known : list (string * cid)) :
  ~ In n l ->
  issubclass w0 t c = true \/ In t dnp ->
  triple (annotated w0 c (n :: l)) (_process_member n t false c cf dnp known)
         (fun _ _ => False) value_error.
Proof.
  intros N Back. unfold _process_member.
  eapply triple_bind; [now apply del_annotation_annotated|]. intros ?.
  eapply triple_bind with (Q1 := fun _ _ => False); [|intros ? ? []].
  cbv zeta. apply triple_has_annotation. intros [|].
  - apply triple_raise. intros. exact I.
  - apply triple_state. intros w (_ & Mr & _).
    assert (G : issubclass w t c || mem_nat t dnp = true).
    { apply orb_true_iff. destruct Back as [Sub|Dnp].
      - left. unfold issubclass in *. now rewrite Mr.
      - right. now apply mem_nat_In. }
    rewrite G. apply triple_raise. intros. exact I.
Qed.

Lemma process_members_refused (dnp : list cid) (name : string) (t : cid) :
  issubclass w0 t c = true \/ In t dnp ->
  forall to_process acc,
  NoDup (map member_name to_process) ->
  In (name, t, false) to_process ->
  triple (annotated w0 c (map member_name to_process))
         (process_members c dnp to_process acc)
         (fun _ _ => False) value_error.
Proof.
  intros Back. unfold process_members.
  induction to_process as [|[[n t'] p] rest IH]; intros [[cf known] pm] ND Hin.
  - destruct Hin.
  - cbn [map member_name fst for_fold] in *. inversion ND as [|? ? Nn ND']. subst.
    destruct Hin as [[= -> -> ->]|Hin].
    + apply triple_bind with (Q1 := fun _ _ => False); [|intros ? ? []].
      apply triple_bind with (Q1 := fun _ _ => False); [|intros ? ? []].
      now apply process_member_refused.
    + eapply triple_bind; [|intros acc'; now apply IH].
      eapply triple_bind; [now apply process_member_annotated|].
      intros [cf' known']. apply triple_ret. auto.
Qed.

End Annotated.

Lemma members_to_process_names (w : World) (anns : list (string * Ty)) (n : string) :
  In n (map member_name (members_to_process w anns)) -> In n (map fst anns).
Proof.
  induction anns as [|[n' ty] anns IH]; cbn [members_to_process map fst]; [tauto|].
  destruct ty as [t|descr]; [destruct (classify_member w (TyClass t))|];
    cbn [map member_name fst In]; tauto.
Qed.

Lemma members_to_process_NoDup (w : World) (anns : list (string * Ty)) :
  NoDup (map fst anns) -> NoDup (map member_name (members_to_process w anns)).
Proof.
  induction anns as [|[n ty] anns IH]; cbn [members_to_process map fst]; intros ND.
  - constructor.
  - inversion ND as [|? ? Nn ND']. subst.
    destruct ty as [t|descr]; [destruct (classify_member w (TyClass t))|]; auto.
    cbn [map member_name fst]. constructor; auto.
    intros I. now apply members_to_process_names in I.
Qed.

(** Base classes that are not configurable are passed over. *)
Lemma bases_passed_over (expand_base : cid -> list cid -> M World cid)
    (dnp : list cid) (w : World) (bases : list cid)
    (acc : list string * list (string * cid) * list string) :
  (forall b, In b bases ->
     b = REPLACEABLE_BASE \/ b = CONFIGURABLE \/ _is_configurable_class w b = false) ->
  for_fold bases acc
    (fun '(creation_functions, known_implementations, processed_members) base =>
       let unchanged :=
         ret (creation_functions, known_implementations, processed_members) in
       if Nat.eqb base REPLACEABLE_BASE then unchanged else
       if Nat.eqb base CONFIGURABLE then unchanged else
       w <- get_state ;;
       if negb (_is_configurable_class w base) then unchanged else
       expand_base base dnp ;;
       w <- get_state ;;
       let b := get_class w base in
       ret ((creation_functions ++ opt_list (cls_creation_functions b))%list,
            OD.update known_implementations (opt_list (cls_known_implementations b)),
            set_update processed_members (opt_list (cls_processed_members b)))) w
  = (Ret acc, w).
Proof.
  induction bases as [|b bases IH]; intros Hb; [reflexivity|].
  assert (Hrest : forall b', In b' bases ->
            b' = REPLACEABLE_BASE \/ b' = CONFIGURABLE
            \/ _is_configurable_class w b' = false) by (intros; apply Hb; now right).
  cbn [for_fold]. destruct acc as [[cf known] pm]. cbv zeta.
  destruct (Nat.eqb b REPLACEABLE_BASE) eqn:E1; [rewrite bind_ret; now apply IH|].
  destruct (Nat.eqb b CONFIGURABLE) eqn:E2; [rewrite bind_ret; now apply IH|].
  destruct (Hb b (or_introl eq_refl)) as [->|[->|NC]];
    [discriminate E1 | discriminate E2 |].
  rewrite bind_assoc, bind_get_state, NC. cbn [negb]. rewrite bind_ret. now apply IH.
Qed.

End CycleFacts.

Lemma expand_refused (fuel : nat) (c : cid) (dnp : list cid) (w : World)
    (anns : list (string * Ty)) (name : string) (t : cid) :
  c < List.length (classes w) ->
  _is_actually_dataclass w c = false ->
  (forall b, In b (slice_m3_0_rev (cls_mro (get_class w c))) ->
     b = REPLACEABLE_BASE \/ b = CONFIGURABLE \/ _is_configurable_class w b = false) ->
  cls_annotations (get_class w c) = Some anns ->
  NoDup (map fst anns) ->
  In (name, TyClass t) anns ->
  classify_member w (TyClass t) = Some false ->
  issubclass w t c = true \/ In t dnp ->
  exists k w', expand_args_fields fuel c dnp w = (Raise (ValueError k), w').
Proof.
  intros L U Hb A ND Hin Cl Back.
  assert (T : exists k w',
             process_members c dnp (members_to_process w anns) ([], [], []) w
             = (Raise (ValueError k), w')).
  { assert (I0 : annotated w c
                   (map member_name (members_to_process w anns)) w).
    { split; [exact L|]. split; [reflexivity|]. exists anns. split; [exact A|].
      intros n I. apply CycleFacts.members_to_process_names in I.
      now apply mem_In_keys. }
    pose proof (CycleFacts.process_members_refused w c dnp name t Back
                  (members_to_process w anns) ([], [], [])
                  (CycleFacts.members_to_process_NoDup _ _ ND)
                  (proj2 (In_members_to_process w anns name t false) (conj Hin Cl))
                  w I0) as T.
    destruct (process_members c dnp (members_to_process w anns) ([], [], []) w)
      as [[a|e|] s']; try contradiction.
    destruct e; try contradiction. eauto. }
  destruct T as (k & w' & T). exists k, w'.
  rewrite expand_args_fields_unfold. unfold expand_args_fields_body.
  rewrite bind_get_state, U.
  unfold bind at 1. rewrite (CycleFacts.bases_passed_over _ dnp w _ _ Hb).
  cbv beta iota. rewrite bind_get_state, A. cbn [opt_list].
  apply bind_raise_eq. exact T.
Qed.




(** * Further properties of the module *)

(** ** The registry: registration *)

Lemma register_no_root (x : cid) (w : World) :
  Registry._base_class_from_class w x = None ->
  Registry.register x w = (Raise (ValueError (CannotRegister x)), w).
Proof. intros B. unfold Registry.register, Registry._register. step. rewrite B. now step. Qed.

Lemma register_own_root (x : cid) (w : World) :
  Registry._base_class_from_class w x = Some x ->
  Registry.register x w = (Raise (ValueError (RegisterBaseClass x)), w).
Proof.
  intros B. unfold Registry.register, Registry._register. step. rewrite B. step.
  now rewrite Nat.eqb_refl.
Qed.

Lemma find_none_all {A} (f : A -> bool) (l : list A) :
  (forall x, In x l -> f x = false) -> find f l = None.
Proof.
  induction l as [|x l IH]; simpl; intros H; [reflexivity|].
  rewrite (H x (or_introl eq_refl)). apply IH. auto.
Qed.



(** ** The registry: lookups *)

Lemma get_state_after (wanted : cid) (name : string) (w : World) :
  snd (Registry.get wanted name w) =
  match Registry.namespace_root w wanted with
  | None => w
  | Some b => touched b w
  end.
Proof.
  unfold Registry.get, Registry.namespace_root. step.
  destruct (Registry._is_base_class w wanted);
    [|destruct (Registry._base_class_from_class w wanted)];
    step; try reflexivity;
    rewrite RegistryFacts.bind_namespace;
    (match goal with |- context [OD.get name ?d] => destruct (OD.get name d) as [r|] end);
    try reflexivity; destruct (issubclass w r wanted); reflexivity.
Qed.

Lemma get_all_state_after (wanted : cid) (w : World) :
  snd (Registry.get_all wanted w) =
  match Registry.namespace_root w wanted with
  | None => w
  | Some b => touched b w
  end.
Proof.
  unfold Registry.get_all, Registry.namespace_root. step.
  destruct (Registry._is_base_class w wanted);
    [|destruct (Registry._base_class_from_class w wanted)];
    try reflexivity; now rewrite RegistryFacts.bind_namespace.
Qed.

Lemma touched_or_same (P : World -> Prop) (w : World) (root : option cid) :
  P w -> (forall b, P (touched b w)) ->
  P (match root with None => w | Some b => touched b w end).
Proof. intros Pw Pt. destruct root; auto. Qed.

(** X2.  A lookup reads the registry and nothing else: [registry.get] and
    [registry.get_all] leave the entries of every namespace, the classes
    and the warnings as they were (the only trace they can leave is an
    empty namespace for a root that had none), so the same lookup made
    again has the same outcome. *)
Theorem registry_lookup_read_only :
  forall (wanted : cid) (name : string) (w : World),
    let w1 := snd (Registry.get wanted name w) in
    let w2 := snd (Registry.get_all wanted w) in
    ((forall b, Registry.entries w1 b = Registry.entries w b)
     /\ classes w1 = classes w /\ warnings w1 = warnings w)
    /\ ((forall b, Registry.entries w2 b = Registry.entries w b)
        /\ classes w2 = classes w /\ warnings w2 = warnings w)
    /\ (forall wanted' name',
          fst (Registry.get wanted' name' w1) = fst (Registry.get wanted' name' w)
          /\ fst (Registry.get wanted' name' w2) = fst (Registry.get wanted' name' w)
          /\ fst (Registry.get_all wanted' w1) = fst (Registry.get_all wanted' w)
          /\ fst (Registry.get_all wanted' w2) = fst (Registry.get_all wanted' w)).
Proof.
  intros wanted name w w1 w2.
  assert (Same : forall w', (forall b, Registry.entries w' b = Registry.entries w b) ->
                            classes w' = classes w ->
                            forall wanted' name',
                              fst (Registry.get wanted' name' w')
                              = fst (Registry.get wanted' name' w)
                              /\ fst (Registry.get_all wanted' w')
                                 = fst (Registry.get_all wanted' w)).
  { intros w' En Cl wanted' name'.
    rewrite !RegistryFacts.get_outcome, !RegistryFacts.get_all_eq.
    rewrite (RegistryFacts.namespace_root_classes w w' wanted' Cl).
    rewrite (RegistryFacts.base_class_from_class_classes w w' wanted' Cl).
    unfold Registry._is_base_class.
    rewrite (RegistryFacts.get_class_classes w w' wanted' Cl).
    unfold issubclass, get_class. rewrite Cl. split.
    - destruct (Registry.namespace_root w wanted'); [now rewrite En | reflexivity].
    - rewrite (En wanted').
      destruct (Registry._base_class_from_class w wanted');
        [now rewrite En | reflexivity]. }
  assert (R1 : (forall b, Registry.entries w1 b = Registry.entries w b)
               /\ classes w1 = classes w /\ warnings w1 = warnings w).
  { subst w1. rewrite get_state_after.
    apply (touched_or_same
             (fun s => (forall b, Registry.entries s b = Registry.entries w b)
                       /\ classes s = classes w /\ warnings s = warnings w));
      [auto|].
    intros b. split; [|split].
    - intros b'. apply RegistryFacts.touched_entries.
    - apply RegistryFacts.touched_classes.
    - apply RegistryFacts.touched_warnings. }
  assert (R2 : (forall b, Registry.entries w2 b = Registry.entries w b)
               /\ classes w2 = classes w /\ warnings w2 = warnings w).
  { subst w2. rewrite get_all_state_after.
    apply (touched_or_same
             (fun s => (forall b, Registry.entries s b = Registry.entries w b)
                       /\ classes s = classes w /\ warnings s = warnings w));
      [auto|].
    intros b. split; [|split].
    - intros b'. apply RegistryFacts.touched_entries.
    - apply RegistryFacts.touched_classes.
    - apply RegistryFacts.touched_warnings. }
  split; [exact R1|]. split; [exact R2|].
  intros wanted' name'.
  destruct R1 as (E1 & C1 & _). destruct R2 as (E2 & C2 & _).
  destruct (Same w1 E1 C1 wanted' name') as [G1 A1].
  destruct (Same w2 E2 C2 wanted' name') as [G2 A2].
  auto.
Qed.

Lemma set_existing {V} (k : string) (v v0 : V) (d : list (string * V)) :
  OD.get k d = Some v0 ->
  exists l1 l2, d = (l1 ++ (k, v0) :: l2)%list
                /\ OD.set k v d = (l1 ++ (k, v) :: l2)%list
                /\ OD.get k l1 = None.
Proof.
  induction d as [|[k' v'] d IH]; cbn [OD.get OD.set]; [discriminate|].
  destruct (keqb k k') eqn:E.
  - intros [= ->]. apply (@keqb_eq string _ _) in E. subst k'.
    exists [], d. auto.
  - intros G. destruct (IH G) as (l1 & l2 & -> & S & N).
    exists ((k', v') :: l1), l2. cbn [app OD.get]. rewrite S, E. auto.
Qed.

(** X3.  [registry.get_all] of a namespace root lists the classes in the
    order in which their names were first registered: a class registered
    under a new name comes last, and a class registered under a name
    that is already there takes the place of the class it replaces. *)
Theorem register_keeps_registration_order :
  forall (x b : cid) (w : World),
    Registry._base_class_from_class w x = Some b -> x <> b ->
    Registry._is_base_class w b = true ->
    let name := cls_name (get_class w x) in
    let w' := snd (Registry.register x w) in
    (OD.get name (Registry.entries w b) = None ->
     fst (Registry.get_all b w') = Ret (OD.values (Registry.entries w b) ++ [x])%list)
    /\
    (forall old, OD.get name (Registry.entries w b) = Some old ->
       exists before after,
         fst (Registry.get_all b w) = Ret (before ++ old :: after)%list
         /\ fst (Registry.get_all b w') = Ret (before ++ x :: after)%list).
Proof.
  intros x b w B N Rb name w'.
  assert (Rb' : Registry._is_base_class w' b = true).
  { unfold Registry._is_base_class in *. subst w'.
    rewrite (RegistryFacts.register_eq x b w B N). cbn [snd].
    now rewrite (RegistryFacts.get_class_classes w _ b
                   (RegistryFacts.registered_classes x b _ w)). }
  assert (En : Registry.entries w' b = OD.set name x (Registry.entries w b)).
  { subst w'. rewrite (RegistryFacts.register_eq x b w B N). cbn [snd].
    apply RegistryFacts.registered_entries_same. }
  rewrite !RegistryFacts.get_all_eq, Rb, Rb', En. split.
  - intros G. f_equal. rewrite (MemberFacts.set_new name x _); [|unfold OD.mem; now rewrite G].
    unfold OD.values. now rewrite map_app.
  - intros old G. destruct (set_existing name x old _ G) as (l1 & l2 & E1 & E2 & _).
    exists (OD.values l1), (OD.values l2). rewrite E2, E1. unfold OD.values.
    rewrite !map_app. auto.
Qed.

Lemma register_keeps_registration_order_witness :
  let w := snd (class_statement "D" [ScenarioNested.B] [] [] ScenarioNested.world) in
  fst (Registry.get_all ScenarioNested.A (snd (Registry.register 9 w)))
  = Ret [ScenarioNested.B; ScenarioNested.C; 9].
Proof.
  intros w.
  assert (B : Registry._base_class_from_class w 9 = Some ScenarioNested.A)
    by (vm_compute; reflexivity).
  assert (N : 9 <> ScenarioNested.A) by discriminate.
  assert (Rb : Registry._is_base_class w ScenarioNested.A = true)
    by (vm_compute; reflexivity).
  destruct (register_keeps_registration_order 9 ScenarioNested.A w B N Rb) as [New _].
  rewrite New; vm_compute; reflexivity.
Defined.

Lemma get_of_entry {V} (k : string) (v : V) (d : list (string * V)) :
  NoDup (OD.keys d) -> In (k, v) d -> OD.get k d = Some v.
Proof.
  induction d as [|[k' v'] d IH]; cbn [OD.keys map fst OD.get In]; [tauto|].
  intros ND [E|I].
  - injection E as -> ->. now rewrite keqb_refl.
  - inversion ND as [|? ? Nk ND']. subst.
    destruct (keqb k k') eqn:E; [|now apply IH].
    apply (@keqb_eq string _ _) in E. subst k'.
    exfalso. apply Nk. unfold OD.keys in *. change k with (fst (k, v)).
    now apply in_map.
Qed.

(** X4.  [registry.get] and [registry.get_all] agree: a class that [get]
    returns for a base is in the list that [get_all] returns for that base,
    unless it is the base itself; and in a registry filled through
    [register], every class in that list is what [get] returns for the
    name it is registered under. *)
Theorem get_and_get_all_agree :
  forall (w : World) (wanted : cid),
    (forall (name : string) (r : cid),
       fst (Registry.get wanted name w) = Ret r ->
       exists l, fst (Registry.get_all wanted w) = Ret l /\ (In r l \/ r = wanted))
    /\
    (forall (b : cid) (l : list cid) (c : cid),
       registry_wf w = true ->
       Registry.namespace_root w wanted = Some b ->
       NoDup (OD.keys (Registry.entries w b)) ->
       fst (Registry.get_all wanted w) = Ret l ->
       In c l ->
       exists name, In (name, c) (Registry.entries w b)
                    /\ fst (Registry.get wanted name w) = Ret c).
Proof.
  intros w wanted. split.
  - intros name r. rewrite RegistryFacts.get_outcome, RegistryFacts.get_all_eq.
    unfold Registry.namespace_root.
    destruct (Registry._is_base_class w wanted).
    + destruct (OD.get name (Registry.entries w wanted)) as [r'|] eqn:G; [|discriminate].
      destruct (issubclass w r' wanted); [|discriminate]. intros [= ->].
      eexists. split; [reflexivity|]. left. eapply get_In_values. exact G.
    + destruct (Registry._base_class_from_class w wanted) as [b|]; [|discriminate].
      destruct (OD.get name (Registry.entries w b)) as [r'|] eqn:G; [|discriminate].
      destruct (issubclass w r' wanted) eqn:Sb; [|discriminate]. intros [= ->].
      eexists. split; [reflexivity|].
      destruct (Nat.eq_dec r wanted) as [->|N]; [now right|]. left.
      apply filter_In. split; [eapply get_In_values; exact G|].
      rewrite Sb. apply Nat.eqb_neq in N. now rewrite N.
  - intros b l c WF Rt ND. rewrite RegistryFacts.get_all_eq.
    assert (Found : forall name, In (name, c) (Registry.entries w b) ->
                                 issubclass w c wanted = true ->
                                 exists name0, In (name0, c) (Registry.entries w b)
                                   /\ fst (Registry.get wanted name0 w) = Ret c).
    { intros name I Sb. exists name. split; [exact I|].
      rewrite RegistryFacts.get_outcome, Rt.
      rewrite (get_of_entry name c _ ND I). now rewrite Sb. }
    unfold Registry.namespace_root in Rt.
    destruct (Registry._is_base_class w wanted).
    + injection Rt as <-. intros [= <-] I.
      unfold OD.values in I. apply in_map_iff in I. destruct I as ([name c'] & E & I).
      cbn [snd] in E. subst c'.
      apply (Found name I).
      now destruct (RegistryFacts.registry_wf_entries w wanted name c WF I).
    + rewrite Rt. intros [= <-] I. apply filter_In in I. destruct I as [I F].
      apply andb_prop in F. destruct F as [Sb _].
      unfold OD.values in I. apply in_map_iff in I. destruct I as ([name c'] & E & I).
      cbn [snd] in E. subst c'. now apply (Found name I).
Qed.

Lemma get_and_get_all_agree_witness :
  (exists l, fst (Registry.get_all ScenarioNested.B ScenarioNested.world) = Ret l
             /\ (In ScenarioNested.C l \/ ScenarioNested.C = ScenarioNested.B))
  /\ (exists name, In (name, ScenarioNested.C)
                      (Registry.entries ScenarioNested.world ScenarioNested.A)
                   /\ fst (Registry.get ScenarioNested.B name ScenarioNested.world)
                      = Ret ScenarioNested.C).
Proof.
  destruct (get_and_get_all_agree ScenarioNested.world ScenarioNested.B) as [G A].
  split.
  - apply (G "C"). vm_compute. reflexivity.
  - apply (A ScenarioNested.A [ScenarioNested.C]).
    + vm_compute. reflexivity.
    + vm_compute. reflexivity.
    + vm_compute. repeat constructor; simpl; intuition discriminate.
    + vm_compute. reflexivity.
    + now left.
Defined.

(** X5.  The registry only ever holds, in the namespace of a root, strict
    subclasses of that root: this is so at the start, and registrations,
    lookups and class statements keep it so.  Hence every class that
    [registry.get] or [registry.get_all] returns is a subclass of the
    namespace root other than the root, and a subclass of the requested
    base. *)
Theorem registry_holds_strict_subclasses :
  registry_wf initial_world = true
  /\ (forall (x : cid) (w : World),
        registry_wf w = true -> registry_wf (snd (Registry.register x w)) = true)
  /\ (forall (wanted : cid) (name : string) (w : World),
        registry_wf w = true ->
        registry_wf (snd (Registry.get wanted name w)) = true
        /\ registry_wf (snd (Registry.get_all wanted w)) = true)
  /\ (forall (name : string) (bases : list cid) (annotations : list (string * Ty))
             (attrs : list (string * Attr)) (w : World),
        registry_wf w = true ->
        registry_wf (snd (class_statement name bases annotations attrs w)) = true)
  /\ (forall (w : World) (wanted b : cid),
        registry_wf w = true ->
        Registry.namespace_root w wanted = Some b ->
        (forall l c, fst (Registry.get_all wanted w) = Ret l -> In c l ->
                     issubclass w c b = true /\ c <> b /\ issubclass w c wanted = true)
        /\ (forall name r, fst (Registry.get wanted name w) = Ret r ->
                           issubclass w r b = true /\ r <> b
                           /\ issubclass w r wanted = true)).
Proof.
  split; [reflexivity|].
  split; [exact RegistryFacts.register_registry_wf|].
  split.
  { intros wanted name w WF. rewrite get_state_after, get_all_state_after.
    destruct (Registry.namespace_root w wanted) as [b|]; [|auto].
    split; now apply RegistryFacts.registry_wf_touched. }
  split; [exact RegistryFacts.class_statement_registry_wf|].
  intros w wanted b WF Rt. split.
  - intros l c. rewrite RegistryFacts.get_all_eq. unfold Registry.namespace_root in Rt.
    destruct (Registry._is_base_class w wanted).
    + injection Rt as <-. intros [= <-] I.
      unfold OD.values in I. apply in_map_iff in I. destruct I as ([name c'] & E & I).
      cbn [snd] in E. subst c'.
      destruct (RegistryFacts.registry_wf_entries w wanted name c WF I). auto.
    + rewrite Rt. intros [= <-] I. apply filter_In in I. destruct I as [I F].
      apply andb_prop in F. destruct F as [Sb _].
      unfold OD.values in I. apply in_map_iff in I. destruct I as ([name c'] & E & I).
      cbn [snd] in E. subst c'.
      destruct (RegistryFacts.registry_wf_entries w b name c WF I). auto.
  - intros name r. rewrite RegistryFacts.get_outcome, Rt.
    destruct (OD.get name (Registry.entries w b)) as [r'|] eqn:G; [|discriminate].
    destruct (issubclass w r' wanted) eqn:Sb; [|discriminate]. intros [= ->].
    apply get_In in G.
    destruct (RegistryFacts.registry_wf_entries w b name r WF G). auto.
Qed.

Lemma registry_holds_strict_subclasses_witness :
  registry_wf (snd (Registry.register ScenarioNested.C ScenarioNested.world)) = true
  /\ (issubclass ScenarioNested.world ScenarioNested.C ScenarioNested.A = true
      /\ ScenarioNested.C <> ScenarioNested.A
      /\ issubclass ScenarioNested.world ScenarioNested.C ScenarioNested.B = true).
Proof.
  destruct registry_holds_strict_subclasses as (_ & Reg & _ & _ & Sub).
  assert (WF : registry_wf ScenarioNested.world = true) by (vm_compute; reflexivity).
  split.
  - apply Reg. exact WF.
  - assert (Rt : Registry.namespace_root ScenarioNested.world ScenarioNested.B
                 = Some ScenarioNested.A) by (vm_compute; reflexivity).
    destruct (Sub ScenarioNested.world ScenarioNested.B ScenarioNested.A WF Rt) as [_ G].
    apply (G "C"). vm_compute. reflexivity.
Defined.

(** ** The pruner: what a second pruning does, and what survives *)

Module PrunerMore.
Import Pruner PrunerFacts.

Lemma for_each_noop {S A} (l : list A) (f : A -> M S unit) (s : S) :
  (forall x, In x l -> f x s = (Ret tt, s)) -> for_each l f s = (Ret tt, s).
Proof.
  induction l as [|x l IH]; intros H; cbn [for_each]; [reflexivity|].
  unfold bind. rewrite (H x (or_introl eq_refl)). apply IH. intros y I. apply H. now right.
Qed.

(** A level on which every selector holds a string and no generated field
    is unexpected is left as it is. *)
Lemma prune_level_noop (d : DictConfig) :
  (forall r, In r (replaceables (str_keys d)) ->
     exists v, OD.get (KStr (r ++ TYPE_SUFFIX)) d = Some (VStr v)
               /\ forall key, In key (args_keys (str_keys d)) ->
                              unexpected r (r ++ "_" ++ v ++ ARGS_SUFFIX) key = false) ->
  prune_level d = (Ret tt, d).
Proof.
  intros H. unfold prune_level. rewrite bind_get_state.
  apply for_each_noop. intros r I. destruct (H r I) as (v & G & U).
  unfold prune_replaceable, getitem_str. step. rewrite G. step.
  apply for_each_noop. intros key Ik. now rewrite (U key Ik).
Qed.

(** The selectors of the members all hold strings when the loop over the
    members returns. *)
Lemma prune_loop_selectors (keys rs : list string) (s s' : DictConfig) :
  (forall key, In key keys -> PyStr.endswith key ARGS_SUFFIX = true) ->
  for_each rs (prune_replaceable keys) s = (Ret tt, s') ->
  forall r, In r rs -> exists v, OD.get (KStr (r ++ TYPE_SUFFIX)) s = Some (VStr v).
Proof.
  intros Hk. revert s. induction rs as [|r rs IH]; intros s; simpl; [tauto|].
  unfold prune_replaceable at 1, getitem_str. step.
  destruct (OD.get (KStr (r ++ TYPE_SUFFIX)) s) as [[| | |v| | | | |]|] eqn:G;
    step; try discriminate.
  set (e := r ++ "_" ++ v ++ ARGS_SUFFIX).
  unfold bind at 1.
  match goal with
  | |- context [for_each keys ?body s] =>
      destruct (for_each keys body s) as [[[]|x|] s1] eqn:Inner
  end; try discriminate.
  apply delete_loop in Inner. intros E r' [<-|I]; [eauto|].
  destruct (IH s1 E r' I) as (v' & G').
  exists v'. rewrite Inner in G'.
  rewrite (get_filter_key (fun k => negb (deleted_in keys (unexpected r e) k))) in G'.
  now rewrite deleted_in_args in G'.
Qed.

Lemma prune_children_fixed (rec_ : Value -> outcome unit * Value) (l : DictConfig) :
  (forall k sub, In (k, VDict sub) l -> rec_ (VDict sub) = (Ret tt, VDict sub)) ->
  prune_children rec_ l = (Ret tt, l).
Proof.
  induction l as [|[k x] l IH]; intros H; cbn [prune_children]; [reflexivity|].
  assert (Hl : forall k sub, In (k, VDict sub) l -> rec_ (VDict sub) = (Ret tt, VDict sub))
    by (intros; eapply H; right; eauto).
  destruct x; try (rewrite (IH Hl); reflexivity).
  rewrite (H k d (or_introl eq_refl)). now rewrite (IH Hl).
Qed.

Lemma prune_value_idempotent :
  forall v v', prune_value v = (Ret tt, v') -> prune_value v' = (Ret tt, v').
Proof.
  apply (Value_dict_ind
           (fun v => forall v', prune_value v = (Ret tt, v') ->
                                prune_value v' = (Ret tt, v'))).
  { intros v Nd v' E.
    assert (E' : prune_value v = (Ret tt, v)) by (destruct v; try reflexivity; now destruct (Nd d)).
    rewrite E' in E. injection E as <-. exact E'. }
  intros d IH v'. rewrite prune_value_unfold.
  destruct (prune_level d) as [[[]|e|] d1] eqn:L; try discriminate.
  destruct (prune_children prune_value d1) as [r d2] eqn:C.
  intros [= -> <-].
  pose proof (prune_level_spec d d1 L) as Hd1.
  assert (Sel : forall r, In r (replaceables (str_keys d)) ->
                          exists v, OD.get (KStr (r ++ TYPE_SUFFIX)) d = Some (VStr v)).
  { unfold prune_level in L. rewrite bind_get_state in L.
    apply (prune_loop_selectors _ _ _ _
             (fun key I => proj2 (proj1 (In_args_keys key _) I)) L). }
  set (rs := replaceables (str_keys d)) in *.
  set (aks := args_keys (str_keys d)) in *.
  set (g := fun k => negb (deleted_by d rs aks k)) in *.
  change (d1 = filter (fun kv => g (fst kv)) d) in Hd1.
  pose proof (prune_children_spec _ _ _ C) as F2.
  assert (K2 : OD.keys d2 = filter g (OD.keys d)).
  { rewrite (child_rel_keys _ _ _ F2), Hd1. apply keys_filter_key. }
  assert (Kept : forall k, In k (OD.keys d2) -> In k (OD.keys d) /\ g k = true).
  { intros k I. rewrite K2 in I. now apply filter_In in I. }
  assert (Plain : forall k s, In k (OD.keys d2) -> OD.get k d = Some (VStr s) ->
                              OD.get k d2 = Some (VStr s)).
  { intros k s I G. destruct (Kept k I) as [_ Gk].
    apply (mem_In_keys (K:=Key)) in I. unfold OD.mem in I.
    destruct (OD.get k d2) as [x'|] eqn:G2; [|discriminate].
    destruct (child_rel_get _ _ _ k x' F2 G2) as (x & G1 & R).
    rewrite Hd1, (get_filter_key g), Gk, G in G1. injection G1 as <-.
    destruct R as [[_ ->]|(sub & Ex & _)]; [reflexivity | discriminate]. }
  rewrite prune_value_unfold.
  rewrite prune_level_noop.
  - rewrite prune_children_fixed; [reflexivity|].
    intros k sub' I.
    assert (Src : exists sub, In (k, VDict sub) d1
                              /\ prune_value (VDict sub) = (Ret tt, VDict sub')).
    { clear - F2 I. induction F2 as [|[k1 x1] [k1' x1'] l l' R F IHF]; [destruct I|].
      destruct I as [E|I].
      - injection E as -> ->. destruct R as [Ek R]. cbn [fst snd] in *. subst k1.
        destruct R as [[Nd E]|(sub & E & R)].
        + subst x1. now destruct (Nd sub').
        + subst x1. exists sub. split; [now left | exact R].
      - destruct (IHF I) as (sub & Ix & Hx). exists sub. split; [now right | exact Hx]. }
    destruct Src as (sub & Ix & R).
    rewrite Forall_forall in IH.
    apply (IH (k, VDict sub)); [|exact R].
    rewrite Hd1 in Ix. now apply filter_In in Ix.
  - intros r Ir. apply In_replaceables, In_str_keys in Ir.
    destruct (Kept _ Ir) as [Ird Gr].
    assert (Ir0 : In r rs) by (apply In_replaceables, In_str_keys; exact Ird).
    destruct (Sel r Ir0) as (v & G).
    exists v. split; [now apply Plain|].
    intros key Ik. apply In_args_keys in Ik. destruct Ik as [Ik En].
    apply In_str_keys in Ik. destruct (Kept _ Ik) as [Ikd Gk].
    unfold g in Gk. apply negb_true_iff in Gk. unfold deleted_by in Gk.
    destruct (unexpected r (r ++ "_" ++ v ++ ARGS_SUFFIX) key) eqn:U; [|reflexivity].
    assert (D : existsb (fun r0 => match expect_of d r0 with
                                   | Some e => deleted_in aks (unexpected r0 e) (KStr key)
                                   | None => false
                                   end) rs = true); [|congruence].
    apply existsb_exists. exists r. split; [exact Ir0|].
    unfold expect_of. rewrite G. cbn [deleted_in]. rewrite U, andb_true_r.
    apply mem_str_In, In_args_keys. split; [now apply In_str_keys | exact En].
Qed.

End PrunerMore.

(** X6.  Pruning is idempotent: when [remove_unused_components] has
    returned, pruning the tree it left returns again and changes nothing,
    at any nesting level. *)
Theorem remove_unused_components_idempotent :
  forall (dict_ d' : DictConfig),
    Pruner.remove_unused_components dict_ = (Ret tt, d') ->
    Pruner.remove_unused_components d' = (Ret tt, d').
Proof.
  intros dict_ d'. unfold Pruner.remove_unused_components.
  destruct (Pruner.prune_value (VDict dict_)) as [r v'] eqn:E.
  destruct r as [[]|e|]; [|destruct v'; discriminate..].
  destruct (PrunerCorrect.prune_value_Pruned (VDict dict_) dict_ v' eq_refl E)
    as (d2 & -> & _).
  intros [= <-].
  now rewrite (PrunerMore.prune_value_idempotent _ _ E).
Qed.

Lemma remove_unused_components_idempotent_witness :
  Pruner.remove_unused_components ScenarioA.pruned_tree
  = (Ret tt, ScenarioA.pruned_tree).
Proof.
  apply (remove_unused_components_idempotent ScenarioA.default_tree).
  vm_compute. reflexivity.
Defined.

(** The keys that the top level keeps, when the pruning returns. *)
Lemma remove_unused_components_keys (dict_ d' : DictConfig) :
  Pruner.remove_unused_components dict_ = (Ret tt, d') ->
  (forall r, In r (Pruner.replaceables (Pruner.str_keys dict_)) ->
             exists v, OD.get (KStr (r ++ TYPE_SUFFIX)) dict_ = Some (VStr v))
  /\ OD.keys d'
     = filter (fun k => negb (deleted_by dict_ (Pruner.replaceables (Pruner.str_keys dict_))
                                         (Pruner.args_keys (Pruner.str_keys dict_)) k))
              (OD.keys dict_).
Proof.
  unfold Pruner.remove_unused_components. rewrite PrunerFacts.prune_value_unfold.
  destruct (Pruner.prune_level dict_) as [[[]|e|] d1] eqn:L; try discriminate.
  destruct (Pruner.prune_children Pruner.prune_value d1) as [r d2] eqn:C.
  intros [= -> <-]. split.
  - unfold Pruner.prune_level in L. rewrite bind_get_state in L.
    apply (PrunerMore.prune_loop_selectors _ _ _ _
             (fun key I => proj2 (proj1 (PrunerFacts.In_args_keys key _) I)) L).
  - rewrite (PrunerFacts.child_rel_keys _ _ _ (PrunerFacts.prune_children_spec _ _ _ C)).
    rewrite (PrunerFacts.prune_level_spec dict_ d1 L) at 1.
    apply (PrunerFacts.keys_filter_key
             (fun k => negb (deleted_by dict_ (Pruner.replaceables (Pruner.str_keys dict_))
                                        (Pruner.args_keys (Pruner.str_keys dict_)) k))).
Qed.

(** X7.  The subtree that a selector names survives the pruning, provided
    no other member of the level has a name whose [<name>_] is a prefix of
    the key of that subtree.  The proviso is needed: with members [a] and
    [a_b], the subtree selected for [a_b] is deleted on account of [a]. *)
Theorem selected_subtree_survives :
  (forall (dict_ d' : DictConfig) (member v : string),
     Pruner.remove_unused_components dict_ = (Ret tt, d') ->
     OD.get (KStr (member ++ TYPE_SUFFIX)) dict_ = Some (VStr v) ->
     In (KStr (member ++ "_" ++ v ++ ARGS_SUFFIX)) (OD.keys dict_) ->
     (forall other, In (KStr (other ++ TYPE_SUFFIX)) (OD.keys dict_) ->
                    other <> member ->
                    PyStr.startswith (member ++ "_" ++ v ++ ARGS_SUFFIX) (other ++ "_")
                    = false) ->
     In (KStr (member ++ "_" ++ v ++ ARGS_SUFFIX)) (OD.keys d'))
  /\
  Pruner.remove_unused_components
    [ (KStr "a_class_type", VStr "X"); (KStr "a_b_class_type", VStr "Y");
      (KStr "a_X_args", VDict []); (KStr "a_b_Y_args", VDict []) ]
  = (Ret tt, [ (KStr "a_class_type", VStr "X"); (KStr "a_b_class_type", VStr "Y");
               (KStr "a_X_args", VDict []) ]).
Proof.
  split; [|reflexivity].
  intros dict_ d' member v R G I Others.
  destruct (remove_unused_components_keys dict_ d' R) as [Sel ->].
  apply filter_In. split; [exact I|]. apply negb_true_iff.
  unfold deleted_by.
  match goal with |- existsb ?f ?l = false => destruct (existsb f l) eqn:Ex end;
    [|reflexivity].
  exfalso. apply existsb_exists in Ex. destruct Ex as (r & Ir & D).
  destruct (Sel r Ir) as (vr & Gr). unfold expect_of in D. rewrite Gr in D.
  cbn [deleted_in] in D. apply andb_prop in D. destruct D as [_ U].
  unfold Pruner.unexpected in U. apply andb_prop in U. destruct U as [St Ne].
  destruct (string_dec r member) as [->|N].
  - rewrite G in Gr. injection Gr as <-. rewrite String.eqb_refl in Ne. discriminate.
  - rewrite Others in St; [discriminate | | exact N].
    now apply PrunerFacts.In_str_keys, PrunerFacts.In_replaceables.
Qed.

Lemma selected_subtree_survives_witness :
  In (KStr ("a" ++ "_" ++ "A2" ++ ARGS_SUFFIX)) (OD.keys ScenarioA.pruned_tree).
Proof.
  destruct selected_subtree_survives as [H _].
  apply (H ScenarioA.default_tree ScenarioA.pruned_tree "a" "A2").
  - vm_compute. reflexivity.
  - vm_compute. reflexivity.
  - vm_compute. auto.
  - intros other I N. exfalso. apply N.
    assert (E : "a_class_type" = other ++ TYPE_SUFFIX).
    { unfold ScenarioA.default_tree in I. cbn [OD.keys map fst In] in I.
      destruct I as [E|[E|[E|[]]]]; injection E as E; [exact E | exfalso..];
        apply (f_equal (fun s => PyStr.endswith s TYPE_SUFFIX)) in E;
        rewrite PyStrFacts.endswith_append in E; vm_compute in E; discriminate. }
    apply (f_equal (PyStr.drop_last (String.length TYPE_SUFFIX))) in E.
    rewrite PyStrFacts.drop_last_append in E. rewrite <- E. reflexivity.
Defined.

(** X8.  The pruner needs every selector of a level to hold a string: when
    it returns, each key [<member>_class_type] of the top level holds one,
    so a selector that holds anything else ([None], say) makes it raise. *)
Theorem selectors_must_hold_strings :
  forall (dict_ : DictConfig) (member : string),
    In (KStr (member ++ TYPE_SUFFIX)) (OD.keys dict_) ->
    (forall d', Pruner.remove_unused_components dict_ = (Ret tt, d') ->
                exists v, OD.get (KStr (member ++ TYPE_SUFFIX)) dict_ = Some (VStr v))
    /\ (forall x, OD.get (KStr (member ++ TYPE_SUFFIX)) dict_ = Some x ->
                  (forall v, x <> VStr v) ->
                  fst (Pruner.remove_unused_components dict_) <> Ret tt).
Proof.
  intros dict_ member I.
  assert (Ret_ : forall d', Pruner.remove_unused_components dict_ = (Ret tt, d') ->
                   exists v, OD.get (KStr (member ++ TYPE_SUFFIX)) dict_ = Some (VStr v)).
  { intros d' R. destruct (remove_unused_components_keys dict_ d' R) as [Sel _].
    apply Sel. now apply PrunerFacts.In_replaceables, PrunerFacts.In_str_keys. }
  split; [exact Ret_|].
  intros x G Nx E.
  destruct (Pruner.remove_unused_components dict_) as [r d'] eqn:R.
  cbn [fst] in E. subst r.
  destruct (Ret_ d' eq_refl) as (v & G'). rewrite G in G'. injection G' as ->.
  now apply (Nx v).
Qed.

Lemma selectors_must_hold_strings_witness :
  fst (Pruner.remove_unused_components
         [ (KStr "a_class_type", VNone); (KStr "a_A1_args", VDict []) ])
  <> Ret tt.
Proof.
  destruct (selectors_must_hold_strings
              [ (KStr "a_class_type", VNone); (KStr "a_A1_args", VDict []) ] "a")
    as [_ H].
  - vm_compute. auto.
  - apply (H VNone); [vm_compute; reflexivity | discriminate].
Defined.

(** ** Expansion, extraction and the registry *)

Lemma keeps_entries_update_class (w0 : World) (x : cid) (f : PyClass -> PyClass) :
  keeps (same_entries w0) (modify_state (update_class x f)).
Proof. apply keeps_modify_state. intros w E b. apply E. Qed.

Lemma keeps_entries_get_all (w0 : World) (t : cid) :
  keeps (same_entries w0) (Registry.get_all t).
Proof.
  intros w E b. rewrite get_all_state_after.
  destruct (Registry.namespace_root w t); [|apply E].
  rewrite RegistryFacts.touched_entries. apply E.
Qed.

Lemma keeps_entries_warn (w0 : World) (x : Warning) :
  keeps (same_entries w0) (warn x).
Proof. apply keeps_modify_state. intros w E b. apply E. Qed.

Ltac keeps_entries :=
  repeat first [ progress keeps_structure
               | intros; apply keeps_entries_update_class
               | intros; apply keeps_entries_get_all
               | intros; apply keeps_entries_warn ].

Lemma process_member_entries (w0 : World) name type_ pluggable some_class
    creation_functions dnp known :
  keeps (same_entries w0)
    (_process_member name type_ pluggable some_class creation_functions dnp known).
Proof.
  unfold _process_member, process_derived_type, del_annotation, has_annotation,
    set_annotation, put_annotations, annotations_of, class_setattr.
  keeps_entries.
Qed.

Lemma dataclass_entries (w0 : World) (c : cid) : keeps (same_entries w0) (dataclass c).
Proof. unfold dataclass, class_delattr. keeps_entries. Qed.

Lemma expand_entries (fuel : nat) :
  forall (w0 : World) (some_class : cid) (dnp : list cid),
    keeps (same_entries w0) (expand_args_fields fuel some_class dnp).
Proof.
  induction fuel as [|fuel IH]; intros w0 some_class dnp;
    rewrite expand_args_fields_unfold; unfold expand_args_fields_body;
    repeat first [ progress keeps_structure
                 | intros; apply keeps_entries_update_class
                 | intros; apply keeps_entries_warn
                 | intros; apply process_member_entries
                 | intros; apply dataclass_entries
                 | intros; apply IH ].
Qed.

Lemma get_default_args_entries (fuel : nat) :
  forall (w0 : World) (C : Target) (dnp : list cid),
    keeps (same_entries w0) (get_default_args fuel C dnp).
Proof.
  induction fuel as [|fuel IH]; intros w0 C dnp;
    rewrite get_default_args_unfold; unfold get_default_args_body;
    repeat first [ progress keeps_structure
                 | intros; apply expand_entries
                 | intros; apply IH ].
Qed.

(** X9.  Expanding a class and extracting a default tree read the
    registry and never change what it holds: after [expand_args_fields]
    or [get_default_args], whatever their outcome, every namespace has the
    entries it had. *)
Theorem expansion_leaves_registry_entries :
  forall (fuel : nat) (dnp : list cid) (w : World),
    (forall some_class b,
       Registry.entries (snd (expand_args_fields fuel some_class dnp w)) b
       = Registry.entries w b)
    /\ (forall C b,
          Registry.entries (snd (get_default_args fuel C dnp w)) b
          = Registry.entries w b).
Proof.
  intros fuel dnp w. split.
  - intros some_class. apply (expand_entries fuel w some_class dnp w). intros b. reflexivity.
  - intros C. apply (get_default_args_entries fuel w C dnp w). intros b. reflexivity.
Qed.

(** ** The warnings about clashing creation functions *)

Module ClashFacts.

Lemma In_first_occurrences (x : string) (l seen : list string) :
  In x (first_occurrences seen l) <-> In x l /\ ~ In x seen.
Proof.
  revert seen. induction l as [|y l IH]; intros seen; cbn [first_occurrences In].
  - tauto.
  - destruct (mem_str y seen) eqn:My.
    + apply PrunerFacts.mem_str_In in My. rewrite IH. split.
      * intros [I N]. auto.
      * intros [[->|I] N]; [contradiction | auto].
    + assert (Ny : ~ In y seen).
      { intros I. apply PrunerFacts.mem_str_In in I. congruence. }
      cbn [In]. rewrite IH. cbn [In]. split.
      * intros [->|[I N]]; [auto | tauto].
      * intros [[->|I] N]; [now left|].
        destruct (string_dec y x) as [->|D]; [now left | right; tauto].
Qed.

Lemma NoDup_first_occurrences (l seen : list string) :
  NoDup (first_occurrences seen l).
Proof.
  revert seen. induction l as [|y l IH]; intros seen; cbn [first_occurrences].
  - constructor.
  - destruct (mem_str y seen); [apply IH|].
    constructor; [|apply IH].
    rewrite In_first_occurrences. cbn [In]. tauto.
Qed.

Lemma count_str_cons (x y : string) (l : list string) :
  count_str x (y :: l) = (if String.eqb x y then 1 else 0) + count_str x l.
Proof. unfold count_str. cbn [filter]. now destruct (String.eqb x y). Qed.

Lemma count_str_In (x : string) (l : list string) : 0 < count_str x l <-> In x l.
Proof.
  induction l as [|y l IH]; [cbn; split; [lia | tauto]|].
  rewrite count_str_cons. cbn [In].
  destruct (String.eqb x y) eqn:E.
  - apply String.eqb_eq in E. subst. split; [auto | lia].
  - apply String.eqb_neq in E. rewrite <- IH. split; [intros; right; lia|].
    intros [->|H]; [contradiction | lia].
Qed.

Lemma NoDup_count_str (l : list string) :
  NoDup l <-> forall x, count_str x l <= 1.
Proof.
  induction l as [|y l IH].
  - split; [intros _ x; cbn; lia | constructor].
  - split.
    + intros ND x. inversion ND as [|? ? Ny ND']. subst.
      rewrite count_str_cons. destruct (String.eqb x y) eqn:E.
      * apply String.eqb_eq in E. subst.
        destruct (count_str y l) eqn:C; [lia|].
        exfalso. apply Ny, count_str_In. lia.
      * apply IH with (x := x) in ND'. lia.
    + intros H. constructor.
      * intros I. apply count_str_In in I. specialize (H y).
        rewrite count_str_cons, String.eqb_refl in H. lia.
      * apply IH. intros x. specialize (H x). rewrite count_str_cons in H. lia.
Qed.

Lemma for_each_warn (l : list string) (w : World) :
  for_each l (fun key => warn (ClashWarning key)) w
  = (Ret tt, {| classes := classes w; registry_mapping := registry_mapping w;
                warnings := (warnings w ++ map ClashWarning l)%list |}).
Proof.
  revert w. induction l as [|x l IH]; intros w; cbn [for_each map].
  - rewrite app_nil_r. now destruct w.
  - unfold bind, warn at 1, modify_state. rewrite IH. cbn [classes registry_mapping warnings].
    now rewrite <- app_assoc.
Qed.

Lemma for_each_warn_bind {B} (l : list string) (k : unit -> M World B) (w : World) :
  bind (for_each l (fun key => warn (ClashWarning key))) k w
  = k tt {| classes := classes w; registry_mapping := registry_mapping w;
            warnings := (warnings w ++ map ClashWarning l)%list |}.
Proof. unfold bind. now rewrite for_each_warn. Qed.

End ClashFacts.


(** ** Default trees of callables and of classes that are not configurable *)

Lemma mem_app_false {V} (k : Key) (a b : list (Key * V)) :
  OD.mem k a = false -> OD.mem k b = false -> OD.mem k (a ++ b) = false.
Proof.
  unfold OD.mem. induction a as [|[k' v'] a IH]; cbn [app OD.get]; [auto|].
  destruct (keqb k k'); [discriminate | exact IH].
Qed.

Lemma signature_defaults_defaulted (params : list (string * option Value)) :
  NoDup (map fst params) -> signature_defaults params = defaulted params.
Proof.
  unfold signature_defaults.
  enough (G : forall acc,
             NoDup (map fst params) ->
             (forall p, In p (map fst params) -> OD.mem (KStr p) acc = false) ->
             fold_left (fun kwargs '(pname, default) =>
                          match default with
                          | None => kwargs
                          | Some v => OD.set (KStr pname) v kwargs
                          end) params acc
             = (acc ++ defaulted params)%list).
  { intros ND. apply (G [] ND). reflexivity. }
  induction params as [|[p d] params IH]; intros acc ND Fresh.
  - cbn. now rewrite app_nil_r.
  - cbn [map fst] in ND, Fresh. inversion ND as [|? ? Np ND']. subst.
    cbn [fold_left defaulted flat_map]. destruct d as [v|].
    + rewrite (MemberFacts.set_new (KStr p) v acc (Fresh p (or_introl eq_refl))).
      rewrite IH; [now rewrite <- app_assoc | exact ND' |].
      intros p' I. apply mem_app_false; [apply Fresh; now right|].
      unfold OD.mem. cbn [OD.get keqb EqKey_Key key_eqb].
      destruct (String.eqb p' p) eqn:E; [|reflexivity].
      apply String.eqb_eq in E. subst. contradiction.
    + cbn [app]. apply IH; [exact ND'|]. intros p' I. apply Fresh. now right.
Qed.



(** ** Sealed classes and dataclasses *)

Lemma find_along_found {A} (proj : PyClass -> option A) (w : World) (mro : list cid)
    (b : cid) (a : A) :
  In b mro -> proj (get_class w b) = Some a -> find_along proj w mro <> None.
Proof.
  induction mro as [|x mro IH]; cbn [In find_along]; [tauto|].
  intros [->|I] P.
  - rewrite P. discriminate.
  - destruct (proj (get_class w x)); [discriminate | now apply IH].
Qed.

(** X12.  [_is_actually_dataclass] is more specific than
    [dataclasses.is_dataclass]: a sealed class is a dataclass, but so is
    every class that has a sealed class among its ancestors, sealed itself
    or not.  This is why expansion tests the class's own [__dict__]. *)
Theorem actually_dataclass_is_more_specific :
  forall (w : World) (c : cid),
    In c (cls_mro (get_class w c)) ->
    (_is_actually_dataclass w c = true -> is_dataclass w c = true)
    /\ (forall b, In b (cls_mro (get_class w c)) ->
                  _is_actually_dataclass w b = true -> is_dataclass w c = true).
Proof.
  intros w c Ic.
  assert (G : forall b, In b (cls_mro (get_class w c)) ->
                        _is_actually_dataclass w b = true -> is_dataclass w c = true).
  { intros b Ib Sb. unfold _is_actually_dataclass in Sb. unfold is_dataclass, class_lookup.
    destruct (cls_dataclass_fields (get_class w b)) as [f|] eqn:F; [|discriminate].
    pose proof (find_along_found cls_dataclass_fields w _ b f Ib F) as N.
    now destruct (find_along cls_dataclass_fields w (cls_mro (get_class w c))). }
  split; [apply G, Ic | exact G].
Qed.

Lemma actually_dataclass_is_more_specific_witness :
  let w := snd (expand_args_fields 0 ScenarioA.A [] ScenarioA.world) in
  _is_actually_dataclass w ScenarioA.A1 = false /\ is_dataclass w ScenarioA.A1 = true.
Proof.
  intros w. split; [vm_compute; reflexivity|].
  destruct (actually_dataclass_is_more_specific w ScenarioA.A1) as [_ H].
  - vm_compute. auto.
  - apply (H ScenarioA.A); [vm_compute; auto | vm_compute; reflexivity].
Defined.

(** ** Construction of a class that was not expanded *)

Lemma for_each_unprocessed (name : string) (markers : list cid) (c : cid) (w s : World) :
  (forall m, In m markers -> m <> c) ->
  _is_actually_dataclass w c = false ->
  for_each markers
    (fun marker =>
       if negb (Nat.eqb c marker) && negb (_is_actually_dataclass w c)
       then warn (UnprocessedWarning name)
       else ret tt) s
  = (Ret tt, {| classes := classes s; registry_mapping := registry_mapping s;
                warnings := (warnings s
                             ++ repeat (UnprocessedWarning name) (length markers))%list |}).
Proof.
  intros Hm U. destruct (_is_actually_dataclass w c); [discriminate|]. clear U.
  revert s. induction markers as [|m markers IH]; intros s; cbn [for_each].
  - cbn. rewrite app_nil_r. now destruct s.
  - assert (N : Nat.eqb c m = false).
    { apply Nat.eqb_neq. intros ->. now apply (Hm m (or_introl eq_refl)). }
    rewrite N. cbn [negb andb]. unfold bind, warn at 1, modify_state.
    rewrite IH by (intros; apply Hm; now right).
    cbn [classes registry_mapping warnings length repeat].
    now rewrite <- app_assoc.
Qed.



(** ** Auto-creation of a pluggable member whose selector does not resolve *)

(** X14.  The creation function of a pluggable member passes on the error
    of the registry lookup and does not set the member: when the name held
    in [<member>_class_type] is not registered in the namespace of the
    declared type (as with the default ["UNDEFAULTED"]), auto-creation
    raises the [ValueError] [<name> has not been registered]. *)
Theorem create_pluggable_lookup_error :
  forall (user_method : string -> Value -> M World Value)
         (fuel : nat) (c : cid) (attrs : list (string * Value)) (member : string)
         (type_ : cid) (s : string) (w : World),
    OD.get ("create_" ++ member) attrs = None ->
    class_getattr w c ("create_" ++ member) = Some (ADefaultCreate member type_ true) ->
    OD.get (member ++ TYPE_SUFFIX) attrs = Some (VStr s) ->
    (forall e, fst (Registry.get type_ s w) = Raise e ->
               call_method user_method fuel (VObj c attrs) ("create_" ++ member) w
               = (Raise e, snd (Registry.get type_ s w)))
    /\ (forall b, Registry.namespace_root w type_ = Some b ->
                  OD.get s (Registry.entries w b) = None ->
                  fst (call_method user_method fuel (VObj c attrs) ("create_" ++ member) w)
                  = Raise (ValueError NotRegistered)).
Proof.
  intros user_method fuel c attrs member type_ s w Hi Hc Ht.
  assert (P : forall e, fst (Registry.get type_ s w) = Raise e ->
                call_method user_method fuel (VObj c attrs) ("create_" ++ member) w
                = (Raise e, snd (Registry.get type_ s w))).
  { intros e Hg.
    destruct (Registry.get type_ s w) as [o w1] eqn:G. cbn [fst snd] in *. subst o.
    destruct fuel; cbn [call_method]; rewrite Hi; step; rewrite Hc;
      unfold instance_getattr at 1; step; rewrite Ht; step;
      unfold registry_get_value; rewrite bind_assoc;
      rewrite (bind_raise_eq _ _ _ _ _ G); reflexivity. }
  split; [exact P|].
  intros b Rt Ns. rewrite (P (ValueError NotRegistered)); [reflexivity|].
  now rewrite RegistryFacts.get_outcome, Rt, Ns.
Qed.

Lemma create_pluggable_lookup_error_witness :
  let w := snd (get_default_args 2 (TClass ScenarioA.B) [] ScenarioA.world) in
  fst (call_method ScenarioA.no_user_method 3
         (VObj ScenarioA.B [("a_class_type", VStr "UNDEFAULTED")]) ("create_" ++ "a") w)
  = Raise (ValueError NotRegistered).
Proof.
  intros w.
  destruct (create_pluggable_lookup_error ScenarioA.no_user_method 3 ScenarioA.B
              [("a_class_type", VStr "UNDEFAULTED")] "a" ScenarioA.A "UNDEFAULTED" w)
    as [_ H].
  - reflexivity.
  - vm_compute. reflexivity.
  - reflexivity.
  - apply (H ScenarioA.A); vm_compute; reflexivity.
Defined.

(** ** A fixed member that is refused *)

(** X15.  The processing of a fixed member is not undone when it fails:
    the annotation of the member is deleted first, so when [<name>_args]
    turns out to be annotated already, or the declared type to be a
    subclass of the class or in [_do_not_process], the [ValueError] leaves
    the class without the declaration of the member, and otherwise as it
    was. *)
Theorem fixed_member_refusal_is_not_undone :
  forall (w : World) (name : string) (type_ c : cid) (cf : list string)
         (dnp : list cid) (known : list (string * cid)) (anns : list (string * Ty)),
    c < List.length (classes w) ->
    cls_annotations (get_class w c) = Some anns ->
    OD.mem name anns = true ->
    let w1 := put_class c (with_annotations (Some (OD.remove name anns)) (get_class w c)) w in
    (OD.mem (name ++ ARGS_SUFFIX) (OD.remove name anns) = true ->
     _process_member name type_ false c cf dnp known w
     = (Raise (ValueError (AlreadyPresent (name ++ ARGS_SUFFIX))), w1))
    /\ (OD.mem (name ++ ARGS_SUFFIX) (OD.remove name anns) = false ->
        issubclass w type_ c = true \/ In type_ dnp ->
        _process_member name type_ false c cf dnp known w
        = (Raise (ValueError (CannotProcessInside type_ c)), w1))
    /\ cls_annotations (get_class w1 c) = Some (OD.remove name anns)
    /\ OD.mem name (OD.remove name anns) = false
    /\ cls_attrs (get_class w1 c) = cls_attrs (get_class w c)
    /\ (forall x, x <> c -> get_class w1 x = get_class w x).
Proof.
  intros w name type_ c cf dnp known anns V Ha Hn w1.
  pose proof (MemberFacts.process_fixed_member w name type_ c cf dnp known anns V Ha) as P.
  rewrite Hn in P. cbn [negb] in P. cbv zeta in P. fold w1 in P.
  split; [|split; [|split; [|split; [|split]]]].
  - intros Present. now rewrite P, Present.
  - intros Fresh Back. rewrite P, Fresh.
    assert (G : issubclass w type_ c || mem_nat type_ dnp = true).
    { apply orb_true_iff. destruct Back as [S|I]; [now left | right].
      now apply mem_nat_In. }
    now rewrite G.
  - subst w1. now rewrite MemberFacts.get_put_class_same.
  - rewrite mem_remove, keqb_refl. reflexivity.
  - subst w1. now rewrite MemberFacts.get_put_class_same.
  - intros x N. subst w1. apply MemberFacts.get_put_class_other. congruence.
Qed.

Lemma fixed_member_refusal_is_not_undone_witness :
  let w := ScenarioSelf.world in
  let w1 := snd (_process_member "child" ScenarioSelf.Node false ScenarioSelf.Node [] [] [] w) in
  fst (_process_member "child" ScenarioSelf.Node false ScenarioSelf.Node [] [] [] w)
  = Raise (ValueError (CannotProcessInside ScenarioSelf.Node ScenarioSelf.Node))
  /\ cls_annotations (get_class w1 ScenarioSelf.Node) = Some [].
Proof.
  intros w w1.
  assert (V : ScenarioSelf.Node < List.length (classes w)) by (vm_compute; lia).
  assert (Ha : cls_annotations (get_class w ScenarioSelf.Node)
               = Some [("child", TyClass ScenarioSelf.Node)]) by (vm_compute; reflexivity).
  assert (Hn : OD.mem "child" [("child", TyClass ScenarioSelf.Node)] = true)
    by reflexivity.
  destruct (fixed_member_refusal_is_not_undone w "child" ScenarioSelf.Node
              ScenarioSelf.Node [] [] [] _ V Ha Hn) as (_ & R & An & _).
  assert (Fresh : OD.mem ("child" ++ ARGS_SUFFIX)
                    (OD.remove "child" [("child", TyClass ScenarioSelf.Node)]) = false)
    by reflexivity.
  assert (Back : issubclass w ScenarioSelf.Node ScenarioSelf.Node = true
                 \/ In ScenarioSelf.Node []) by (left; vm_compute; reflexivity).
  specialize (R Fresh Back). subst w1. rewrite R. cbn [fst snd].
  split; [reflexivity | exact An].
Defined.

(** ** The sizes of the layers of the colouring network *)

Module RgbNetFacts.
Import RgbNet.

Lemma init_dims_eq (get_output_dim : Z -> Z) (feature_vector_size d_in d_out : Z)
    (dims : list Z) (n_harmonic_functions_dir pooled_feature_dim : Z) :
  init_dims get_output_dim feature_vector_size d_in d_out dims
            n_harmonic_functions_dir pooled_feature_dim
  = ((d_in + feature_vector_size
      + (if (0 <? n_harmonic_functions_dir)%Z
         then get_output_dim n_harmonic_functions_dir - 3 else 0)
      + (if (0 <? pooled_feature_dim)%Z then pooled_feature_dim else 0))%Z
     :: dims ++ [d_out])%list.
Proof.
  unfold init_dims, add_to_first.
  destruct (0 <? n_harmonic_functions_dir)%Z, (0 <? pooled_feature_dim)%Z;
    cbn [app list_update]; f_equal; lia.
Qed.

Lemma nth_error_map_seq {A} (f : nat -> A) (n i start : nat) :
  nth_error (map f (seq start n)) i
  = if Nat.ltb i n then Some (f (start + i)) else None.
Proof.
  revert i start. induction n as [|n IH]; intros i start; cbn [seq map].
  - now destruct i.
  - destruct i as [|i]; cbn [nth_error].
    + now rewrite Nat.add_0_r.
    + rewrite IH. change (Nat.ltb (S i) (S n)) with (Nat.ltb i n).
      now rewrite Nat.add_succ_r.
Qed.

End RgbNetFacts.


(** ** The tests on the sources *)

Module TestBuildFacts.
Import TestBuild.

Lemma flat_map_nil {A B} (f : A -> list B) (l : list A) :
  flat_map f l = [] <-> forall x, In x l -> f x = [].
Proof.
  induction l as [|y l IH]; cbn [flat_map In]; [tauto|]. split.
  - intros E. apply app_eq_nil in E. destruct E as [Ey El].
    intros x [<-|I]; [exact Ey | now apply IH].
  - intros H. rewrite (H y (or_introl eq_refl)). apply IH. auto.
Qed.

Lemma all_counted_once (stems : list string) :
  find (fun k => negb (Nat.eqb (count_str k stems) 1)) (first_occurrences [] stems) = None
  <-> NoDup stems.
Proof.
  rewrite ClashFacts.NoDup_count_str. split.
  - intros F x. destruct (Nat.eq_dec (count_str x stems) 0) as [Z|NZ]; [lia|].
    assert (I : In x (first_occurrences [] stems)).
    { apply ClashFacts.In_first_occurrences. split; [|tauto].
      apply ClashFacts.count_str_In. lia. }
    apply (find_none _ _ F) in I. apply negb_false_iff, Nat.eqb_eq in I. lia.
  - intros H. apply find_none_all. intros x I.
    apply ClashFacts.In_first_occurrences in I. destruct I as [I _].
    apply ClashFacts.count_str_In in I. specialize (H x).
    apply negb_false_iff, Nat.eqb_eq. lia.
Qed.

End TestBuildFacts.

(** X17.  [test_name_clash] passes exactly when the stems of all [.cu] and
    [.cpp] files are distinct, whatever their directories: a stem that a
    [.cu] file shares with a [.cpp] file makes it fail, and the stem it
    fails on occurs more than once.  In a conda build it is skipped. *)
Theorem name_clash_test :
  forall (cu_stems cpp_stems : list string),
    (TestBuild.test_name_clash false cu_stems cpp_stems = TestBuild.Passed
     <-> NoDup (cu_stems ++ cpp_stems))
    /\ (forall stem, In stem cu_stems -> In stem cpp_stems ->
                     TestBuild.test_name_clash false cu_stems cpp_stems
                     <> TestBuild.Passed)
    /\ (forall key count,
          TestBuild.test_name_clash false cu_stems cpp_stems
          = TestBuild.NotEqual key count ->
          count = count_str key (cu_stems ++ cpp_stems) /\ 1 < count)
    /\ TestBuild.test_name_clash true cu_stems cpp_stems
       = TestBuild.Skipped "In conda build".
Proof.
  intros cu cpp.
  assert (P : TestBuild.test_name_clash false cu cpp = TestBuild.Passed
              <-> NoDup (cu ++ cpp)%list).
  { rewrite <- TestBuildFacts.all_counted_once. unfold TestBuild.test_name_clash.
    cbv zeta. destruct (find _ _); split; (discriminate || reflexivity). }
  split; [exact P|]. split; [|split; [|reflexivity]].
  - intros stem Icu Icpp Pass. apply P in Pass.
    apply NoDup_app_remove_l in Pass as ND.
    clear ND. revert Pass. clear - Icu Icpp.
    induction cu as [|x cu IH]; [destruct Icu|]. cbn [app]. intros ND.
    inversion ND as [|? ? Nx ND']. subst. destruct Icu as [->|Icu].
    + apply Nx. apply in_or_app. now right.
    + now apply IH.
  - intros key count. unfold TestBuild.test_name_clash. cbv zeta.
    destruct (find _ _) as [k|] eqn:F; [|discriminate].
    intros [= -> <-]. split; [reflexivity|].
    apply find_some in F. destruct F as [I F].
    apply ClashFacts.In_first_occurrences in I. destruct I as [I _].
    apply ClashFacts.count_str_In in I.
    apply negb_true_iff, Nat.eqb_neq in F. lia.
Qed.

Lemma name_clash_test_witness :
  TestBuild.test_name_clash false ["ball_query"; "knn"] ["ext"; "knn"]
  <> TestBuild.Passed.
Proof.
  destruct (name_clash_test ["ball_query"; "knn"] ["ext"; "knn"]) as (_ & H & _).
  apply (H "knn"); simpl; auto.
Defined.

(** X18.  [test_copyright] passes exactly when, in every file that is not
    one of the two exempted ones, the header line ends with the copyright
    sentence and its newline; the paths it fails with are those of the
    other files, in the order in which they were found.  The header line
    is the first line, or the second when the first starts with ["#!"] or
    ["# -*-"]: what precedes the sentence on that line (a comment sign)
    does not matter, one leading line of those kinds is passed over, and
    an empty file, or one that holds such a line only, is reported. *)
Theorem copyright_test :
  (forall files,
     TestBuild.test_copyright false files = TestBuild.Passed
     <-> (forall path lines,
            In (path, lines) files -> TestBuild.exempt path = false ->
            PyStr.endswith (TestBuild.header_line lines) TestBuild.expect = true))
  /\ (forall files paths,
        TestBuild.test_copyright false files = TestBuild.Fail paths ->
        paths = map fst
                  (filter (fun '(path, lines) =>
                             negb (TestBuild.exempt path)
                             && negb (PyStr.endswith (TestBuild.header_line lines)
                                                     TestBuild.expect))
                          files))
  /\ (forall prefix rest,
        PyStr.startswith (prefix ++ TestBuild.expect) "# -*-" = false ->
        PyStr.startswith (prefix ++ TestBuild.expect) "#!" = false ->
        PyStr.endswith (TestBuild.header_line ((prefix ++ TestBuild.expect) :: rest))
                       TestBuild.expect = true)
  /\ (forall first prefix rest,
        PyStr.startswith first "# -*-" = true \/ PyStr.startswith first "#!" = true ->
        PyStr.endswith
          (TestBuild.header_line (first :: (prefix ++ TestBuild.expect) :: rest))
          TestBuild.expect = true)
  /\ PyStr.endswith (TestBuild.header_line []) TestBuild.expect = false
  /\ (forall first,
        PyStr.startswith first "# -*-" = true \/ PyStr.startswith first "#!" = true ->
        PyStr.endswith (TestBuild.header_line [first]) TestBuild.expect = false).
Proof.
  split; [|split; [|split; [|split; [|split]]]].
  - intros files. unfold TestBuild.test_copyright. cbv zeta.
    match goal with
    | |- context [flat_map ?f files] => set (missing := flat_map f files)
    end.
    assert (E : missing = [] <->
                forall path lines, In (path, lines) files -> TestBuild.exempt path = false ->
                  PyStr.endswith (TestBuild.header_line lines) TestBuild.expect = true).
    { unfold missing. rewrite TestBuildFacts.flat_map_nil. split.
      - intros H path lines I Ne. specialize (H _ I). cbn beta iota in H.
        rewrite Ne in H.
        destruct (PyStr.endswith (TestBuild.header_line lines) TestBuild.expect);
          [reflexivity | discriminate].
      - intros H [path lines] I. cbn beta iota.
        destruct (TestBuild.exempt path) eqn:Ex; [reflexivity|].
        now rewrite (H path lines I Ex). }
    rewrite <- E. destruct missing; cbn [List.length Nat.eqb negb]; split;
      (discriminate || reflexivity).
  - intros files paths. unfold TestBuild.test_copyright. cbv zeta.
    match goal with
    | |- context [flat_map ?f files] => set (missing := flat_map f files)
    end.
    assert (E : missing
                = map fst
                    (filter (fun '(path, lines) =>
                               negb (TestBuild.exempt path)
                               && negb (PyStr.endswith (TestBuild.header_line lines)
                                                       TestBuild.expect))
                            files)).
    { unfold missing. induction files as [|[path lines] files IH]; [reflexivity|].
      cbn [flat_map filter]. rewrite IH.
      destruct (TestBuild.exempt path); [reflexivity|].
      now destruct (PyStr.endswith (TestBuild.header_line lines) TestBuild.expect). }
    destruct (negb (Nat.eqb (List.length missing) 0)); [|discriminate].
    intros [= <-]. exact E.
  - intros prefix rest N1 N2. unfold TestBuild.header_line. cbn [hd].
    rewrite N1, N2. apply PyStrFacts.endswith_append.
  - intros first prefix rest M. unfold TestBuild.header_line. cbn [hd tl].
    assert (G : PyStr.startswith first "# -*-" || PyStr.startswith first "#!" = true)
      by (apply orb_true_iff; exact M).
    rewrite G. apply PyStrFacts.endswith_append.
  - reflexivity.
  - intros first M. unfold TestBuild.header_line. cbn [hd tl].
    assert (G : PyStr.startswith first "# -*-" || PyStr.startswith first "#!" = true)
      by (apply orb_true_iff; exact M).
    now rewrite G.
Qed.

Lemma copyright_test_witness :
  PyStr.endswith
    (TestBuild.header_line
       [ "#!/usr/bin/env python3" ++ TestBuild.newline;
         "# " ++ TestBuild.expect;
         TestBuild.newline ])
    TestBuild.expect = true
  /\ PyStr.endswith (TestBuild.header_line ["#!/bin/bash" ++ TestBuild.newline])
                    TestBuild.expect = false.
Proof.
  destruct copyright_test as (_ & _ & _ & Second & _ & Alone). split.
  - apply Second. right. reflexivity.
  - apply Alone. right. reflexivity.
Defined.

(** ** The creation functions of an expanded class *)

Lemma bind_ret_inv {S A B} (m : M S A) (k : A -> M S B) (s s' : S) (r : B) :
  bind m k s = (Ret r, s') ->
  exists a s1, m s = (Ret a, s1) /\ k a s1 = (Ret r, s').
Proof.
  unfold bind. destruct (m s) as [[a|e|] s1]; try discriminate. eauto.
Qed.

Lemma process_member_result (name : string) (type_ : cid) (pluggable : bool)
    (c : cid) (cf : list string) (dnp : list cid) (known : list (string * cid))
    (s s' : World) (r : list string * list (string * cid)) :
  _process_member name type_ pluggable c cf dnp known s = (Ret r, s') ->
  fst r = app cf ["create_" ++ name].
Proof.
  unfold _process_member. intros E.
  apply bind_ret_inv in E. destruct E as (? & s1 & _ & E).
  apply bind_ret_inv in E. destruct E as (known' & s2 & _ & E).
  cbv zeta in E. rewrite bind_get_state in E.
  apply bind_ret_inv in E. destruct E as (? & s3 & _ & E).
  now injection E as <- _.
Qed.

Lemma process_members_result (c : cid) (dnp : list cid) :
  forall (to_process : list (string * cid * bool))
         (acc r : list string * list (string * cid) * list string) (s s' : World),
    process_members c dnp to_process acc s = (Ret r, s') ->
    fst (fst r)
    = app (fst (fst acc)) (map (fun m => "create_" ++ member_name m) to_process)
    /\ snd r = fold_left (fun pm m => set_add (member_name m) pm) to_process (snd acc).
Proof.
  unfold process_members.
  induction to_process as [|[[n t] p] rest IH]; intros [[cf known] pm] r s s' E.
  - cbn in E. injection E as <- _. cbn. now rewrite app_nil_r.
  - cbn [for_fold] in E.
    apply bind_ret_inv in E. destruct E as (acc1 & s1 & B & E).
    apply bind_ret_inv in B. destruct B as ([cf1 known1] & s2 & P & B).
    injection B as <- <-.
    apply process_member_result in P. cbn [fst] in P. subst cf1.
    apply IH in E. cbn [fst snd] in E. destruct E as [-> ->].
    cbn [map fold_left member_name fst snd]. now rewrite <- app_assoc.
Qed.

Lemma get_class_update_proj {A} (proj : PyClass -> A) (x c : cid)
    (f : PyClass -> PyClass) (w : World) :
  (forall k, proj (f k) = proj k) ->
  proj (get_class (update_class x f w) c) = proj (get_class w c).
Proof.
  intros Hf. destruct (Nat.eq_dec x c) as [->|N].
  - destruct (Nat.lt_ge_cases c (List.length (classes w))) as [Lt|Ge].
    + now rewrite get_class_update_same.
    + now rewrite get_class_update_dangling.
  - now rewrite get_class_update_other.
Qed.

Lemma dataclass_keeps_bookkeeping (c : cid) (cf pm : list string) :
  keeps (fun s => cls_creation_functions (get_class s c) = Some cf
                  /\ cls_processed_members (get_class s c) = Some pm)
        (dataclass c).
Proof.
  unfold dataclass, class_delattr.
  repeat first
    [ progress keeps_structure
    | intros; apply keeps_modify_state; intros ? [? ?];
      rewrite (get_class_update_proj cls_creation_functions) by reflexivity;
      rewrite (get_class_update_proj cls_processed_members) by reflexivity;
      auto ].
Qed.

Lemma set_add_fresh (names seen : list string) :
  NoDup (seen ++ names) ->
  fold_left (fun pm n => set_add n pm) names seen = (seen ++ names)%list.
Proof.
  revert seen. induction names as [|n names IH]; intros seen ND; cbn [fold_left].
  - now rewrite app_nil_r.
  - assert (Nn : mem_str n seen = false).
    { destruct (mem_str n seen) eqn:Mn; [|reflexivity].
      apply PrunerFacts.mem_str_In in Mn. apply NoDup_remove_2 in ND.
      exfalso. apply ND. apply in_or_app. now left. }
    unfold set_add at 2. rewrite Nn.
    rewrite IH; rewrite <- app_assoc; [reflexivity | exact ND].
Qed.

(** X19.  The creation functions of an expanded class follow its
    declarations: for a class whose base classes other than the markers
    are not configurable, an expansion that returns leaves in
    [_creation_functions] exactly [create_<name>] for each member of
    marker type that expansion processes, in the order in which the
    members are annotated, and in [_processed_members] the names of these
    members. *)
Theorem creation_functions_follow_declarations :
  forall (fuel : nat) (c : cid) (dnp : list cid) (w w' : World) (r : cid),
    c < List.length (classes w) ->
    _is_actually_dataclass w c = false ->
    (forall b, In b (slice_m3_0_rev (cls_mro (get_class w c))) ->
       b = REPLACEABLE_BASE \/ b = CONFIGURABLE \/ _is_configurable_class w b = false) ->
    expand_args_fields fuel c dnp w = (Ret r, w') ->
    let to_process :=
      members_to_process w (opt_list (cls_annotations (get_class w c))) in
    cls_creation_functions (get_class w' c)
    = Some (map (fun m => "create_" ++ member_name m) to_process)
    /\ cls_processed_members (get_class w' c)
       = Some (fold_left (fun pm m => set_add (member_name m) pm) to_process [])
    /\ (NoDup (map fst (opt_list (cls_annotations (get_class w c)))) ->
        cls_processed_members (get_class w' c) = Some (map member_name to_process)).
Proof.
  intros fuel c dnp w w' r V U Hb E to_process.
  rewrite expand_args_fields_unfold in E. unfold expand_args_fields_body in E.
  rewrite bind_get_state, U in E.
  unfold bind at 1 in E. rewrite (CycleFacts.bases_passed_over _ dnp w _ _ Hb) in E.
  cbv beta iota in E. rewrite bind_get_state in E. fold to_process in E.
  apply bind_ret_inv in E. destruct E as ([[cf known] pm] & s1 & L & E).
  assert (F1 : frame w s1).
  { assert (K : keeps (frame w)
                  (for_fold to_process (([] : list string), ([] : list (string * cid)),
                                        ([] : list string))
                     (fun '(creation_functions, known_implementations, processed_members)
                          '(name, type_, pluggable) =>
                        '(creation_functions, known_implementations) <-
                          _process_member name type_ pluggable c creation_functions
                                          dnp known_implementations ;;
                        ret (creation_functions, known_implementations,
                             set_add name processed_members)))).
    { repeat first [ progress keeps_structure
                   | intros; now apply process_member_frame ]. }
    specialize (K w (frame_refl w)). rewrite L in K. exact K. }
  apply (process_members_result c dnp to_process ([], [], []) (cf, known, pm) w s1) in L.
  cbn [fst snd app] in L. destruct L as [-> ->].
  rewrite ClashFacts.for_each_warn_bind in E.
  apply bind_ret_inv in E. destruct E as ([] & s3 & Bk & E).
  rewrite modify_state_apply in Bk. injection Bk as <-.
  apply bind_ret_inv in E. destruct E as ([] & s4 & D & E).
  injection E as _ <-.
  match type of D with dataclass c ?s = _ => set (s3 := s) in * end.
  assert (J : cls_creation_functions (get_class s3 c)
              = Some (map (fun m => "create_" ++ member_name m) to_process)
              /\ cls_processed_members (get_class s3 c)
                 = Some (fold_left (fun pm m => set_add (member_name m) pm) to_process [])).
  { subst s3. rewrite get_class_update_same; [split; reflexivity|].
    cbn [classes]. now rewrite (frame_length _ _ F1). }
  apply (dataclass_keeps_bookkeeping c _ _ s3) in J. rewrite D in J. cbn [snd] in J.
  destruct J as [Jc Jp]. split; [exact Jc|]. split; [exact Jp|].
  intros ND. rewrite Jp. f_equal.
  assert (Names : forall l acc,
             fold_left (fun pm m => set_add (member_name m) pm) l acc
             = fold_left (fun pm n => set_add n pm) (map member_name l) acc).
  { induction l as [|m l IH]; intros acc; [reflexivity | apply IH]. }
  rewrite Names. apply (set_add_fresh _ []). cbn [app].
  now apply CycleFacts.members_to_process_NoDup.
Qed.

Lemma creation_functions_follow_declarations_witness :
  let w' := snd (expand_args_fields 0 ScenarioA.B [] ScenarioA.world) in
  cls_creation_functions (get_class w' ScenarioA.B) = Some ["create_a"]
  /\ cls_processed_members (get_class w' ScenarioA.B) = Some ["a"].
Proof.
  intros w'.
  assert (V : ScenarioA.B < List.length (classes ScenarioA.world)) by (vm_compute; lia).
  assert (U : _is_actually_dataclass ScenarioA.world ScenarioA.B = false)
    by (vm_compute; reflexivity).
  assert (Hb : forall b,
             In b (slice_m3_0_rev (cls_mro (get_class ScenarioA.world ScenarioA.B))) ->
             b = REPLACEABLE_BASE \/ b = CONFIGURABLE
             \/ _is_configurable_class ScenarioA.world b = false)
    by (vm_compute; intros b []).
  assert (E : expand_args_fields 0 ScenarioA.B [] ScenarioA.world = (Ret ScenarioA.B, w'))
    by (vm_compute; reflexivity).
  destruct (creation_functions_follow_declarations 0 ScenarioA.B [] ScenarioA.world w'
              ScenarioA.B V U Hb E) as (C & _ & P).
  split.
  - rewrite C. vm_compute. reflexivity.
  - rewrite P; [vm_compute; reflexivity|].
    vm_compute. repeat constructor; simpl; intuition discriminate.
Defined.

(** ** The error that extraction never raises *)

Module Unreachable.

Lemma triple_out_of_fuel {A} (P : World -> Prop) (Q : A -> World -> Prop) :
  triple P out_of_fuel Q not_failed_to_process.
Proof. intros s _. cbn. intros x. discriminate. Qed.

Lemma triple_put_state (P : World -> Prop) (s' : World) :
  triple P (put_state s') (fun _ => anywhere) not_failed_to_process.
Proof. intros s _. exact I. Qed.

Lemma triple_for_each {A} (Inv : World -> Prop) (l : list A)
    (body : A -> M World unit) :
  (forall x, triple Inv (body x) (fun _ => Inv) not_failed_to_process) ->
  triple Inv (for_each l body) (fun _ => Inv) not_failed_to_process.
Proof.
  intros Tb. induction l as [|x l IH]; cbn [for_each].
  - apply triple_ret. auto.
  - eapply triple_bind; [apply Tb | intros ?; apply IH].
Qed.

(** Breaks a goal down along the structure of the computation; [leaf]
    sees to the calls that have a lemma of their own. *)
Ltac avoids_with Inv leaf :=
  intros; cbv beta zeta;
  lazymatch goal with
  | |- triple _ (ret _) _ _ => apply triple_ret; intros; first [assumption | exact I]
  | |- triple _ (raise _) _ _ => apply triple_raise; intros ? ? ?; discriminate
  | |- triple _ out_of_fuel _ _ => apply triple_out_of_fuel
  | |- triple _ get_state _ _ =>
      apply triple_get_state; intros; first [assumption | exact I]
  | |- triple _ (modify_state _) _ _ =>
      first [apply triple_modify_state; intros; exact I | leaf]
  | |- triple _ (put_state _) _ _ => apply triple_put_state
  | |- triple _ (bind _ _) _ _ =>
      apply (triple_bind _ _ _ (fun _ => Inv)); avoids_with Inv leaf
  | |- triple _ (for_fold _ _ _) _ _ =>
      apply (triple_for_fold Inv); avoids_with Inv leaf
  | |- triple _ (for_each _ _) _ _ => apply triple_for_each; avoids_with Inv leaf
  | |- triple _ (match ?x with _ => _ end) _ _ => destruct x; avoids_with Inv leaf
  | |- triple _ ((match ?x with _ => _ end) _) _ _ => destruct x; avoids_with Inv leaf
  | |- triple _ ((match ?x with _ => _ end) _ _) _ _ => destruct x; avoids_with Inv leaf
  | |- _ => leaf
  end.

Ltac avoids leaf := avoids_with anywhere leaf.

Lemma expand_never_fails_to_process (fuel : nat) :
  forall (c : cid) (dnp : list cid),
    triple anywhere (expand_args_fields fuel c dnp) (fun _ => anywhere)
           not_failed_to_process.
Proof.
  induction fuel as [|fuel IH]; intros c dnp;
    rewrite expand_args_fields_unfold;
    unfold expand_args_fields_body, _process_member, process_derived_type,
      del_annotation, has_annotation, set_annotation, put_annotations, annotations_of,
      class_setattr, Registry.get_all, Registry.namespace, dataclass, class_delattr, warn;
    avoids ltac:(apply IH).
Qed.

Lemma configurable_in_store (w : World) (c : cid) :
  _is_configurable_class w c = true -> c < List.length (classes w).
Proof.
  intros Cf. destruct (Nat.lt_ge_cases c (List.length (classes w))) as [Lt|Ge]; [exact Lt|].
  unfold _is_configurable_class, issubclass, get_class in Cf.
  rewrite (nth_overflow _ _ Ge) in Cf. discriminate.
Qed.

Section Extraction.
Variable w0 : World.
Hypothesis heads : forall x, _is_configurable_class w0 x = true -> issubclass w0 x x = true.

Lemma frame_configurable (s : World) (c : cid) :
  frame w0 s -> _is_configurable_class s c = _is_configurable_class w0 c.
Proof.
  intros F. unfold _is_configurable_class, issubclass. now rewrite (frame_mro _ _ F).
Qed.

Lemma sealed_is_dataclass (s : World) (c : cid) :
  frame w0 s -> _is_configurable_class s c = true ->
  _is_actually_dataclass s c = true -> is_dataclass s c = true.
Proof.
  intros F Cf Sc. rewrite (frame_configurable s c F) in Cf. apply heads in Cf.
  unfold issubclass in Cf. rewrite <- (frame_mro _ _ F) in Cf. apply mem_nat_In in Cf.
  unfold _is_actually_dataclass in Sc. unfold is_dataclass, class_lookup.
  destruct (cls_dataclass_fields (get_class s c)) as [f|] eqn:Fd; [|discriminate].
  pose proof (find_along_found cls_dataclass_fields s _ c f Cf Fd) as N.
  now destruct (find_along cls_dataclass_fields s (cls_mro (get_class s c))).
Qed.

Lemma body_never_fails_to_process
    (run_factory : Target -> list cid -> M World DictConfig) (fuel : nat) :
  (forall t d, triple (frame w0) (run_factory t d) (fun _ => frame w0)
                      not_failed_to_process) ->
  forall (C : Target) (dnp : list cid),
    triple (frame w0) (get_default_args_body run_factory fuel C dnp)
           (fun _ => frame w0) not_failed_to_process.
Proof.
  intros Hrec C dnp. unfold get_default_args_body.
  destruct C as [|c|params]; [apply triple_ret; auto | | apply triple_ret; auto].
  intros s F. rewrite bind_get_state.
  (* what follows the expansion, from a state [s1] *)
  match goal with |- context [bind _ ?K s] => set (k := K) end.
  assert (Rest : forall s1,
             frame w0 s1 ->
             (_is_configurable_class s1 c = true -> is_dataclass s1 c = true) ->
             match k tt s1 with
             | (Ret _, s') => frame w0 s'
             | (Raise e, s') => not_failed_to_process (Some e) s'
             | (OutOfFuel, s') => not_failed_to_process None s'
             end).
  { intros s1 F1 Dc. subst k. cbv beta. rewrite bind_get_state.
    destruct (is_dataclass s1 c) eqn:D.
    - match goal with
      | |- match ?m s1 with _ => _ end =>
          assert (T : triple (frame w0) m (fun _ => frame w0) not_failed_to_process)
      end.
      { avoids_with (frame w0) ltac:(apply Hrec). }
      apply T. exact F1.
    - destruct (_is_configurable_class s1 c); [now specialize (Dc eq_refl)|].
      exact F1. }
  clearbody k.
  destruct (_is_configurable_class s c) eqn:Cf.
  - destruct (mem_nat c dnp); [cbn; intros x; discriminate|].
    rewrite bind_assoc. unfold bind at 1.
    pose proof (expand_never_fails_to_process fuel c dnp s I) as Av.
    pose proof (expand_frame fuel c dnp s) as F1.
    pose proof (fun r w' => expand_seals fuel c dnp s w' r
                              (configurable_in_store s c Cf)) as Se.
    destruct (expand_args_fields fuel c dnp s) as [[r|e|] s1]; cbn [snd] in F1;
      [| exact Av | exact Av].
    destruct (Se r s1 eq_refl) as [_ Sc].
    assert (F1' : frame w0 s1) by (eapply frame_trans; eauto).
    rewrite bind_ret.
    apply (Rest s1 F1'). intros Cf1. now apply sealed_is_dataclass.
  - rewrite bind_ret. apply (Rest s F). congruence.
Qed.

Lemma get_default_args_never_fails_to_process (fuel : nat) :
  forall (C : Target) (dnp : list cid),
    triple (frame w0) (get_default_args fuel C dnp) (fun _ => frame w0)
           not_failed_to_process.
Proof.
  induction fuel as [|fuel IH]; intros C dnp; rewrite get_default_args_unfold;
    apply body_never_fails_to_process.
  - intros t d. apply triple_out_of_fuel.
  - exact IH.
Qed.

End Extraction.

End Unreachable.

(** X20.  [get_default_args] never raises [Failed to process <C>], in any
    nested call: where every configurable class is in its own method
    resolution order, as every Python class is, the expansion of a
    configurable class either raises an error of its own or seals the
    class, which [dataclasses.is_dataclass] then recognises. *)
Theorem failed_to_process_is_unreachable :
  forall (w : World),
    (forall x, _is_configurable_class w x = true -> issubclass w x x = true) ->
    forall (fuel : nat) (C : Target) (dnp : list cid) (x : cid),
      fst (get_default_args fuel C dnp w) <> Raise (ValueError (FailedToProcess x)).
Proof.
  intros w Heads fuel C dnp x E.
  pose proof (Unreachable.get_default_args_never_fails_to_process w Heads fuel C dnp
                w (frame_refl w)) as T.
  destruct (get_default_args fuel C dnp w) as [[r|e|] s]; cbn [fst] in E;
    try discriminate.
  injection E as ->. now apply (T x).
Qed.

Lemma failed_to_process_is_unreachable_witness :
  fst (get_default_args 2 (TClass ScenarioA.B) [] ScenarioA.world)
  <> Raise (ValueError (FailedToProcess ScenarioA.B)).
Proof.
  apply failed_to_process_is_unreachable.
  intros x Cf. pose proof (Unreachable.configurable_in_store _ _ Cf) as L.
  do 10 (destruct x as [|x]; [vm_compute in Cf |- *; congruence|]).
  vm_compute in L. lia.
Defined.

(** ** The keys of a default tree *)

Module TreeKeys.

Lemma In_keys_set (k k0 : Key) (v : Value) (d : DictConfig) :
  In k (OD.keys (OD.set k0 v d)) <-> k = k0 \/ In k (OD.keys d).
Proof.
  rewrite <- !(mem_In_keys (K:=Key)). unfold OD.mem.
  destruct (key_dec k0 k) as [->|N].
  - rewrite get_set_eq. split; auto.
  - rewrite get_set_neq by exact N. split; [auto|]. intros [E|H]; [congruence | exact H].
Qed.

Lemma In_keys_remove_all (k : Key) (exclude : list string) (d : DictConfig) :
  In k (OD.keys (fold_left (fun out field => OD.remove (KStr field) out) exclude d))
  <-> In k (OD.keys d) /\ forall field, In field exclude -> k <> KStr field.
Proof.
  revert d. induction exclude as [|f exclude IH]; intros d; cbn [fold_left In].
  - firstorder.
  - rewrite IH, keys_remove, filter_In, negb_true_iff. split.
    + intros [[I N] H]. split; [exact I|]. intros field [<-|If]; [|now apply H].
      intros ->. now rewrite (keqb_refl (K:=Key)) in N.
    + intros [I H]. split; [split; [exact I|] | intros; apply H; now right].
      apply (keqb_neq (K:=Key)). intros E. apply (H f (or_introl eq_refl)). now symmetry.
Qed.

Section Loop.
Variable run_factory : Target -> list cid -> M World DictConfig.

(** The keys that the loop over the fields has set, when it returns. *)
Lemma fields_loop_keys (fields : Fields) :
  forall (acc out : DictConfig) (s s' : World),
    for_fold fields acc
      (fun out '(name, (_, default)) =>
         value <-
           match default with
           | FNoDefault => ret VMissing
           | FDefault (AVal (VObj _ _)) => raise (UnsupportedValueType name)
           | FDefault (AVal VOpaque) => raise (UnsupportedValueType name)
           | FDefault (AVal v) => ret v
           | FDefault _ => raise (UnsupportedValueType name)
           | FFactory target dnp =>
               sub <- run_factory target dnp ;;
               ret (VDict sub)
           end ;;
         ret (OD.set (KStr name) value out)) s
    = (Ret out, s') ->
    forall k, In k (OD.keys out)
              <-> In k (OD.keys acc) \/ exists name, k = KStr name /\ In name (OD.keys fields).
Proof.
  induction fields as [|[name [ty default]] fields IH]; intros acc out s s' E k.
  - cbn in E. injection E as <- _. cbn. firstorder.
  - cbn [for_fold] in E. apply bind_ret_inv in E. destruct E as (out1 & s1 & B & E).
    apply bind_ret_inv in B. destruct B as (value & s2 & _ & B).
    injection B as <- _.
    rewrite (IH _ _ _ _ E k), In_keys_set. cbn [OD.keys map fst In]. split.
    + intros [[->|I]|(n & -> & I)]; eauto.
    + intros [I|(n & -> & [<-|I])]; eauto.
Qed.

End Loop.

End TreeKeys.

Lemma expand_sealed_noop (fuel : nat) (c : cid) (dnp : list cid) (w : World) :
  _is_actually_dataclass w c = true ->
  expand_args_fields fuel c dnp w = (Ret c, w).
Proof.
  intros Sc. rewrite expand_args_fields_unfold. unfold expand_args_fields_body.
  rewrite bind_get_state. now rewrite Sc.
Qed.

(** X21.  The default tree of an expanded class has one key per field of
    the class that is not a processed member, and no other key: the
    members that expansion has replaced ([a], say) are never keys of the
    tree, the fields generated for them are. *)
Theorem default_tree_keys :
  forall (fuel : nat) (c : cid) (dnp : list cid) (w w' : World) (tree : DictConfig)
         (rest : list cid) (fields : Fields) (processed_members : list string),
    cls_mro (get_class w c) = c :: rest ->
    cls_dataclass_fields (get_class w c) = Some fields ->
    cls_processed_members (get_class w c) = Some processed_members ->
    get_default_args fuel (TClass c) dnp w = (Ret tree, w') ->
    forall k, In k (OD.keys tree)
              <-> exists name, k = KStr name /\ In name (OD.keys fields)
                               /\ ~ In name processed_members.
Proof.
  intros fuel c dnp w w' tree rest fields pm Mro Fd Pm E k.
  assert (Sc : _is_actually_dataclass w c = true)
    by (unfold _is_actually_dataclass; now rewrite Fd).
  assert (Dc : is_dataclass w c = true).
  { unfold is_dataclass, class_lookup. rewrite Mro. cbn [find_along]. now rewrite Fd. }
  rewrite get_default_args_unfold in E. unfold get_default_args_body in E.
  rewrite bind_get_state in E.
  assert (E' : exists out s2 run_factory,
             (forall t d s, frame s (snd (run_factory t d s)))
             /\ for_fold fields []
                  (fun out '(name, (_, default)) =>
                     value <-
                       match default with
                       | FNoDefault => ret VMissing
                       | FDefault (AVal (VObj _ _)) => raise (UnsupportedValueType name)
                       | FDefault (AVal VOpaque) => raise (UnsupportedValueType name)
                       | FDefault (AVal v) => ret v
                       | FDefault _ => raise (UnsupportedValueType name)
                       | FFactory target dnp =>
                           sub <- run_factory target dnp ;;
                           ret (VDict sub)
                       end ;;
                     ret (OD.set (KStr name) value out)) w = (Ret out, s2)
             /\ tree = fold_left (fun out field => OD.remove (KStr field) out)
                                 (opt_list (class_lookup cls_processed_members s2 c)) out).
  { assert (Hrf : forall t d s,
               frame s (snd ((match fuel with
                              | O => fun _ _ => out_of_fuel
                              | S fuel' => get_default_args fuel'
                              end) t d s))).
    { intros t d s. destruct fuel; [apply frame_refl | apply get_default_args_frame]. }
    set (rf := match fuel with
               | O => fun _ _ => out_of_fuel
               | S fuel' => get_default_args fuel'
               end) in *.
    assert (After : forall s0 : World, s0 = w ->
              (w1 <- get_state ;;
               if is_dataclass w1 c then
                 out <- for_fold (opt_list (class_lookup cls_dataclass_fields w1 c)) []
                          (fun out '(name, (_, default)) =>
                             value <-
                               match default with
                               | FNoDefault => ret VMissing
                               | FDefault (AVal (VObj _ _)) =>
                                   raise (UnsupportedValueType name)
                               | FDefault (AVal VOpaque) =>
                                   raise (UnsupportedValueType name)
                               | FDefault (AVal v) => ret v
                               | FDefault _ => raise (UnsupportedValueType name)
                               | FFactory target dnp =>
                                   sub <- rf target dnp ;;
                                   ret (VDict sub)
                               end ;;
                             ret (OD.set (KStr name) value out)) ;;
                 w2 <- get_state ;;
                 let exclude := opt_list (class_lookup cls_processed_members w2 c) in
                 ret (fold_left (fun out field => OD.remove (KStr field) out) exclude out)
               else if _is_configurable_class w1 c
                    then raise (ValueError (FailedToProcess c))
                    else ret (signature_defaults (cls_signature (get_class w1 c)))) s0
              = (Ret tree, w') ->
              exists out s2 run_factory,
                (forall t d s, frame s (snd (run_factory t d s)))
                /\ for_fold fields []
                     (fun out '(name, (_, default)) =>
                        value <-
                          match default with
                          | FNoDefault => ret VMissing
                          | FDefault (AVal (VObj _ _)) => raise (UnsupportedValueType name)
                          | FDefault (AVal VOpaque) => raise (UnsupportedValueType name)
                          | FDefault (AVal v) => ret v
                          | FDefault _ => raise (UnsupportedValueType name)
                          | FFactory target dnp =>
                              sub <- run_factory target dnp ;;
                              ret (VDict sub)
                          end ;;
                        ret (OD.set (KStr name) value out)) w = (Ret out, s2)
                /\ tree = fold_left (fun out field => OD.remove (KStr field) out)
                                    (opt_list (class_lookup cls_processed_members s2 c)) out).
    { intros s0 -> R. rewrite bind_get_state, Dc in R.
      unfold class_lookup at 1 in R. rewrite Mro in R. cbn [find_along] in R.
      rewrite Fd in R. cbn [opt_list] in R.
      apply bind_ret_inv in R. destruct R as (out & s2 & L & R).
      rewrite bind_get_state in R. cbv zeta in R. injection R as <- _.
      exists out, s2, rf. auto. }
    destruct (_is_configurable_class w c).
    - destruct (mem_nat c dnp); [discriminate|].
      rewrite bind_assoc in E. unfold bind at 1 in E.
      rewrite (expand_sealed_noop fuel c dnp w Sc) in E.
      rewrite bind_ret in E. now apply After in E.
    - rewrite bind_ret in E. now apply After in E. }
  destruct E' as (out & s2 & rf & Hrf & L & ->).
  assert (F2 : frame w s2).
  { match type of L with
    | ?m w = _ => assert (K : keeps (frame w) m)
    end.
    { assert (Kr : forall t d, keeps (frame w) (rf t d)).
      { intros t d w1 F. eapply frame_trans; [exact F | apply Hrf]. }
      repeat first [ progress keeps_structure | intros; apply Kr ]. }
    specialize (K w (frame_refl w)). now rewrite L in K. }
  assert (Pm2 : class_lookup cls_processed_members s2 c = Some pm).
  { unfold class_lookup. rewrite (frame_mro _ _ F2), Mro. cbn [find_along].
    now rewrite (frame_sealed _ _ F2 c Sc), Pm. }
  rewrite Pm2. cbn [opt_list].
  rewrite TreeKeys.In_keys_remove_all, (TreeKeys.fields_loop_keys rf fields _ _ _ _ L).
  cbn [OD.keys map In]. split.
  - intros [[[]|(name & -> & I)] H]. exists name. split; [reflexivity|]. split; [exact I|].
    intros Ip. now apply (H name Ip).
  - intros (name & -> & I & N). split; [right; eauto|].
    intros field If [= ->]. contradiction.
Qed.

Lemma default_tree_keys_witness :
  ~ In (KStr "a") (OD.keys ScenarioA.default_tree).
Proof.
  pose (w1 := snd (get_default_args 2 (TClass ScenarioA.B) [] ScenarioA.world)).
  pose (k := get_class w1 ScenarioA.B).
  assert (Mro : cls_mro (get_class w1 ScenarioA.B) = ScenarioA.B :: tl (cls_mro k))
    by (vm_compute; reflexivity).
  assert (Fd : cls_dataclass_fields (get_class w1 ScenarioA.B)
               = Some (opt_list (cls_dataclass_fields k))) by (vm_compute; reflexivity).
  assert (Pm : cls_processed_members (get_class w1 ScenarioA.B) = Some ["a"])
    by (vm_compute; reflexivity).
  assert (E : get_default_args 2 (TClass ScenarioA.B) [] w1
              = (Ret ScenarioA.default_tree,
                 snd (get_default_args 2 (TClass ScenarioA.B) [] w1)))
    by (vm_compute; reflexivity).
  intros I.
  apply (default_tree_keys 2 ScenarioA.B [] w1 _ _ _ _ _ Mro Fd Pm E) in I.
  destruct I as (name & [= <-] & _ & N). apply N. now left.
Defined.

(** ** A class without members of marker type *)

Module LeafFacts.

Lemma fold_set_fresh {K V} `{EqKeyLaws K} (l acc : list (K * V)) :
  NoDup (map fst (acc ++ l)) ->
  fold_left (fun d kv => OD.set (fst kv) (snd kv) d) l acc = (acc ++ l)%list.
Proof.
  revert acc. induction l as [|[k v] l IH]; intros acc ND; cbn [fold_left].
  - now rewrite app_nil_r.
  - cbn [fst snd]. rewrite MemberFacts.set_new.
    + rewrite IH; rewrite <- app_assoc; [reflexivity | exact ND].
    + destruct (OD.mem k acc) eqn:Mk; [|reflexivity].
      apply mem_In_keys in Mk. rewrite map_app in ND. cbn [map fst] in ND.
      apply NoDup_remove_2 in ND. exfalso. apply ND. apply in_or_app. now left.
Qed.

Lemma class_lookup_update {A} (proj : PyClass -> option A) (x b : cid)
    (f : PyClass -> PyClass) (w : World) :
  (forall k, proj (f k) = proj k) -> (forall k, cls_mro (f k) = cls_mro k) ->
  class_lookup proj (update_class x f w) b = class_lookup proj w b.
Proof.
  intros Hp Hm. unfold class_lookup.
  rewrite (get_class_update_proj cls_mro x b f w Hm).
  induction (cls_mro (get_class w b)) as [|y mro IH]; cbn [find_along]; [reflexivity|].
  rewrite (get_class_update_proj proj x y f w Hp). now rewrite IH.
Qed.

Lemma no_inherited_fields (w : World) (bases : list cid) (acc : Fields) :
  (forall b, In b bases -> class_lookup cls_dataclass_fields w b = None) ->
  fold_left (fun fields b =>
               match class_lookup cls_dataclass_fields w b with
               | Some base_fields => OD.update fields base_fields
               | None => fields
               end) bases acc = acc.
Proof.
  revert acc. induction bases as [|b bases IH]; intros acc H; cbn [fold_left]; [reflexivity|].
  rewrite (H b (or_introl eq_refl)). apply IH. intros; apply H; now right.
Qed.

Lemma existsb_none {A} (f : A -> bool) (l : list A) :
  (forall x, In x l -> f x = false) -> existsb f l = false.
Proof.
  induction l as [|x l IH]; intros H; cbn [existsb]; [reflexivity|].
  rewrite (H x (or_introl eq_refl)). apply IH. intros; apply H; now right.
Qed.

(** The loop of [dataclass] over the fields of the class, when none of
    them has a [dataclasses.field] as its class attribute. *)
Lemma fields_loop (c : cid) (s : World) (l : Fields) :
  (forall name f, In (name, f) l ->
                  forall t d, class_getattr s c name <> Some (AField t d)) ->
  forall acc,
    for_fold l acc
      (fun fields '(name, f) =>
         w <- get_state ;;
         (match class_getattr w c name with
          | Some (AField _ _) => class_delattr c name
          | _ => ret tt
          end) ;;
         ret (OD.set name f fields)) s
    = (Ret (fold_left (fun d kv => OD.set (fst kv) (snd kv) d) l acc), s).
Proof.
  induction l as [|[name f] l IH]; intros H acc; cbn [for_fold fold_left]; [reflexivity|].
  unfold bind at 1. rewrite bind_get_state.
  pose proof (H name f (or_introl eq_refl)) as N.
  destruct (class_getattr s c name) as [[| t d | | |]|];
    try (now destruct (N t d)); rewrite bind_ret; cbn [ret fst snd];
    apply IH; intros; eapply H; right; eauto.
Qed.

Lemma dataclass_of_leaf (c : cid) (rest : list cid) (anns : list (string * Ty))
    (attrs : list (string * Attr)) (s : World) :
  cls_mro (get_class s c) = c :: rest ->
  (forall b, In b rest -> class_lookup cls_dataclass_fields s b = None) ->
  cls_annotations (get_class s c) = Some anns ->
  NoDup (map fst anns) ->
  cls_attrs (get_class s c) = attrs ->
  (forall name, In name (map fst anns) ->
                class_getattr s c name = OD.get name attrs) ->
  (forall name a, In (name, a) attrs -> is_field_attr a = false) ->
  default_order_ok false (own_fields anns attrs) = true ->
  dataclass c s
  = (Ret tt,
     update_class c (with_init (hasattr s c "__post_init__"))
       (update_class c (with_dataclass_fields (own_fields anns attrs)) s)).
Proof.
  intros Mro Anc Ann ND At Ga Nf Ord.
  assert (NoField : forall name t d, OD.get name attrs <> Some (AField t d)).
  { intros name t d G. apply get_In in G. now apply Nf in G. }
  unfold dataclass. rewrite bind_get_state. cbv zeta. rewrite Mro, Ann. cbn [skipn].
  rewrite no_inherited_fields by (intros b I; apply Anc; now apply in_rev).
  assert (Fs : map (fun '(name, type_) => (name, (type_, field_default s c name))) anns
               = own_fields anns attrs).
  { unfold own_fields. apply map_ext_in. intros [name ty] I. unfold field_default.
    rewrite Ga by (change name with (fst (name, ty)); now apply in_map).
    pose proof (NoField name) as N.
    destruct (OD.get name attrs) as [[| t d | | |]|]; try reflexivity.
    now destruct (N t d). }
  rewrite Fs. unfold bind at 1. rewrite fields_loop.
  - rewrite (fold_set_fresh (own_fields anns attrs) []).
    + cbn [app]. rewrite bind_get_state, At.
      rewrite existsb_none.
      * rewrite bind_modify_state, Ord. now rewrite modify_state_apply.
      * intros [name a] I. now rewrite (Nf name a I).
    + cbn [app]. unfold own_fields. rewrite map_map.
      erewrite map_ext; [exact ND|]. now intros [name ty].
  - intros name f I t d. rewrite Ga; [apply NoField|].
    unfold own_fields in I. apply in_map_iff in I. destruct I as ([n ty] & [= <- _] & I).
    change n with (fst (n, ty)). now apply in_map.
Qed.

Lemma lt_update_class (c x : cid) (f : PyClass -> PyClass) (s : World) :
  c < List.length (classes s) -> c < List.length (classes (update_class x f s)).
Proof. intros L. unfold update_class. cbn [classes]. now rewrite length_list_update. Qed.

(** [getattr(cls, name)] when no ancestor has an attribute of that name. *)
Lemma class_getattr_own (s : World) (c : cid) (rest : list cid) (name : string) :
  cls_mro (get_class s c) = c :: rest ->
  (forall b, In b rest -> OD.get name (cls_attrs (get_class s b)) = None) ->
  class_getattr s c name = OD.get name (cls_attrs (get_class s c)).
Proof.
  intros Mro Anc. unfold class_getattr, class_lookup. rewrite Mro. cbn [find_along].
  destruct (OD.get name (cls_attrs (get_class s c))); [reflexivity|]. clear Mro.
  induction rest as [|b rest IH]; cbn [find_along]; [reflexivity|].
  rewrite (Anc b (or_introl eq_refl)). apply IH. intros; apply Anc; now right.
Qed.

Lemma defaults_loop (run_factory : Target -> list cid -> M World DictConfig)
    (attrs : list (string * Attr)) (s : World) :
  forall (anns : list (string * Ty)),
    (forall name a, In name (map fst anns) -> OD.get name attrs = Some a ->
                    exists v, a = AVal v /\ plain v = true) ->
    forall acc,
      for_fold (own_fields anns attrs) acc
        (fun out '(name, (_, default)) =>
           value <-
             match default with
             | FNoDefault => ret VMissing
             | FDefault (AVal (VObj _ _)) => raise (UnsupportedValueType name)
             | FDefault (AVal VOpaque) => raise (UnsupportedValueType name)
             | FDefault (AVal v) => ret v
             | FDefault _ => raise (UnsupportedValueType name)
             | FFactory target dnp =>
                 sub <- run_factory target dnp ;;
                 ret (VDict sub)
             end ;;
           ret (OD.set (KStr name) value out)) s
      = (Ret (fold_left (fun d kv => OD.set (fst kv) (snd kv) d)
                        (own_defaults anns attrs) acc), s).
Proof.
  induction anns as [|[name ty] l IH]; intros Plain acc; [reflexivity|].
  cbn [own_fields own_defaults map for_fold fold_left fst snd].
  assert (Pl : forall n a, In n (map fst l) -> OD.get n attrs = Some a ->
                           exists v, a = AVal v /\ plain v = true).
  { intros n a I. apply Plain. now right. }
  pose proof (Plain name) as Pn.
  destruct (OD.get name attrs) as [a|].
  - destruct (Pn a (or_introl eq_refl) eq_refl) as (v & -> & Pv).
    destruct v; try discriminate Pv; rewrite bind_assoc, !bind_ret;
      now apply IH.
  - rewrite bind_assoc, !bind_ret. now apply IH.
Qed.

Section Leaf.
Variables (c : cid) (rest : list cid) (anns : list (string * Ty))
          (attrs : list (string * Attr)) (w : World).
Hypothesis valid : c < List.length (classes w).
Hypothesis unsealed : _is_actually_dataclass w c = false.
Hypothesis mro : cls_mro (get_class w c) = c :: rest.
Hypothesis bases :
  forall b, In b (slice_m3_0_rev (cls_mro (get_class w c))) ->
    b = REPLACEABLE_BASE \/ b = CONFIGURABLE \/ _is_configurable_class w b = false.
Hypothesis no_inherited :
  forall b, In b rest -> class_lookup cls_dataclass_fields w b = None.
Hypothesis not_shadowed :
  forall b name, In b rest -> In name (map fst anns) ->
                 OD.get name (cls_attrs (get_class w b)) = None.
Hypothesis annotated : cls_annotations (get_class w c) = Some anns.
Hypothesis distinct : NoDup (map fst anns).
Hypothesis leaf : members_to_process w anns = [].
Hypothesis attributes : cls_attrs (get_class w c) = attrs.
Hypothesis no_field : forall name a, In (name, a) attrs -> is_field_attr a = false.
Hypothesis order : default_order_ok false (own_fields anns attrs) = true.

Lemma expand_leaf (fuel : nat) (dnp : list cid) :
  expand_args_fields fuel c dnp w = (Ret c, sealed_leaf c anns attrs w).
Proof.
  rewrite expand_args_fields_unfold. unfold expand_args_fields_body.
  rewrite bind_get_state, unsealed.
  unfold bind at 1. rewrite (CycleFacts.bases_passed_over _ dnp w _ _ bases).
  cbv beta iota. rewrite bind_get_state, annotated. cbn [opt_list]. rewrite leaf.
  cbn [for_fold]. rewrite bind_ret. cbv beta iota.
  change (clashes []) with (@nil string). cbn [for_each]. rewrite bind_ret.
  rewrite bind_modify_state.
  set (s3 := update_class c (with_bookkeeping [] [] []) w).
  assert (Hs : hasattr s3 c "__post_init__" = hasattr w c "__post_init__").
  { unfold hasattr, class_getattr, s3.
    now rewrite (class_lookup_update (fun k => OD.get "__post_init__" (cls_attrs k))). }
  unfold bind at 1.
  rewrite (dataclass_of_leaf c rest anns attrs s3).
  - unfold sealed_leaf. fold s3. now rewrite Hs.
  - unfold s3. now rewrite get_class_update_same.
  - intros b I. unfold s3. rewrite class_lookup_update by reflexivity. now apply no_inherited.
  - unfold s3. now rewrite get_class_update_same.
  - exact distinct.
  - unfold s3. now rewrite get_class_update_same.
  - intros name I. rewrite (class_getattr_own s3 c rest name).
    + unfold s3. rewrite get_class_update_same by exact valid.
      cbn [with_bookkeeping cls_attrs]. now rewrite attributes.
    + unfold s3. now rewrite get_class_update_same.
    + intros b Ib. unfold s3.
      rewrite (get_class_update_proj (fun k => OD.get name (cls_attrs k))) by reflexivity.
      now apply not_shadowed.
  - exact no_field.
  - exact order.
Qed.

Lemma get_sealed_leaf :
  get_class (sealed_leaf c anns attrs w) c
  = with_init (hasattr w c "__post_init__")
      (with_dataclass_fields (own_fields anns attrs)
         (with_bookkeeping [] [] [] (get_class w c))).
Proof.
  unfold sealed_leaf.
  rewrite !get_class_update_same; auto using lt_update_class.
Qed.

Hypothesis configurable : _is_configurable_class w c = true.
Hypothesis plain_defaults :
  forall name a, In name (map fst anns) -> OD.get name attrs = Some a ->
                 exists v, a = AVal v /\ plain v = true.

Lemma get_default_args_leaf (fuel : nat) (dnp : list cid) :
  ~ In c dnp ->
  get_default_args fuel (TClass c) dnp w
  = (Ret (own_defaults anns attrs), sealed_leaf c anns attrs w).
Proof.
  intros Nd. rewrite get_default_args_unfold. unfold get_default_args_body.
  rewrite bind_get_state, configurable.
  destruct (mem_nat c dnp) eqn:Md; [apply mem_nat_In in Md; contradiction|].
  rewrite bind_assoc. unfold bind at 1. rewrite expand_leaf. rewrite bind_ret.
  rewrite bind_get_state.
  set (w' := sealed_leaf c anns attrs w).
  assert (Mro' : cls_mro (get_class w' c) = c :: rest).
  { unfold w'. now rewrite get_sealed_leaf. }
  assert (Fd : class_lookup cls_dataclass_fields w' c = Some (own_fields anns attrs)).
  { unfold class_lookup. rewrite Mro'. cbn [find_along]. unfold w'.
    now rewrite get_sealed_leaf. }
  assert (Pm : class_lookup cls_processed_members w' c = Some []).
  { unfold class_lookup. rewrite Mro'. cbn [find_along]. unfold w'.
    now rewrite get_sealed_leaf. }
  unfold is_dataclass. rewrite Fd. cbn [opt_list].
  unfold bind at 1. rewrite (defaults_loop _ attrs w' anns plain_defaults).
  rewrite bind_get_state, Pm. cbn [opt_list fold_left]. cbv zeta. unfold ret. f_equal. f_equal.
  apply (fold_set_fresh (own_defaults anns attrs) []).
  cbn [app]. unfold own_defaults. rewrite map_map.
  assert (E : map (fun x : string * Ty => fst (let '(name, _) := x in
               (KStr name, match OD.get name attrs with
                           | Some (AVal v) => v
                           | _ => VMissing
                           end))) anns
              = map KStr (map fst anns)).
  { rewrite map_map. apply map_ext. now intros [name ty]. }
  rewrite E. clear - distinct.
  induction (map fst anns) as [|x l IH]; cbn [map]; [constructor|].
  inversion distinct as [|? ? Nx ND]. subst. constructor; [|now apply IH].
  intros I. apply in_map_iff in I. destruct I as (y & [= ->] & I). contradiction.
Qed.

End Leaf.

End LeafFacts.



Module ConstructFacts.

Lemma for_fold_pure {S A B} (l : list A) (body : B -> A -> M S B)
    (g : B -> A -> B) (s : S) :
  (forall acc x, In x l -> body acc x s = (Ret (g acc x), s)) ->
  forall acc, for_fold l acc body s = (Ret (fold_left g l acc), s).
Proof.
  induction l as [|x l IH]; intros H acc; cbn [for_fold fold_left]; [reflexivity|].
  unfold bind. rewrite (H acc x (or_introl eq_refl)). apply IH.
  intros; apply H; now right.
Qed.

Lemma default_order_all (anns : list (string * Ty)) (attrs : list (string * Attr)) :
  (forall name, In name (map fst anns) -> OD.get name attrs <> None) ->
  forall seen, default_order_ok seen (own_fields anns attrs) = true.
Proof.
  induction anns as [|[name ty] l IH]; intros H seen; [reflexivity|].
  cbn [own_fields map default_order_ok].
  pose proof (H name (or_introl eq_refl)) as N.
  destruct (OD.get name attrs); [|contradiction].
  apply IH. intros; apply H; now right.
Qed.

Lemma keywords_own_defaults (anns : list (string * Ty)) (attrs : list (string * Attr)) :
  keywords (own_defaults anns attrs) = Some (default_attributes anns attrs).
Proof.
  induction anns as [|[name ty] l IH]; [reflexivity|].
  cbn [own_defaults default_attributes map keywords].
  unfold own_defaults in IH. now rewrite IH.
Qed.

Lemma get_default_attributes (anns : list (string * Ty)) (attrs : list (string * Attr))
    (name : string) :
  In name (map fst anns) ->
  OD.get name (default_attributes anns attrs)
  = Some (match OD.get name attrs with Some (AVal v) => v | _ => VMissing end).
Proof.
  induction anns as [|[n ty] l IH]; intros I; [destruct I|].
  cbn [default_attributes map OD.get].
  destruct (keqb name n) eqn:E.
  - apply keqb_eq in E. now subst.
  - apply IH. destruct I as [<-|I]; [|exact I]. now rewrite keqb_refl in E.
Qed.

Lemma fields_of_defaults (anns : list (string * Ty)) (attrs : list (string * Attr)) :
  map fst (own_fields anns attrs) = map fst anns.
Proof. unfold own_fields. rewrite map_map. apply map_ext. now intros [name ty]. Qed.

Lemma names_of_defaults (anns : list (string * Ty)) (attrs : list (string * Attr)) :
  map fst (default_attributes anns attrs) = map fst anns.
Proof. unfold default_attributes. rewrite map_map. apply map_ext. now intros [name ty]. Qed.

Lemma fold_default_attributes (anns : list (string * Ty)) (attrs : list (string * Attr)) :
  NoDup (map fst anns) ->
  fold_left (fun (acc : list (string * Value)) '(name, _) =>
               OD.set name (match OD.get name attrs with
                            | Some (AVal v) => v
                            | _ => VMissing
                            end) acc)
            (own_fields anns attrs) []
  = default_attributes anns attrs.
Proof.
  intros ND.
  change (default_attributes anns attrs) with (app [] (default_attributes anns attrs)) at 1.
  rewrite <- (LeafFacts.fold_set_fresh (default_attributes anns attrs) [])
    by (cbn [app]; now rewrite names_of_defaults).
  generalize (@nil (string * Value)). clear ND.
  induction anns as [|[name ty] l IH]; intros acc; [reflexivity|].
  cbn [own_fields default_attributes map fold_left fst snd]. apply IH.
Qed.

Section Construct.
Variable user_method : string -> Value -> M World Value.
Variables (fuel : nat) (c : cid) (rest : list cid) (anns : list (string * Ty))
          (attrs : list (string * Attr)) (w : World).
Hypothesis valid : c < List.length (classes w).
Hypothesis mro : cls_mro (get_class w c) = c :: rest.
Hypothesis distinct : NoDup (map fst anns).
Hypothesis post_init :
  class_getattr w c "__post_init__" = None
  \/ (class_getattr w c "__post_init__" = Some ARunAutoCreation
      /\ ~ In "__post_init__" (map fst anns) /\ 2 <= fuel).

Lemma instantiate_leaf :
  instantiate user_method fuel c (default_attributes anns attrs)
    (sealed_leaf c anns attrs w)
  = (Ret (VObj c (default_attributes anns attrs)), sealed_leaf c anns attrs w).
Proof.
  set (w' := sealed_leaf c anns attrs w).
  set (kwargs := default_attributes anns attrs).
  assert (G : get_class w' c
              = with_init (hasattr w c "__post_init__")
                  (with_dataclass_fields (own_fields anns attrs)
                     (with_bookkeeping [] [] [] (get_class w c))))
    by now apply LeafFacts.get_sealed_leaf.
  assert (Mro' : cls_mro (get_class w' c) = c :: rest) by now rewrite G.
  assert (Sealed : _is_actually_dataclass w' c = true)
    by (unfold _is_actually_dataclass; now rewrite G).
  assert (Init : class_lookup init_of w' c
                 = Some (own_fields anns attrs, hasattr w c "__post_init__")).
  { unfold class_lookup. rewrite Mro'. cbn [find_along]. now rewrite G. }
  assert (Cf : class_lookup cls_creation_functions w' c = Some []).
  { unfold class_lookup. rewrite Mro'. cbn [find_along]. now rewrite G. }
  assert (Ga : forall name, class_getattr w' c name = class_getattr w c name).
  { intros name. unfold class_getattr, w', sealed_leaf.
    now rewrite !(LeafFacts.class_lookup_update (fun k => OD.get name (cls_attrs k))). }
  assert (Head : instantiate user_method fuel c kwargs w'
             = (attrs' <- ret kwargs ;;
                let self := VObj c attrs' in
                if hasattr w c "__post_init__"
                then match fuel with
                     | O => out_of_fuel
                     | S fuel' => call_method user_method fuel' self "__post_init__"
                     end
                else ret self) w').
  { destruct fuel; cbn [instantiate]; rewrite bind_get_state;
      unfold bind at 1;
      (rewrite PrunerMore.for_each_noop
         by (intros m _; rewrite Sealed, andb_false_r; reflexivity));
      rewrite Init;
      (rewrite LeafFacts.existsb_none
         by (intros [k v] I; apply negb_false_iff, mem_In_keys;
             unfold OD.keys; rewrite fields_of_defaults, <- (names_of_defaults anns attrs);
             change k with (fst (k, v)); now apply in_map));
      (rewrite LeafFacts.existsb_none
         by (intros [name [ty d]] I; destruct d; try reflexivity;
             apply negb_false_iff, mem_In_keys;
             unfold OD.keys, kwargs; rewrite names_of_defaults, <- (fields_of_defaults anns attrs);
             change name with (fst (name, (ty, FNoDefault))); now apply in_map));
      unfold bind at 1;
      (rewrite (for_fold_pure _ _
                  (fun acc '(name, _) =>
                     OD.set name (match OD.get name attrs with
                                  | Some (AVal v) => v
                                  | _ => VMissing
                                  end) acc))
         by (intros acc [name [ty d]] I; unfold kwargs;
             rewrite get_default_attributes
               by (rewrite <- (fields_of_defaults anns attrs);
                   change name with (fst (name, (ty, d))); now apply in_map);
             now rewrite bind_ret));
      rewrite bind_ret;
      (replace (fold_left _ (own_fields anns attrs) [])
         with kwargs; [reflexivity|]).
    all: symmetry; now apply fold_default_attributes. }
  rewrite Head, bind_ret. cbv zeta. clear Head.
  unfold hasattr.
  destruct post_init as [N|(R & Nf & Fu)]; rewrite ?N, ?R; [reflexivity|].
  destruct fuel as [|[|fuel']]; [lia|lia|].
  cbn [call_method].
  assert (Ni : OD.get "__post_init__" kwargs = None).
  { destruct (OD.get "__post_init__" kwargs) eqn:E; [|reflexivity].
    apply get_In in E. apply (in_map fst) in E. unfold kwargs in E.
    rewrite names_of_defaults in E. contradiction. }
  rewrite Ni, bind_get_state, Ga, R.
  destruct fuel'; cbn [run_auto_creation]; now rewrite bind_get_state, Cf.
Qed.

End Construct.

End ConstructFacts.


